(** * restapir: query dispatch, authentication and transformation chains

    A shallow embedding of three classes of the repository:

    - [Query] (classes/Query.js): argument injection and method dispatch;
    - [Authentication]: the Basic / Bearer request hook and [POST /token];
    - [Transformation]: the operator chain over JSON-shaped values.

    Conventions of the embedding.

    - JavaScript strings are [string]s, one [ascii] per code unit.
    - JavaScript numbers are the integers [Z]; fractions, NaN and the
      infinities do not occur in the modelled data.
    - Data that is only read is a [json] tree.  Where the code relies on
      object identity or mutates objects ([Transformation]), values are
      references into an explicit [heap] of cells.
    - Properties are own properties: members inherited from
      [Object.prototype] are not part of the data model.
    - A regular expression of the code is the matcher written out for
      it; a pattern is quoted in words where its text would end a
      comment.
    - Promises are modelled by their outcome; calls to collaborators whose
      code lives elsewhere (storage, models, context, random source) are
      events of a small free monad, so that the order and the arguments of
      the calls are part of what a program is. *)

From Stdlib Require Import ZArith String Ascii List DecimalString Decimal Lia Bool.
From Stdlib.Strings Require Import Byte.
From stdpp Require Import base option list strings.

Local Open Scope string_scope.
#[local] Set Warnings "-register-all".
#[local] Arguments String.append !_ _ / : simpl nomatch.

(* ================================================================== *)
(** ** Characters and strings *)

Definition dquote : ascii := "034"%char.
Definition newline : ascii := "010"%char.
Definition str1 (c : ascii) : string := String c EmptyString.

Definition ascii_in (lo hi c : ascii) : bool :=
  (nat_of_ascii lo <=? nat_of_ascii c)%nat && (nat_of_ascii c <=? nat_of_ascii hi)%nat.

Definition is_lower (c : ascii) : bool := ascii_in "a" "z" c.
Definition is_upper (c : ascii) : bool := ascii_in "A" "Z" c.
Definition is_digit (c : ascii) : bool := ascii_in "0" "9" c.

(** The regular-expression class [\w]. *)
Definition is_word (c : ascii) : bool :=
  is_lower c || is_upper c || is_digit c || Ascii.eqb c "_".

Definition to_upper (c : ascii) : ascii :=
  if is_lower c then ascii_of_nat (nat_of_ascii c - 32) else c.
Definition to_lower (c : ascii) : ascii :=
  if is_upper c then ascii_of_nat (nat_of_ascii c + 32) else c.

Fixpoint string_forall (p : ascii -> bool) (s : string) : bool :=
  match s with
  | EmptyString => true
  | String c s' => p c && string_forall p s'
  end.

Fixpoint string_map (f : ascii -> ascii) (s : string) : string :=
  match s with
  | EmptyString => EmptyString
  | String c s' => String (f c) (string_map f s')
  end.

Fixpoint string_drop (n : nat) (s : string) : string :=
  match n, s with
  | O, _ => s
  | S n', String _ s' => string_drop n' s'
  | S _, EmptyString => EmptyString
  end.

Fixpoint string_take (n : nat) (s : string) : string :=
  match n, s with
  | S n', String c s' => String c (string_take n' s')
  | _, _ => EmptyString
  end.

(** [strip_prefix p s] is the rest of [s] after its prefix [p]. *)
Fixpoint strip_prefix (p s : string) : option string :=
  match p, s with
  | EmptyString, _ => Some s
  | String a p', String b s' => if Ascii.eqb a b then strip_prefix p' s' else None
  | String _ _, EmptyString => None
  end.

(** First occurrence of [pat] in [s]: the text before it and the text
    after it. *)
Fixpoint str_find (pat s : string) : option (string * string) :=
  match strip_prefix pat s with
  | Some rest => Some (EmptyString, rest)
  | None =>
    match s with
    | EmptyString => None
    | String c s' =>
      match str_find pat s' with
      | Some (before, after) => Some (String c before, after)
      | None => None
      end
    end
  end.

Fixpoint join_with (sep : string) (l : list string) : string :=
  match l with
  | [] => EmptyString
  | [x] => x
  | x :: rest => x ++ sep ++ join_with sep rest
  end.

Definition nat_to_string (n : nat) : string := NilZero.string_of_uint (Nat.to_uint n).
Definition number_to_string (n : Z) : string := NilZero.string_of_int (Z.to_int n).

(** [String.prototype.split] with a string separator.  With the empty
    separator the string falls apart into its code units. *)
Fixpoint split_fuel (fuel : nat) (sep s : string) : list string :=
  match fuel with
  | O => [s]
  | S fuel' =>
    match str_find sep s with
    | Some (before, after) => before :: split_fuel fuel' sep after
    | None => [s]
    end
  end.

Fixpoint string_chars (s : string) : list string :=
  match s with
  | EmptyString => []
  | String c s' => str1 c :: string_chars s'
  end.

Definition js_split (sep s : string) : list string :=
  match sep with
  | EmptyString => string_chars s
  | _ => split_fuel (String.length s) sep s
  end.

(** [String.prototype.substring] on integer arguments; [None] as the end
    stands for [Infinity]. *)
Definition clamp (len : nat) (i : Z) : nat := Z.to_nat (Z.min (Z.max 0 i) (Z.of_nat len)).

Definition js_substring (s : string) (start : Z) (stop : option Z) : string :=
  let len := String.length s in
  let a := clamp len start in
  let b := match stop with Some e => clamp len e | None => len end in
  string_take (Nat.max a b - Nat.min a b) (string_drop (Nat.min a b) s).

(** The replacement text of [String.prototype.replace] when the pattern is
    a string: [$$] is a dollar sign, [$&] the match, [$`] the text before
    the match and [$'] the text after it; every other [$] stands for
    itself (a string pattern has no captures). *)
Fixpoint get_substitution (matched before after repl : string) : string :=
  match repl with
  | EmptyString => EmptyString
  | String c rest =>
    if Ascii.eqb c "$" then
      match rest with
      | String d rest' =>
        if Ascii.eqb d "$" then "$" ++ get_substitution matched before after rest'
        else if Ascii.eqb d "&" then matched ++ get_substitution matched before after rest'
        else if Ascii.eqb d "`" then before ++ get_substitution matched before after rest'
        else if Ascii.eqb d "'" then after ++ get_substitution matched before after rest'
        else String c (get_substitution matched before after rest)
      | EmptyString => String c EmptyString
      end
    else String c (get_substitution matched before after rest)
  end.

(** [s.replace(pat, repl)] with a string pattern: only the first
    occurrence is replaced. *)
Definition js_replace (pat repl s : string) : string :=
  match str_find pat s with
  | Some (before, after) => before ++ get_substitution pat before after repl ++ after
  | None => s
  end.

(* ================================================================== *)
(** ** JSON-shaped data and errors *)

Inductive json : Type :=
| JUndefined
| JNull
| JBool (b : bool)
| JNum (n : Z)
| JStr (s : string)
| JArr (items : list json)
| JObj (props : list (string * json)).

Inductive exn : Type :=
| Error (msg : string)
| TypeError (msg : string)
| RangeError (msg : string)
| QueryError (errors : list (option string * string)).

Abbreviation result A := (exn + A)%type.
Abbreviation Ok := inr (only parsing).
Abbreviation Throw := inl (only parsing).

Definition truthy (j : json) : bool :=
  match j with
  | JUndefined | JNull => false
  | JBool b => b
  | JNum n => negb (n =? 0)%Z
  | JStr s => negb (String.eqb s EmptyString)
  | JArr _ | JObj _ => true
  end.

Fixpoint assoc {A} (k : string) (l : list (string * A)) : option A :=
  match l with
  | [] => None
  | (k', v) :: rest => if String.eqb k k' then Some v else assoc k rest
  end.

(** Decimal text of an array index, as in [Object.keys] of an array. *)
Definition parse_index (s : string) : option nat :=
  match NilZero.uint_of_string s with
  | Some u => if String.eqb (nat_to_string (Nat.of_uint u)) s then Some (Nat.of_uint u) else None
  | None => None
  end.

(** [j[key]] on tree data.  Reading a property of [undefined] or [null]
    throws. *)
Definition js_get (j : json) (key : string) : result json :=
  match j with
  | JUndefined | JNull => Throw (TypeError ("Cannot read property " ++ key))
  | JObj ps => Ok (default JUndefined (assoc key ps))
  | JArr xs =>
    if String.eqb key "length" then Ok (JNum (Z.of_nat (length xs)))
    else Ok (default JUndefined (i ← parse_index key; xs !! i))
  | JStr s =>
    if String.eqb key "length" then Ok (JNum (Z.of_nat (String.length s)))
    else Ok (default JUndefined
               (i ← parse_index key; c ← String.get i s; Some (JStr (str1 c))))
  | JBool _ | JNum _ => Ok JUndefined
  end.

(** *** [JSON.stringify] *)

Definition hex_digit (n : nat) : ascii :=
  if (n <? 10)%nat then ascii_of_nat (48 + n) else ascii_of_nat (87 + n).

Definition escape_char (c : ascii) : string :=
  let n := nat_of_ascii c in
  if Ascii.eqb c dquote then String "\" (str1 dquote)
  else if Ascii.eqb c "\" then "\\"
  else if (n =? 8)%nat then "\b"
  else if (n =? 9)%nat then "\t"
  else if (n =? 10)%nat then "\n"
  else if (n =? 12)%nat then "\f"
  else if (n =? 13)%nat then "\r"
  else if (n <? 32)%nat then "\u00" ++ String (hex_digit (n / 16)) (str1 (hex_digit (n mod 16)))
  else str1 c.

Fixpoint escape_string (s : string) : string :=
  match s with
  | EmptyString => EmptyString
  | String c s' => escape_char c ++ escape_string s'
  end.

Definition quote (s : string) : string :=
  String dquote (escape_string s ++ str1 dquote).

(** [None] is the result [undefined] of [JSON.stringify(undefined)]. *)
Fixpoint stringify (j : json) : option string :=
  match j with
  | JUndefined => None
  | JNull => Some "null"
  | JBool b => Some (if b then "true" else "false")
  | JNum n => Some (number_to_string n)
  | JStr s => Some (quote s)
  | JArr xs =>
    Some ("[" ++ join_with "," (map (fun x => default "null" (stringify x)) xs) ++ "]")
  | JObj ps =>
    Some ("{" ++ join_with ","
            (omap (fun kv => match stringify (snd kv) with
                             | Some e => Some (quote (fst kv) ++ ":" ++ e)
                             | None => None
                             end) ps) ++ "}")
  end.

(** The text a value contributes when it is used where a string is
    expected (here: the replacement argument of [replace]). *)
Definition stringify_text (j : json) : string := default "undefined" (stringify j).

(* ================================================================== *)
(** ** Programs that call collaborators

    A program either returns, throws (a rejected promise), or issues a
    call of the event family [E] and continues with the answer. *)

Inductive prog (E : Type -> Type) (A : Type) : Type :=
| Ret (a : A)
| Raise (e : exn)
| Call {R : Type} (c : E R) (k : R -> prog E A).

Arguments Ret {E A} a.
Arguments Raise {E A} e.
Arguments Call {E A R} c k.

Fixpoint bind {E A B} (m : prog E A) (f : A -> prog E B) : prog E B :=
  match m with
  | Ret a => f a
  | Raise e => Raise e
  | Call c k => Call c (fun r => bind (k r) f)
  end.

(** A call whose promise may be rejected. *)
Definition await {E A} (c : E (result A)) : prog E A :=
  Call c (fun r => match r with inl e => Raise e | inr a => Ret a end).

Definition lift {E A} (r : result A) : prog E A :=
  match r with inl e => Raise e | inr a => Ret a end.

Declare Scope prog_scope.
Delimit Scope prog_scope with prog.
Notation "x <- m ;; k" := (bind m (fun x => k))
  (at level 100, m at next level, right associativity) : prog_scope.

(** Running a program against a handler that answers every call. *)
Fixpoint run {E A} (handler : forall R, E R -> R) (p : prog E A) : result A :=
  match p with
  | Ret a => Ok a
  | Raise e => Throw e
  | Call c k => run handler (k (handler _ c))
  end.

(** The calls a program issues when run against a handler, in order. *)
Fixpoint trace {E A} (handler : forall R, E R -> R) (p : prog E A) : list {R & E R} :=
  match p with
  | Ret _ | Raise _ => []
  | Call c k => existT _ c :: trace handler (k (handler _ c))
  end.

(** [Context]: zero or one authenticated user.  A request without context
    (the value [undefined], here [None : option context]) runs in admin
    mode. *)
Record context : Type := { user : option json }.

(* ================================================================== *)
(** ** Query (classes/Query.js) *)

Module Query.

Record model : Type := {
  model_name : string;
  (* names of the function-valued properties of the model object *)
  model_functions : list string
}.

Definition has_function (m : model) (f : string) : bool :=
  existsb (String.eqb f) (model_functions m).

Record method : Type := {
  name : string;
  params : list (string * json);
  fieldNames : list string;
  fields : json
}.

Definition parsed := list (string * method).

(** The query handed to the constructor: text, or an already parsed
    object. *)
Variant source : Type :=
| Text (q : string)
| Parsed (p : parsed).

(** Calls to the collaborators of [callMethod]. *)
Variant call : Type -> Type :=
| ModelsHas (entity : string) : call (result bool)
| ModelsGet (entity : string) : call (result model)
| GetUser : call json
| Access (m : model) (operation : string) (data field : json) : call (result json)
| Execute (m : model) (functionName : string) (params : json)
          (fieldNames : list string) : call (result json).

(** [args.forEach(value => query = query.replace('?', JSON.stringify(value)))] *)
Fixpoint inject_each (query : source) (args : list json) : result source :=
  match args with
  | [] => Ok query
  | value :: rest =>
    match query with
    | Text q => inject_each (Text (js_replace "?" (stringify_text value) q)) rest
    | Parsed _ => Throw (TypeError "query.replace is not a function")
    end
  end.

Definition injectArguments (query : source) (args : json) : result source :=
  match args with
  | JArr l => inject_each query l
  | _ => Ok query
  end.

(** The two ways the constructor is called: with a context (possibly
    undefined) and arguments, or with the argument list in the place of
    the context. *)
Variant arguments : Type :=
| WithContext (context : option context) (args : json)
| WithoutContext (args : list json).

Record t : Type := {
  query : source;
  context_of : option context;
  parsed_of : parsed
}.

Section Constructor.
Variable Parser : string -> result parsed.

Definition constructor (query : source) (rest : arguments) : result t :=
  let '(context, args) :=
    match rest with
    | WithContext c args => (c, args)
    | WithoutContext l => (None, JArr l)
    end in
  match injectArguments query args with
  | inl e => Throw e
  | inr query =>
    match query with
    | Text q =>
      match Parser q with
      | inl e =>
        Throw (QueryError [(None, match e with
                                  | Error m | TypeError m | RangeError m => m
                                  | QueryError _ => EmptyString
                                  end)])
      | inr p => Ok {| query := query; context_of := context; parsed_of := p |}
      end
    | Parsed p => Ok {| query := query; context_of := context; parsed_of := p |}
    end
  end.

End Constructor.

(** The longest prefix of [s] whose characters satisfy [p], and the rest. *)
Fixpoint span (p : ascii -> bool) (s : string) : string * string :=
  match s with
  | String c s' =>
    if p c then let '(a, b) := span p s' in (String c a, b) else (EmptyString, s)
  | EmptyString => (EmptyString, EmptyString)
  end.

(** The match of a method name against the pattern
    "optional run of [a-z], then one of [A-Z], then word characters up to
    the end": the optional lower-case operation and the entity. *)
Definition match_method_name (s : string) : option (option string * string) :=
  let '(lower, rest) := span is_lower s in
  match rest with
  | String c tail =>
    if is_upper c && string_forall is_word tail
    then Some (match lower with EmptyString => None | _ => Some lower end, rest)
    else None
  | EmptyString => None
  end.

(** [_.capitalize] *)
Definition capitalize (s : string) : string :=
  match s with
  | String c rest => String (to_upper c) (string_map to_lower rest)
  | EmptyString => EmptyString
  end.

Fixpoint set_prop {A} (k : string) (v : A) (l : list (string * A)) : list (string * A) :=
  match l with
  | [] => [(k, v)]
  | (k', v') :: rest =>
    if String.eqb k k' then (k, v) :: rest else (k', v') :: set_prop k v rest
  end.

Definition set_params (m : method) (ps : list (string * json)) : method :=
  {| name := name m; params := ps; fieldNames := fieldNames m; fields := fields m |}.

(** The data handed to the entity-level access check. *)
Definition access_data (operation : string) (ps : list (string * json)) : json :=
  let id := match assoc "id" ps with
            | None | Some JUndefined => JNull
            | Some v => v
            end in
  if String.eqb operation "list" || String.eqb operation "create"
  then JObj ps (* _.cloneDeep(method.params) *)
  else JObj [("id", id)].

Local Open Scope prog_scope.

(** [parts[1] ? parts[1] : 'read'], with [delete] renamed to [remove]. *)
Definition operation_of (op : option string) : string :=
  let operation := default "read" op in
  if String.eqb operation "delete" then "remove" else operation.

(** "Allow us to get the logged in user by requesting readUser without
    params": the method with its params after this step. *)
Definition bind_current_user (context : option context) (operation entity : string)
           (method0 : method) : prog call method :=
  if String.eqb operation "read" && String.eqb entity "User"
     && (length (params method0) =? 0)%nat
     && match context with Some _ => true | None => false end
  then Call GetUser (fun user =>
         id <- lift (js_get user "id") ;;
         if truthy id
         then Ret (set_params method0 (set_prop "id" id (params method0)))
         else Ret method0)
  else Ret method0.

(** The promise chain that starts with [this.models.has(parts[2])]. *)
Definition dispatch (context : option context) (operation entity : string)
           (method1 : method) : prog call (method * option (model * json)) :=
  exists_ <- await (ModelsHas entity) ;;
  if exists_ : bool then
    model <- await (ModelsGet entity) ;;
    access <-
      match context with
      | Some _ =>
        await (Access model operation (access_data operation (params method1)) JNull)
      | None => Ret (JBool true)
      end ;;
    if negb (truthy access)
    then Raise (QueryError [(None, "permission denied")])
    else
      let functionName := "execute" ++ capitalize operation in
      if has_function model operation && has_function model functionName
      then
        data <- await (Execute model functionName (JObj (params method1))
                               (fieldNames method1)) ;;
        Ret (method1, Some (model, data))
      else Raise (Error ("Operation " ++ operation ++ " is not supported by model"))
  else Ret (method1, None).

(** [callMethod] returns nothing when the name is no method name or the
    entity is unknown; the method is returned as well, since its params
    are written to. *)
Definition callMethod (context : option context) (method0 : method)
  : prog call (method * option (model * json)) :=
  match match_method_name (name method0) with
  | None => Ret (method0, None)
  | Some (op, entity) =>
    let operation := operation_of op in
    method1 <- bind_current_user context operation entity method0 ;;
    dispatch context operation entity method1
  end.

End Query.

(* ================================================================== *)
(** ** Authentication *)

Module Authentication.

(** *** Base64, as [Buffer.prototype.toString('base64')] writes it *)

Definition base64_alphabet : string :=
  "ABCDEFGHIJKLMNOPQRSTUVWXYZabcdefghijklmnopqrstuvwxyz0123456789+/".

Definition base64_char (n : N) : ascii :=
  default "="%char (String.get (N.to_nat n) base64_alphabet).

Definition sextets (a b c : byte) : N * N * N * N :=
  let n := (Byte.to_N a * 65536 + Byte.to_N b * 256 + Byte.to_N c)%N in
  ((n / 262144) mod 64, (n / 4096) mod 64, (n / 64) mod 64, n mod 64)%N.

Fixpoint base64 (bs : list byte) : string :=
  match bs with
  | [] => EmptyString
  | [a] =>
    let '(s1, s2, _, _) := sextets a Byte.x00 Byte.x00 in
    String (base64_char s1) (String (base64_char s2) "==")
  | [a; b] =>
    let '(s1, s2, s3, _) := sextets a b Byte.x00 in
    String (base64_char s1) (String (base64_char s2) (String (base64_char s3) "="))
  | a :: b :: c :: rest =>
    let '(s1, s2, s3, s4) := sextets a b c in
    String (base64_char s1) (String (base64_char s2)
      (String (base64_char s3) (String (base64_char s4) (base64 rest))))
  end.

(** The two alphabets of RFC 4648. *)
Definition is_base64_char (c : ascii) : bool :=
  is_upper c || is_lower c || is_digit c || Ascii.eqb c "+" || Ascii.eqb c "/".
Definition is_base64url_char (c : ascii) : bool :=
  is_upper c || is_lower c || is_digit c || Ascii.eqb c "-" || Ascii.eqb c "_".

(** The text of a token. *)
Definition is_base64_text (s : string) : bool :=
  string_forall (fun c => is_base64_char c || Ascii.eqb c "=") s.
Definition is_base64url_text (s : string) : bool :=
  string_forall (fun c => is_base64url_char c || Ascii.eqb c "=") s.

(** *** Options and collaborators *)

Record options : Type := {
  userFields : list string;
  userModel : string;
  usernameField : string;
  passwordField : string;
  admins : list (string * json)
}.

(** Code of the repository that is used here and declared elsewhere: the
    decoding of a Basic credential, [new Buffer(s, 'base64').toString()],
    and the verifier [Password.isValid(encoded, plaintext)]. *)
Record externals : Type := {
  base64_decode : string -> string;
  isValid : json -> json -> result bool
}.

Variant call : Type -> Type :=
| StorageQuery (query : string) (args : list json) : call (result json)
| RandomBytes (size : nat) : call (list byte).

Record response : Type := {
  status : option Z; (* [None]: the status is left as the framework set it *)
  body : json
}.

Definition is_line_terminator (c : ascii) : bool :=
  Ascii.eqb c newline || Ascii.eqb c "013"%char.

(** [header.match(/^scheme (.+)$/)]: the text after the scheme, which is
    not empty and holds no line terminator. *)
Definition match_scheme (scheme header : string) : option string :=
  match strip_prefix (scheme ++ " ") header with
  | Some rest =>
    match rest with
    | EmptyString => None
    | _ => if string_forall (fun c => negb (is_line_terminator c)) rest
           then Some rest else None
    end
  | None => None
  end.

Definition is_string (j : json) (s : string) : bool :=
  match j with JStr s' => String.eqb s s' | _ => false end.

(** [a > 0] for the values a [length] property takes. *)
Definition js_positive (j : json) : bool :=
  match j with
  | JNum n => (0 <? n)%Z
  | JBool b => b
  | _ => false
  end.

Section Handlers.
Variable opts : options.
Variable ext : externals.

Local Open Scope prog_scope.

(** The Basic branch of the request hook: the context after it. *)
Definition basic (authnHeader : string) (context0 : option context)
  : result (option context) :=
  match match_scheme "Basic" authnHeader with
  | Some credential =>
    let parts := js_split ":" (base64_decode ext credential) in
    let username := default EmptyString (parts !! 0%nat) in
    let password := match parts !! 1%nat with Some p => JStr p | None => JUndefined end in
    let entry := default JUndefined (assoc username (admins opts)) in
    if negb (is_string entry "undefined") then
      match isValid ext entry password with
      | inl e => Throw e
      | inr true => Ok None
      | inr false => Ok context0
      end
    else Ok context0
  | None => Ok context0
  end.

Definition bearer_query : string :=
  "{token:listAuthnToken(token:?){user{" ++ join_with " " (userFields opts) ++ "}}}".

(** [context.setUser(user)]; the context may be [undefined]. *)
Definition setUser (c : option context) (u : json) : result (option context) :=
  match c with
  | Some _ => Ok (Some {| user := Some u |})
  | None => Throw (TypeError "Cannot read property setUser of undefined")
  end.

(** The Bearer branch: the lookup of the token and what follows it. *)
Definition bearer (token : string) (context1 : option context)
  : prog call (option context) :=
  result <- await (StorageQuery bearer_query [JStr token]) ;;
  rows <- lift (js_get result "token") ;;
  len <- lift (js_get rows "length") ;;
  match len with
  | JNum 0 => Raise (Error "Invalid access token")
  | _ =>
    row <- lift (js_get rows "0") ;;
    u <- lift (js_get row "user") ;;
    lift (setUser context1 u)
  end.

(** The callback registered with [app.authentication]: the value stored
    as the request parameter [context]. *)
Definition authenticate (authorization : option string) : prog call (option context) :=
  let context0 := Some {| user := None |} in
  let authnHeader := default EmptyString authorization in
  context1 <- lift (basic authnHeader context0) ;;
  match match_scheme "Bearer" authnHeader with
  | Some token => bearer token context1
  | None => Ret context1
  end.

Definition token_user_query : string :=
  "{" ++ str1 newline ++
  "          user: list" ++ userModel opts ++ " (" ++ usernameField opts ++ ": ?) {" ++ str1 newline ++
  "            id" ++ str1 newline ++
  "            password: " ++ passwordField opts ++ str1 newline ++
  "          }" ++ str1 newline ++
  "        }".

Definition create_token_query : string := "{createAuthnToken(token:?,user:?){id}}".

(** The [POST /token] handler; [None] is the result [undefined] of a
    request whose grant type is not [password]. *)
Definition process_token (request_body : json) : prog call (option response) :=
  grant_type <- lift (js_get request_body "grant_type") ;;
  if is_string grant_type "password" then
    username <- lift (js_get request_body "username") ;;
    result <- await (StorageQuery token_user_query [username]) ;;
    users <- lift (js_get result "user") ;;
    len <- lift (js_get users "length") ;;
    valid <-
      (if js_positive len then
         row <- lift (js_get users "0") ;;
         encoded <- lift (js_get row "password") ;;
         plain <- lift (js_get request_body "password") ;;
         lift (isValid ext encoded plain)
       else Ret false) ;;
    token <-
      (if valid : bool then
         Call (RandomBytes 32) (fun bytes =>
           let token := base64 bytes in
           row <- lift (js_get users "0") ;;
           id <- lift (js_get row "id") ;;
           _ <- await (StorageQuery create_token_query [JStr token; id]) ;;
           Ret (Some token))
       else Ret None) ;;
    match token with
    | Some tok =>
      if truthy (JStr tok)
      then Ret (Some {| status := None;
                        body := JObj [("access_token", JStr tok); ("token_type", JStr "bearer")] |})
      else Ret (Some {| status := Some 401%Z; body := JObj [] |})
    | None => Ret (Some {| status := Some 401%Z; body := JObj [] |})
    end
  else Ret None.

End Handlers.

End Authentication.

(* ================================================================== *)
(** ** Transformation *)

Module Transformation.

(** *** The object store

    Objects and arrays live in cells of a heap and are known by their
    location; a cell is only ever appended ([alloc]) or overwritten in
    place ([store]).  The properties of an object are kept in
    enumeration order. *)

Abbreviation loc := nat.

Inductive val : Type :=
| VUndefined
| VNull
| VBool (b : bool)
| VNum (n : Z)
| VStr (s : string)
| VRef (l : loc).

Inductive cell : Type :=
| CObj (props : list (string * val))
| CArr (items : list val).

Abbreviation heap := (list cell).

(** Heap-passing computations that may throw; the heap written so far
    survives a throw. *)
Definition M (A : Type) : Type := heap -> heap * result A.

Definition ret {A} (a : A) : M A := fun h => (h, Ok a).
Definition throw {A} (e : exn) : M A := fun h => (h, Throw e).
Definition mbind {A B} (m : M A) (f : A -> M B) : M B :=
  fun h => match m h with
           | (h', inr a) => f a h'
           | (h', inl e) => (h', inl e)
           end.

Declare Scope heap_scope.
Delimit Scope heap_scope with heap.
Notation "x <- m ;; k" := (mbind m (fun x => k))
  (at level 100, m at next level, right associativity) : heap_scope.
Local Open Scope heap_scope.

Definition alloc (c : cell) : M val := fun h => ((h ++ [c])%list, Ok (VRef (length h))).
Definition store (l : loc) (c : cell) : M unit := fun h => (<[l := c]> h, Ok tt).
Definition read {A} (f : heap -> A) : M A := fun h => (h, Ok (f h)).
Definition try_read {A} (f : heap -> result A) : M A := fun h => (h, f h).

Fixpoint for_each {A} (l : list A) (f : A -> M unit) : M unit :=
  match l with
  | [] => ret tt
  | x :: rest => _ <- f x ;; for_each rest f
  end.

(** *** Values *)

Definition nullish (v : val) : bool :=
  match v with VUndefined | VNull => true | _ => false end.

Definition truthy_val (v : val) : bool :=
  match v with
  | VUndefined | VNull => false
  | VBool b => b
  | VNum n => negb (n =? 0)%Z
  | VStr s => negb (String.eqb s EmptyString)
  | VRef _ => true
  end.

Definition typeof (v : val) : string :=
  match v with
  | VUndefined => "undefined"
  | VNull | VRef _ => "object"
  | VBool _ => "boolean"
  | VNum _ => "number"
  | VStr _ => "string"
  end.

(** [value instanceof Array]: the elements of the array. *)
Definition array_items (h : heap) (v : val) : option (list val) :=
  match v with
  | VRef l => match h !! l with Some (CArr xs) => Some xs | _ => None end
  | _ => None
  end.

Definition index_keys (n : nat) : list string := map nat_to_string (seq 0 n).

(** [Object.keys(v)] *)
Definition object_keys (v : val) : M (list string) :=
  fun h =>
    match v with
    | VUndefined | VNull =>
      (h, Throw (TypeError "Cannot convert undefined or null to object"))
    | VBool _ | VNum _ => (h, Ok [])
    | VStr s => (h, Ok (index_keys (String.length s)))
    | VRef l =>
      match h !! l with
      | Some (CObj ps) => (h, Ok (map fst ps))
      | Some (CArr xs) => (h, Ok (index_keys (length xs)))
      | None => (h, Ok [])
      end
    end.

(** [v[key]] *)
Definition get_prop (v : val) (key : string) : M val :=
  fun h =>
    match v with
    | VUndefined | VNull => (h, Throw (TypeError ("Cannot read property " ++ key)))
    | VBool _ | VNum _ => (h, Ok VUndefined)
    | VStr s =>
      if String.eqb key "length" then (h, Ok (VNum (Z.of_nat (String.length s))))
      else (h, Ok (default VUndefined
                     (i ← parse_index key; c ← String.get i s; Some (VStr (str1 c)))))
    | VRef l =>
      match h !! l with
      | Some (CObj ps) => (h, Ok (default VUndefined (assoc key ps)))
      | Some (CArr xs) =>
        if String.eqb key "length" then (h, Ok (VNum (Z.of_nat (length xs))))
        else (h, Ok (default VUndefined (i ← parse_index key; xs !! i)))
      | None => (h, Ok VUndefined)
      end
    end.

Fixpoint set_prop (k : string) (v : val) (l : list (string * val)) : list (string * val) :=
  match l with
  | [] => [(k, v)]
  | (k', v') :: rest =>
    if String.eqb k k' then (k, v) :: rest else (k', v') :: set_prop k v rest
  end.

(** [target[key] = v] on an object. *)
Definition set_property (target : val) (key : string) (v : val) : M unit :=
  fun h =>
    match target with
    | VRef l =>
      match h !! l with
      | Some (CObj ps) => store l (CObj (set_prop key v ps)) h
      | _ => (h, Ok tt)
      end
    | _ => (h, Ok tt)
    end.

(** [target.push(v)] on an array. *)
Definition push (target : val) (v : val) : M unit :=
  fun h =>
    match target with
    | VRef l =>
      match h !! l with
      | Some (CArr xs) => store l (CArr (xs ++ [v])%list) h
      | _ => (h, Ok tt)
      end
    | _ => (h, Ok tt)
    end.

(** The tree a value stands for; [None] when the fuel does not reach the
    leaves, which with fuel beyond the size of the heap means that the
    value is circular. *)
Fixpoint reify (fuel : nat) (h : heap) (v : val) : option json :=
  match v with
  | VUndefined => Some JUndefined
  | VNull => Some JNull
  | VBool b => Some (JBool b)
  | VNum n => Some (JNum n)
  | VStr s => Some (JStr s)
  | VRef l =>
    match fuel with
    | O => None
    | S n =>
      match h !! l with
      | Some (CObj ps) =>
        JObj <$> mapM (fun kv => match reify n h (snd kv) with
                                 | Some j => Some (fst kv, j)
                                 | None => None
                                 end) ps
      | Some (CArr xs) => JArr <$> mapM (reify n h) xs
      | None => None
      end
    end
  end.

(** [JSON.stringify(v)] *)
Definition json_stringify (v : val) : M string :=
  fun h =>
    match reify (S (length h)) h v with
    | Some j =>
      match stringify j with
      | Some s => (h, Ok s)
      | None => (h, Throw (TypeError "The data argument must be a string"))
      end
    | None => (h, Throw (TypeError "Converting circular structure to JSON"))
    end.

(** *** [_.cloneDeep]

    The copy of an object is allocated and remembered before its members
    are copied, so that shared and circular parts are copied once. *)

Abbreviation memo := (list (loc * loc)).

Fixpoint memo_find (l : loc) (m : memo) : option loc :=
  match m with
  | [] => None
  | (a, b) :: rest => if (a =? l)%nat then Some b else memo_find l rest
  end.

Fixpoint clone_list (f : val -> memo -> heap -> heap * memo * val)
         (vs : list val) (m : memo) (h : heap) : heap * memo * list val :=
  match vs with
  | [] => (h, m, [])
  | v :: rest =>
    let '(h1, m1, v') := f v m h in
    let '(h2, m2, rest') := clone_list f rest m1 h1 in
    (h2, m2, v' :: rest')
  end.

Fixpoint clone (fuel : nat) (v : val) (m : memo) (h : heap) : heap * memo * val :=
  match v with
  | VRef l =>
    match memo_find l m with
    | Some l' => (h, m, VRef l')
    | None =>
      match fuel, h !! l with
      | S n, Some (CObj ps) =>
        let l' := length h in
        let '(h1, m1, vs) :=
          clone_list (clone n) (map snd ps) ((l, l') :: m) (h ++ [CObj []])%list in
        (<[l' := CObj (zip (map fst ps) vs)]> h1, m1, VRef l')
      | S n, Some (CArr xs) =>
        let l' := length h in
        let '(h1, m1, vs) := clone_list (clone n) xs ((l, l') :: m) (h ++ [CArr []])%list in
        (<[l' := CArr vs]> h1, m1, VRef l')
      | _, _ => (h, m, v)
      end
    end
  | _ => (h, m, v)
  end.

(** Every level of the recursion remembers one more location of the
    heap it started from, so [S (length h)] levels are never used up; a
    reference that leads nowhere is kept as it is. *)
Definition cloneDeep (v : val) : M val :=
  fun h => let '(h', _, v') := clone (S (length h)) v [] h in (h', Ok v').

(** *** Strings of values *)

(** [String(v)].  An array is the join of its elements; the recursion is
    cut after as many levels as the heap has cells. *)
Fixpoint to_string (fuel : nat) (h : heap) (v : val) : string :=
  match v with
  | VUndefined => "undefined"
  | VNull => "null"
  | VBool b => if b then "true" else "false"
  | VNum n => number_to_string n
  | VStr s => s
  | VRef l =>
    match fuel with
    | O => EmptyString
    | S n =>
      match h !! l with
      | Some (CObj _) => "[object Object]"
      | Some (CArr xs) =>
        join_with "," (map (fun x => if nullish x then EmptyString else to_string n h x) xs)
      | None => EmptyString
      end
    end
  end.

Definition js_to_string (v : val) : M string :=
  read (fun h => to_string (S (length h)) h v).

(** [items.join(separator)] *)
Definition js_join (items : list val) (separator : val) : M string :=
  read (fun h =>
          join_with (to_string (S (length h)) h separator)
            (map (fun x => if nullish x then EmptyString
                           else to_string (S (length h)) h x) items)).

Definition is_space (c : ascii) : bool :=
  let n := nat_of_ascii c in
  (n =? 32)%nat || ((9 <=? n)%nat && (n <=? 13)%nat) || (n =? 160)%nat.

Fixpoint trim_left (s : string) : string :=
  match s with
  | String c s' => if is_space c then trim_left s' else s
  | EmptyString => EmptyString
  end.

Fixpoint trim_right (s : string) : string :=
  match s with
  | String c s' =>
    match trim_right s' with
    | EmptyString => if is_space c then EmptyString else str1 c
    | t => String c t
    end
  | EmptyString => EmptyString
  end.

(** [s.trim().toLowerCase()] *)
Definition trim_lower (s : string) : string :=
  string_map to_lower (trim_right (trim_left s)).

(** [xs[i]] for a number [i]. *)
Definition nth_Z {A} (xs : list A) (i : Z) : option A :=
  if (i <? 0)%Z then None else xs !! Z.to_nat i.

(** *** Libraries

    What the class uses of [jsonpath], [crypto] and [cheerio].  None of
    them writes to the objects it is given. *)
Record externals : Type := {
  (* JsonPath.query(value, path) *)
  jsonpath_query : heap -> val -> string -> result (list val);
  (* Crypto.createHash(algorithm).update(data).digest(encoding) *)
  crypto_hash : val -> string -> val -> result val;
  (* the elements of a parsed document *)
  elem : Type;
  (* $(selector, html) *)
  select : string -> string -> result (list elem);
  (* $(selector, element) *)
  select_in : string -> elem -> result (list elem);
  (* $(element).toString() *)
  outer_html : elem -> string;
  (* $(element).text(), the element possibly undefined *)
  text_of : option elem -> string;
  (* $(html).attr(name) *)
  html_attr : string -> string -> result (option string);
  (* this[name](value, options) for the four functions that an instance
     inherits from Object.prototype under a name that starts with two
     underscores; they read their arguments and write to none of them *)
  inherited_method : string -> heap -> val -> val -> result val
}.

(** *** The operators *)

Variant operator : Type :=
| Single | Multiple | Static | Object | Map | Substring | Length | Hash | Array
| Join | Split | Filter | HtmlTag | HtmlTags | HtmlTagText | HtmlTagsText
| HtmlAttribute | HtmlTable
| Inherited (name : string).

Definition operators : list (string * operator) :=
  [("single", Single); ("multiple", Multiple); ("static", Static); ("object", Object);
   ("map", Map); ("substring", Substring); ("length", Length); ("hash", Hash);
   ("array", Array); ("join", Join); ("split", Split); ("filter", Filter);
   ("htmlTag", HtmlTag); ("htmlTags", HtmlTags); ("htmlTagText", HtmlTagText);
   ("htmlTagsText", HtmlTagsText); ("htmlAttribute", HtmlAttribute);
   ("htmlTable", HtmlTable);
   ("_defineGetter__", Inherited "__defineGetter__");
   ("_defineSetter__", Inherited "__defineSetter__");
   ("_lookupGetter__", Inherited "__lookupGetter__");
   ("_lookupSetter__", Inherited "__lookupSetter__")].

(** The member [this['_' + key]] when it is a function: a method of the
    class, or one of the four functions of [Object.prototype] whose name
    starts with two underscores.  ([this._template] and [this.__proto__]
    are objects.) *)
Definition method_of (key : string) : option operator := assoc key operators.

Section Operators.
Variable ext : externals.

(** [new Transformation(template).transform(value)], for the operators
    that run nested chains. *)
Variable transform_rec : val -> val -> M val.

(** The match of [options] against "[$.] followed by word characters up
    to the end". *)
Definition simple_property (options : string) : option string :=
  match strip_prefix "$." options with
  | Some w =>
    match w with
    | EmptyString => None
    | _ => if string_forall is_word w then Some w else None
    end
  | None => None
  end.

Definition _single (value options : val) : M val :=
  match options with
  | VStr path =>
    match simple_property path with
    | Some property =>
      v <- get_prop value property ;;
      ret (match v with VUndefined => VNull | _ => v end)
    | None =>
      matches <- try_read (fun h => jsonpath_query ext h value path) ;;
      ret (match matches with v :: _ => v | [] => VNull end)
    end
  | _ => throw (Error ("Value of " ++ str1 dquote ++ "single" ++ str1 dquote
                       ++ " function must be a string"))
  end.

Definition _multiple (value options : val) : M val :=
  match options with
  | VStr path =>
    matches <- try_read (fun h => jsonpath_query ext h value path) ;;
    alloc (CArr matches)
  | _ => throw (Error ("Value of " ++ str1 dquote ++ "multiple" ++ str1 dquote
                       ++ " functions must be a string"))
  end.

Definition _static (value options : val) : M val := ret options.

(** A string stands for the template [{single: string}]. *)
Definition shorthand (template : val) : M val :=
  match template with
  | VStr _ => alloc (CObj [("single", template)])
  | _ => ret template
  end.

Definition _object (value options : val) : M val :=
  if String.eqb (typeof options) "object" then
    output <- alloc (CObj []) ;;
    keys <- object_keys options ;;
    _ <- for_each keys (fun key =>
           entry <- get_prop options key ;;
           template <- shorthand entry ;;
           v <- transform_rec template value ;;
           set_property output key v) ;;
    ret output
  else throw (Error ("Value of " ++ str1 dquote ++ "object" ++ str1 dquote
                     ++ " functions must be an object")).

Definition _map (value options : val) : M val :=
  items <- read (fun h => array_items h value) ;;
  match items with
  | Some items =>
    output <- alloc (CArr []) ;;
    _ <- for_each items (fun item =>
           template <- shorthand options ;;
           v <- transform_rec template item ;;
           push output v) ;;
    ret output
  | None => ret VNull
  end.

Definition number_or {A} (v : val) (d : A) (f : Z -> A) : A :=
  match v with VNum n => f n | _ => d end.

Definition _substring (value options : val) : M val :=
  match value with
  | VStr s =>
    start <- get_prop options "start" ;;
    len <- get_prop options "length" ;;
    let start := number_or start 0%Z id in
    let stop := number_or len None (fun n => Some (start + n)%Z) in
    ret (VStr (js_substring s start stop))
  | _ => throw (Error ("Cannot execute substring on " ++ typeof value))
  end.

Definition _length (value : val) : M val :=
  match value with
  | VStr s => ret (VNum (Z.of_nat (String.length s)))
  | _ =>
    items <- read (fun h => array_items h value) ;;
    match items with
    | Some items => ret (VNum (Z.of_nat (length items)))
    | None => throw (Error "Can only get length of arrays and strings")
    end
  end.

Definition default_prop (k : string) (d : val) (ps : list (string * val))
  : list (string * val) :=
  match assoc k ps with
  | None | Some VUndefined => set_prop k d ps
  | Some _ => ps
  end.

(** [_.defaults(options, {encoding: 'hex', algorithm: 'md5'})] followed by
    the reads of [options.algorithm] and [options.encoding].  The defaults
    are written into the options object itself.  Named properties of an
    array are not kept in its cell: the two names read as their defaults
    there. *)
Definition hash_options (options : val) : M (val * val) :=
  fun h =>
    match options with
    | VRef l =>
      match h !! l with
      | Some (CObj ps) =>
        let ps' := default_prop "algorithm" (VStr "md5")
                     (default_prop "encoding" (VStr "hex") ps) in
        (<[l := CObj ps']> h,
         Ok (default VUndefined (assoc "algorithm" ps'),
             default VUndefined (assoc "encoding" ps')))
      | _ => (h, Ok (VStr "md5", VStr "hex"))
      end
    | _ => (h, Ok (VStr "md5", VStr "hex"))
    end.

Definition _hash (value options : val) : M val :=
  data <- match value with VStr s => ret s | _ => json_stringify value end ;;
  settings <- hash_options options ;;
  try_read (fun _ => crypto_hash ext (fst settings) data (snd settings)).

Definition _array (value options : val) : M val :=
  items <- read (fun h => array_items h options) ;;
  match items with
  | Some items =>
    output <- alloc (CArr []) ;;
    _ <- for_each items (fun item =>
           template <- shorthand item ;;
           v <- transform_rec template value ;;
           push output v) ;;
    ret output
  | None => throw (Error "Options for array transformation must be an array")
  end.

Definition _join (value options : val) : M val :=
  items <- read (fun h => array_items h value) ;;
  match items with
  | Some items =>
    separator <- get_prop options "separator" ;;
    s <- js_join items (if truthy_val separator then separator else VStr EmptyString) ;;
    ret (VStr s)
  | None => throw (Error "Value for join transformation must be an array")
  end.

Definition _split (value options : val) : M val :=
  separator <- get_prop options "separator" ;;
  if negb (truthy_val separator)
  then throw (Error "Missing separator for split transformation")
  else
    match value with
    | VStr s =>
      sep <- js_to_string separator ;;
      alloc (CArr (map VStr (js_split sep s)))
    | _ => alloc (CArr [])
    end.

Definition _filter (value : val) : M val :=
  items <- read (fun h => array_items h value) ;;
  match items with
  | Some items => alloc (CArr (filter (fun item => truthy_val item = true) items))
  | None => throw (Error "Value for filter transformation must be an array")
  end.

Definition must_be_string (operator_name : string) : exn :=
  Error ("Value of " ++ str1 dquote ++ operator_name ++ str1 dquote
         ++ " functions must be a string").

Definition _htmlTag (value options : val) : M val :=
  match options with
  | VStr selector =>
    match value with
    | VStr html =>
      found <- try_read (fun _ => select ext selector html) ;;
      ret (match found with e :: _ => VStr (outer_html ext e) | [] => VNull end)
    | _ => ret VNull
    end
  | _ => throw (must_be_string "htmlTag")
  end.

Definition _htmlTags (value options : val) : M val :=
  match options with
  | VStr selector =>
    match value with
    | VStr html =>
      output <- alloc (CArr []) ;;
      found <- try_read (fun _ => select ext selector html) ;;
      _ <- for_each found (fun e => push output (VStr (outer_html ext e))) ;;
      ret output
    | _ => alloc (CArr [])
    end
  | _ => throw (must_be_string "htmlTags")
  end.

Definition _htmlTagText (value options : val) : M val :=
  match options with
  | VStr selector =>
    match value with
    | VStr html =>
      found <- try_read (fun _ => select ext selector html) ;;
      ret (match found with e :: _ => VStr (text_of ext (Some e)) | [] => VNull end)
    | _ => ret VNull
    end
  | _ => throw (must_be_string "htmlTagText")
  end.

Definition _htmlTagsText (value options : val) : M val :=
  match options with
  | VStr selector =>
    match value with
    | VStr html =>
      output <- alloc (CArr []) ;;
      found <- try_read (fun _ => select ext selector html) ;;
      _ <- for_each found (fun e => push output (VStr (text_of ext (Some e)))) ;;
      ret output
    | _ => alloc (CArr [])
    end
  | _ => throw (must_be_string "htmlTagsText")
  end.

Definition _htmlAttribute (value options : val) : M val :=
  match options with
  | VStr attribute =>
    match value with
    | VStr html =>
      found <- try_read (fun _ => html_attr ext html attribute) ;;
      ret (match found with Some a => VStr a | None => VNull end)
    | _ => ret VNull
    end
  | _ => throw (must_be_string "htmlAttribute")
  end.

(** The loop of [_htmlTable] over the rows. *)
Fixpoint table_rows (rows : list (elem ext)) (cell : Z) (text : string)
         (returnCell : val) : result val :=
  match rows with
  | [] => Ok VNull
  | row :: rest =>
    match select_in ext "td" row with
    | inl e => Throw e
    | inr cells =>
      if (cell <=? Z.of_nat (length cells))%Z
         && String.eqb (trim_lower (text_of ext (nth_Z cells cell))) (trim_lower text)
      then
        match returnCell with
        | VNum n =>
          match select_in ext "td" row with
          | inl e => Throw e
          | inr cells =>
            if (n <=? Z.of_nat (length cells))%Z
            then Ok (VStr (text_of ext (nth_Z cells n)))
            else Ok VNull
          end
        | _ => Ok (VStr (outer_html ext row))
        end
      else table_rows rest cell text returnCell
    end
  end.

Definition _htmlTable (value options : val) : M val :=
  let invalid :=
    Error ("Value of " ++ str1 dquote ++ "htmlTable" ++ str1 dquote
           ++ " functions must be an object with cell and text properties") in
  if String.eqb (typeof options) "object" then
    cell <- get_prop options "cell" ;;
    match cell with
    | VNum cell =>
      text <- get_prop options "text" ;;
      match text with
      | VStr text =>
        match value with
        | VStr html =>
          sel <- get_prop options "selector" ;;
          let selector :=
            match sel with
            | VStr s => s ++ ">tr " ++ s ++ ">tbody>tr"
            | _ => "tr"
            end in
          rows <- try_read (fun _ => select ext selector html) ;;
          returnCell <- get_prop options "returnCell" ;;
          try_read (fun _ => table_rows rows cell text returnCell)
        | _ => ret VNull
        end
      | _ => throw invalid
      end
    | _ => throw invalid
    end
  else throw invalid.

(** [this['_' + key](value, options)] *)
Definition call_operator (op : operator) (value options : val) : M val :=
  match op with
  | Single => _single value options
  | Multiple => _multiple value options
  | Static => _static value options
  | Object => _object value options
  | Map => _map value options
  | Substring => _substring value options
  | Length => _length value
  | Hash => _hash value options
  | Array => _array value options
  | Join => _join value options
  | Split => _split value options
  | Filter => _filter value
  | HtmlTag => _htmlTag value options
  | HtmlTags => _htmlTags value options
  | HtmlTagText => _htmlTagText value options
  | HtmlTagsText => _htmlTagsText value options
  | HtmlAttribute => _htmlAttribute value options
  | HtmlTable => _htmlTable value options
  | Inherited name => try_read (fun h => inherited_method ext name h value options)
  end.

(** The loop of [transform] over the keys of the template. *)
Fixpoint chain (template : val) (keys : list string) (output : val) : M val :=
  match keys with
  | [] => ret output
  | key :: rest =>
    match method_of key with
    | None => throw (Error ("Unknown function " ++ key))
    | Some op =>
      options <- get_prop template key ;;
      output' <- call_operator op output options ;;
      if nullish output' then ret VNull else chain template rest output'
    end
  end.

End Operators.

(** [new Transformation(template).transform(value)].  The fuel bounds the
    nesting of chains; a template that contains itself uses it up, as it
    uses up the call stack. *)
Fixpoint transform (ext : externals) (fuel : nat) (template value : val) : M val :=
  if nullish value then ret VNull
  else
    match fuel with
    | O => throw (RangeError "Maximum call stack size exceeded")
    | S n =>
      output <- cloneDeep value ;;
      keys <- object_keys template ;;
      chain ext (transform ext n) template keys output
    end.

(** *** Reachability *)

Definition cell_values (c : cell) : list val :=
  match c with
  | CObj ps => map snd ps
  | CArr xs => xs
  end.

(** [reach h v l]: the object at [l] is [v] or a part of [v]. *)
Inductive reach (h : heap) : val -> loc -> Prop :=
| reach_here l : reach h (VRef l) l
| reach_step l c l' l'' :
    h !! l = Some c -> In (VRef l') (cell_values c) ->
    reach h (VRef l') l'' -> reach h (VRef l) l''.

(** Everything [v] consists of is in the heap. *)
Definition allocated (h : heap) (v : val) : Prop :=
  forall l, reach h v l -> l < length h.

(** [v] and [w] have no object in common. *)
Definition separate (h : heap) (v w : val) : Prop :=
  forall l, reach h v l -> ~ reach h w l.

(** [c'] refers to no object that [c] does not refer to. *)
Definition no_new_references (c c' : cell) : Prop :=
  forall l, In (VRef l) (cell_values c') -> In (VRef l) (cell_values c).

(** What a chain with template [t], started in the heap [h], may have
    made of [h]: every cell of [h] is still there, refers to nothing
    new, and is unchanged unless it belongs to the template. *)
Definition frame (t : val) (h h' : heap) : Prop :=
  length h <= length h' /\
  forall l c, h !! l = Some c ->
    exists c', h' !! l = Some c' /\ no_new_references c c'
               /\ (~ reach h t l -> c' = c).

(** [spec h t m Q]: run in a heap that frames [h], the computation [m]
    ends, normally or not, in a heap that frames [h], and a result
    satisfies [Q]. *)
Definition spec (h : heap) (t : val) {A} (m : M A) (Q : A -> Prop) : Prop :=
  forall hc hc' r, frame t h hc -> m hc = (hc', r) ->
    frame t h hc' /\ match r with inr a => Q a | inl _ => True end.

(** [x] is no object, or an object of the template [t] as it was in
    [h]. *)
Definition of_template (h : heap) (t x : val) : Prop :=
  match x with
  | VRef o => reach h t o
  | _ => True
  end.

(** No cell refers to what is not in the heap. *)
Definition closed (h : heap) : Prop :=
  forall l c l', h !! l = Some c -> In (VRef l') (cell_values c) -> l' < length h.

Definition in_heap (h : heap) (v : val) : Prop :=
  match v with VRef l => l < length h | _ => True end.

Definition not_copied (m : memo) (l : loc) : bool :=
  match memo_find l m with None => true | Some _ => false end.

(** The number of objects of [h] that have no copy in [m] yet. *)
Definition unvisited (h : heap) (m : memo) : nat :=
  length (List.filter (not_copied m) (seq 0 (length h))).

(** [region] holds every object that its own objects refer to. *)
Definition closed_region (h : heap) (region : list loc) : bool :=
  forallb (fun l =>
             match h !! l with
             | Some c =>
               forallb (fun v => match v with
                                 | VRef l' => existsb (Nat.eqb l') region
                                 | _ => true
                                 end) (cell_values c)
             | None => false
             end) region.

(** [v] is no object or an object of [region]. *)
Definition rooted (region : list loc) (v : val) : bool :=
  match v with
  | VRef l => existsb (Nat.eqb l) region
  | _ => true
  end.

Definition disjoint_regions (a b : list loc) : bool :=
  forallb (fun l => negb (existsb (Nat.eqb l) b)) a.

(** [hc'] is [hc] with cells added. *)
Definition extends (hc hc' : heap) : Prop :=
  length hc <= length hc' /\ forall l, l < length hc -> hc' !! l = hc !! l.

(** [x] is a template made up for a string after the heap [h]. *)
Definition made_up (h hc : heap) (x : val) : Prop :=
  exists o s, x = VRef o /\ length h <= o
              /\ hc !! o = Some (CObj [("single", VStr s)]).

End Transformation.

(* ================================================================== *)
(** ** Reference definitions and sample data *)

Module Reference.

(** Positional binding as the specification words it: the i-th [?] of
    the query is replaced by the JSON text of the i-th argument. *)
Fixpoint bind_positional (q : string) (args : list json) : string :=
  match q with
  | EmptyString => EmptyString
  | String c q' =>
    if Ascii.eqb c "?" then
      match args with
      | a :: rest => stringify_text a ++ bind_positional q' rest
      | [] => String c (bind_positional q' [])
      end
    else String c (bind_positional q' args)
  end.

(** A text without the character [c]. *)
Definition no_char (c : ascii) (s : string) : bool :=
  string_forall (fun x => negb (Ascii.eqb x c)) s.

(** An argument whose JSON text holds neither [?] nor [$]. *)
Definition plain_argument (a : json) : Prop :=
  no_char "?" (stringify_text a) = true /\ no_char "$" (stringify_text a) = true.

End Reference.


(** Sample collaborators and inputs, used to run the definitions. *)
Module Samples.

Definition listPost : Query.method :=
  {| Query.name := "listPost";
     Query.params := [("title", JStr "x")];
     Query.fieldNames := ["id"];
     Query.fields := JObj [] |}.

Definition readPost : Query.method :=
  {| Query.name := "Post";
     Query.params := [("id", JNum 3); ("title", JStr "x")];
     Query.fieldNames := ["id"];
     Query.fields := JObj [] |}.

Definition post_model : Query.model :=
  {| Query.model_name := "Post";
     Query.model_functions := ["list"; "executeList"; "read"; "executeRead"] |}.

(** Models and a context that answers every access check with [answer]. *)
Definition query_handler (answer : json) (R : Type) (c : Query.call R) : R :=
  match c in Query.call T return T with
  | Query.ModelsHas _ => Ok true
  | Query.ModelsGet _ => Ok post_model
  | Query.GetUser => JObj [("id", JNum 7)]
  | Query.Access _ _ _ _ => Ok answer
  | Query.Execute _ _ _ _ => Ok (JArr [])
  end.

Definition someone : context := {| user := Some (JObj [("id", JNum 7)]) |}.

Definition auth_options : Authentication.options :=
  {| Authentication.userFields := ["id"; "admin"];
     Authentication.userModel := "User";
     Authentication.usernameField := "mail";
     Authentication.passwordField := "password";
     Authentication.admins := [("admin", JStr "hash:secret")] |}.

(** A decoder that knows one credential, [admin:secret], and a verifier
    for encoded passwords of the form [hash:plaintext]. *)
Definition auth_externals : Authentication.externals :=
  {| Authentication.base64_decode :=
       fun s => if String.eqb s "YWRtaW46c2VjcmV0" then "admin:secret" else EmptyString;
     Authentication.isValid :=
       fun encoded plain =>
         match encoded, plain with
         | JStr e, JStr p => Ok (String.eqb e ("hash:" ++ p))
         | JStr _, _ => Ok false
         | _, _ => Throw (TypeError "Cannot read property split of undefined")
         end |}.

(** A storage that knows one user and the tokens in [tokens], and a
    random source that answers with [bytes]. *)
Definition auth_handler (tokens : list json) (bytes : list byte)
           (R : Type) (c : Authentication.call R) : R :=
  match c in Authentication.call T return T with
  | Authentication.StorageQuery q _ =>
    if String.eqb q Authentication.create_token_query then Ok (JObj [])
    else Ok (JObj [("token", JArr tokens);
                   ("user", JArr [JObj [("id", JNum 7); ("password", JStr "hash:Welcome!")]])])
  | Authentication.RandomBytes _ => bytes
  end.

Definition token_request : json :=
  JObj [("grant_type", JStr "password"); ("username", JStr "alice@example.com");
        ("password", JStr "Welcome!")].

(** Libraries that find nothing and a digest that shows its input. *)
Definition libraries : Transformation.externals :=
  {| Transformation.jsonpath_query := fun _ _ _ => Ok [];
     Transformation.crypto_hash :=
       fun _ data _ => Ok (Transformation.VStr ("digest of " ++ data));
     Transformation.elem := unit;
     Transformation.select := fun _ _ => Ok [];
     Transformation.select_in := fun _ _ => Ok [];
     Transformation.outer_html := fun _ => EmptyString;
     Transformation.text_of := fun _ => EmptyString;
     Transformation.html_attr := fun _ _ => Ok None;
     Transformation.inherited_method :=
       fun name _ _ _ =>
         if String.eqb name "__lookupGetter__" || String.eqb name "__lookupSetter__"
         then Ok Transformation.VUndefined
         else Throw (TypeError (name ++ ": Expecting function")) |}.

(** The chain of the test "bails when missing output in chain", applied
    to the empty object: cell 0 is the input, cell 2 the template. *)
Definition bail_heap : list Transformation.cell :=
  [Transformation.CObj [];
   Transformation.CObj [("algorithm", Transformation.VStr "md5");
                        ("encoding", Transformation.VStr "hex")];
   Transformation.CObj [("single", Transformation.VStr "$.unknown");
                        ("hash", Transformation.VRef 1)]].




(** The template [{split: {separator: ',', maxItems: 2, addRemainder:
    true}}] in cell 1, its options in cell 0. *)
Definition split_heap : list Transformation.cell :=
  [Transformation.CObj [("separator", Transformation.VStr ",");
                        ("maxItems", Transformation.VNum 2);
                        ("addRemainder", Transformation.VBool true)];
   Transformation.CObj [("split", Transformation.VRef 0)]].

(** The template [{hash: o}] in cell 1, where [o] is the empty object in
    cell 0. *)
Definition alias_heap : list Transformation.cell :=
  [Transformation.CObj [];
   Transformation.CObj [("hash", Transformation.VRef 0)]].

(** Writing a tree into the heap, and a chain run on two trees: the
    template and the input are put into an empty heap apart from each
    other, and the result is read back as a tree. *)
Fixpoint load (j : json) (h : list Transformation.cell)
  : list Transformation.cell * Transformation.val :=
  match j with
  | JUndefined => (h, Transformation.VUndefined)
  | JNull => (h, Transformation.VNull)
  | JBool b => (h, Transformation.VBool b)
  | JNum n => (h, Transformation.VNum n)
  | JStr s => (h, Transformation.VStr s)
  | JArr xs =>
    let '(h1, vs) :=
      (fix go (xs : list json) (h : list Transformation.cell) :=
         match xs with
         | [] => (h, [])
         | x :: rest =>
           let '(h1, v) := load x h in
           let '(h2, vs) := go rest h1 in
           (h2, v :: vs)
         end) xs h in
    ((h1 ++ [Transformation.CArr vs])%list, Transformation.VRef (length h1))
  | JObj ps =>
    let '(h1, vs) :=
      (fix go (ps : list (string * json)) (h : list Transformation.cell) :=
         match ps with
         | [] => (h, [])
         | (k, x) :: rest =>
           let '(h1, v) := load x h in
           let '(h2, vs) := go rest h1 in
           (h2, (k, v) :: vs)
         end) ps h in
    ((h1 ++ [Transformation.CObj vs])%list, Transformation.VRef (length h1))
  end.

Definition evaluate (template value : json) : result (option json) :=
  let '(h1, t) := load template [] in
  let '(h2, v) := load value h1 in
  match Transformation.transform libraries 16 t v h2 with
  | (h', inr r) => Ok (Transformation.reify (S (length h')) h' r)
  | (_, inl e) => Throw e
  end.

End Samples.

(* ================================================================== *)
(** ** Query: the calls of a run, and field permissions *)

Module QueryFields.
Import Query.
Local Open Scope prog_scope.

(** What a call of a run is. *)
Definition execute_call (e : {R & call R})
  : option (model * string * json * list string) :=
  match projT2 e with
  | Execute m f p fs => Some (m, f, p, fs)
  | _ => None
  end.

Definition access_call (e : {R & call R}) : option (model * string * json * json) :=
  match projT2 e with
  | Access m operation data field => Some (m, operation, data, field)
  | _ => None
  end.

Definition uses_context (e : {R & call R}) : bool :=
  match projT2 e with
  | GetUser | Access _ _ _ _ => true
  | _ => false
  end.

(** One entry [[{field, message}]] of the errors of
    [checkFieldPermissions]. *)
Definition field_error : Type := list (string * string).

(** How [checkFieldPermissions] ends when no call is rejected. *)
Variant outcome : Type :=
| ContextFree                     (* without context: the value [true] *)
| Granted                         (* the promise resolves *)
| Denied (errors : list field_error). (* [throw new QueryError(errors)] *)

(** The reducer, run over [fields] with the accumulator [access]. *)
Fixpoint reduce_fields (md : model) (operation : string) (id : json)
         (fields : list string) (access : json) (errors : list field_error)
  : prog call (json * list field_error) :=
  match fields with
  | [] => Ret (access, errors)
  | field :: rest =>
    fieldAccess <- await (Access md operation (JObj [("id", id)]) (JStr field)) ;;
    if truthy fieldAccess
    then reduce_fields md operation id rest access errors
    else reduce_fields md operation id rest (JBool false)
                       (errors ++ [[(field, "permission denied")]])%list
  end.

(** [Promise.reduce] is called without initial value: the first field
    name is the accumulator the reduction starts with, and the reducer
    runs on the fields after it; of no fields the result is
    [undefined]. *)
Definition checkFieldPermissions (context : option context) (md : model) (id : json)
           (fieldNames : list string) (operation : string) : prog call outcome :=
  match context with
  | None => Ret ContextFree
  | Some _ =>
    reduced <-
      match fieldNames with
      | [] => Ret (JUndefined, [])
      | first :: rest => reduce_fields md operation id rest (JStr first) []
      end ;;
    if truthy (fst reduced) then Ret Granted else Ret (Denied (snd reduced))
  end.

(** The call that asks for the access to one field. *)
Definition check_of (md : model) (operation : string) (id : json) (field : string)
  : {R & call R} :=
  existT _ (Access md operation (JObj [("id", id)]) (JStr field)).

End QueryFields.

(** More sample data. *)
Module MoreSamples.

Definition deletePost : Query.method :=
  {| Query.name := "deletePost";
     Query.params := [("id", JNum 3)];
     Query.fieldNames := ["id"];
     Query.fields := JObj [] |}.

Definition currentUser : Query.method :=
  {| Query.name := "User";
     Query.params := [];
     Query.fieldNames := ["id"; "name"];
     Query.fields := JObj [] |}.

Definition full_model : Query.model :=
  {| Query.model_name := "Post";
     Query.model_functions :=
       ["list"; "executeList"; "read"; "executeRead"; "remove"; "executeRemove"] |}.

Definition read_only_model : Query.model :=
  {| Query.model_name := "Post";
     Query.model_functions := ["read"; "executeRead"] |}.

(** Models that know every entity ([known]) as [md], and a context that
    answers field checks with [field_answer] and entity checks with
    [true]. *)
Definition handler (known : bool) (md : Query.model) (field_answer : string -> json)
           (R : Type) (c : Query.call R) : R :=
  match c in Query.call T return T with
  | Query.ModelsHas _ => Ok known
  | Query.ModelsGet _ => Ok md
  | Query.GetUser => JObj [("id", JNum 7)]
  | Query.Access _ _ _ (JStr field) => Ok (field_answer field)
  | Query.Access _ _ _ _ => Ok (JBool true)
  | Query.Execute _ _ _ _ => Ok (JArr [])
  end.

Definition all_but_secret (field : string) : json :=
  JBool (negb (String.eqb field "secret")).

End MoreSamples.

(* ================================================================== *)
(** ** The body of [POST /token] *)

Module TokenRequest.
Import Authentication.

(** The schema of [tokenValidator], keyword by keyword.  A property that
    is absent reads as [undefined]; [required] refuses it, [type] and
    [enum] only look at a property that is there.  The body itself is not
    required: a body that is undefined is not looked at. *)
Definition required (ps : list (string * json)) (key : string) : bool :=
  match default JUndefined (assoc key ps) with
  | JUndefined => false
  | _ => true
  end.

Definition type_string (ps : list (string * json)) (key : string) : bool :=
  match default JUndefined (assoc key ps) with
  | JUndefined | JStr _ => true
  | _ => false
  end.

Definition enum (ps : list (string * json)) (key : string) (allowed : list string) : bool :=
  match default JUndefined (assoc key ps) with
  | JUndefined => true
  | v => existsb (is_string v) allowed
  end.

Definition tokenValidator (request_body : json) : bool :=
  match request_body with
  | JUndefined => true
  | JObj ps => (* type: 'object' *)
    forallb (required ps) ["grant_type"; "username"; "password"]
    && type_string ps "grant_type" && enum ps "grant_type" ["password"]
    && type_string ps "username"
    && type_string ps "password"
  | _ => false
  end.

(** The calls that make a token: the random bytes and the
    [createAuthnToken] query. *)
Definition mints (e : {R & call R}) : bool :=
  match projT2 e with
  | RandomBytes _ => true
  | StorageQuery query _ => String.eqb query create_token_query
  end.

End TokenRequest.

Module AuthSamples.

Definition wrong_request : json :=
  JObj [("grant_type", JStr "password"); ("username", JStr "alice@example.com");
        ("password", JStr "Guess")].

Definition token_row : json := JObj [("user", JObj [("id", JNum 7); ("admin", JBool false)])].

End AuthSamples.

Module TransformSamples.
Import Transformation.

(** The template [{split: o, join: o}] in cell 1, where [o] is the
    object [{separator: ', '}] in cell 0. *)
Definition round_trip_heap : heap :=
  [CObj [("separator", VStr ", ")];
   CObj [("split", VRef 0); ("join", VRef 0)]].

(** The options [{start: 2, length: 3}]. *)
Definition substring_heap : heap :=
  [CObj [("start", VNum 2); ("length", VNum 3)]].

(** The options [{algorithm: 'sha1'}]. *)
Definition hash_heap : heap := [CObj [("algorithm", VStr "sha1")]].

(** The array [[{a: 1}, null, 'text']] in cell 1 and the template
    [{single: '$.a'}] in cell 2. *)
Definition map_heap : heap :=
  [CObj [("a", VNum 1)];
   CArr [VRef 0; VNull; VStr "text"];
   CObj [("single", VStr "$.a")]].

(** The options [['$.a', {static: 1}]] of [array] in cell 1; the value
    [{a: 1}] in cell 2. *)
Definition array_heap : heap :=
  [CObj [("static", VNum 1)];
   CArr [VStr "$.a"; VRef 0];
   CObj [("a", VNum 1)]].

End TransformSamples.

Module HashSettings.
Import Transformation.

(** What [options[k]] is after the defaults: the setting that was
    given, or the default. *)
Definition setting (k : string) (d : val) (ps : list (string * val)) : val :=
  match assoc k ps with
  | None | Some VUndefined => d
  | Some v => v
  end.

End HashSettings.

Module ObjectSamples.
Import Transformation.


End ObjectSamples.

Module EdgeSamples.
Import Transformation.

(** A decoder that knows the credentials [admin:secret] and
    [admin:secret:more]. *)
Definition colon_externals : Authentication.externals :=
  {| Authentication.base64_decode :=
       fun s => if String.eqb s "YWRtaW46c2VjcmV0" then "admin:secret"
                else if String.eqb s "YWRtaW46c2VjcmV0Om1vcmU=" then "admin:secret:more"
                else EmptyString;
     Authentication.isValid := Authentication.isValid Samples.auth_externals |}.

(** The template [{static: o}] in cell 1, where [o] is the object
    [{a: 1}] in cell 0. *)
Definition static_heap : heap :=
  [CObj [("a", VNum 1)];
   CObj [("static", VRef 0)]].

End EdgeSamples.

(* ================================================================== *)
(** ** Copies *)

Module DeepCopy.
Import Transformation.

(** The copy that the memo [m] knows of a value. *)
Definition img (m : memo) (v : val) : val :=
  match v with
  | VRef l => match memo_find l m with Some l' => VRef l' | None => v end
  | _ => v
  end.

(** [v] is no object, or an object that [m] knows a copy of. *)
Definition known (m : memo) (v : val) : Prop :=
  match v with
  | VRef l => memo_find l m <> None
  | _ => True
  end.

Definition copy_cell (m : memo) (c : cell) : cell :=
  match c with
  | CObj ps => CObj (zip (map fst ps) (map (img m) (map snd ps)))
  | CArr xs => CArr (map (img m) xs)
  end.

(** The object at [b] in [h] is the finished copy of the object at [a]
    in [h0]. *)
Definition copy_of (h0 : heap) (m : memo) (h : heap) (a b : loc) : Prop :=
  exists c, h0 !! a = Some c
            /\ Forall (known m) (cell_values c)
            /\ h !! b = Some (copy_cell m c).

(** The memo pairs objects of [h0] with objects made after [h0]. *)
Definition memo_ok (h0 : heap) (m : memo) (h : heap) : Prop :=
  forall a b, memo_find a m = Some b -> a < length h0 /\ length h0 <= b < length h.

(** What a finished [clone], or [clone_list], started with [m] and [h],
    has done: the pairs it added to the memo are finished copies, made
    after [h]. *)
Definition copied (h0 : heap) (m : memo) (h : heap) (m' : memo) (h' : heap) : Prop :=
  memo_ok h0 m' h'
  /\ forall a b, memo_find a m' = Some b -> memo_find a m = None ->
                 length h <= b /\ copy_of h0 m' h' a b.

(** The value [{a: 1, b: ['x']}] in cell 0 and the empty template in
    cell 2. *)
Definition copy_heap : heap :=
  [CObj [("a", VNum 1); ("b", VRef 1)];
   CArr [VStr "x"];
   CObj []].

End DeepCopy.

(* ================================================================== *)
(** * Properties *)

(** ** Strings *)

Lemma string_app_assoc (a b c : string) : (a ++ b) ++ c = a ++ (b ++ c).
Proof. induction a as [|x a IH]; simpl; [reflexivity | now rewrite IH]. Qed.

Lemma string_app_nil_r (a : string) : a ++ EmptyString = a.
Proof. induction a as [|x a IH]; simpl; [reflexivity | now rewrite IH]. Qed.

Lemma strip_prefix_sound p s rest : strip_prefix p s = Some rest -> s = p ++ rest.
Proof.
  revert s; induction p as [|a p IH]; intros s H; simpl in *.
  - now inversion H.
  - destruct s as [|b s]; [discriminate|].
    destruct (Ascii.eqb_spec a b) as [->|]; [|discriminate].
    simpl. f_equal. now apply IH.
Qed.


(** What [str_find] returns splits the text around the pattern. *)
Lemma str_find_sound pat s before after :
  str_find pat s = Some (before, after) -> s = before ++ pat ++ after.
Proof.
  revert before; induction s as [|c s IH]; intros before H; simpl in H.
  - destruct (strip_prefix pat EmptyString) eqn:E; [|discriminate].
    inversion H; subst. simpl. now apply strip_prefix_sound.
  - destruct (strip_prefix pat (String c s)) eqn:E.
    + inversion H; subst. simpl. now apply strip_prefix_sound.
    + destruct (str_find pat s) as [[b a]|] eqn:F; [|discriminate].
      inversion H; subst. simpl. f_equal. now apply IH.
Qed.

Section SingleCharacter.
Import Reference.
Variable c : ascii.

Lemma str_find_absent s : no_char c s = true -> str_find (str1 c) s = None.
Proof.
  induction s as [|x s IH]; simpl; [reflexivity|].
  intros H. apply andb_prop in H as [Hx Hs].
  rewrite Ascii.eqb_sym in Hx.
  destruct (Ascii.eqb c x); [discriminate|].
  now rewrite (IH Hs).
Qed.

Lemma str_find_first a b :
  no_char c a = true -> str_find (str1 c) (a ++ String c b) = Some (a, b).
Proof.
  induction a as [|x a IH]; simpl.
  - intros _. now rewrite Ascii.eqb_refl.
  - intros H. apply andb_prop in H as [Hx Ha].
    rewrite Ascii.eqb_sym in Hx.
    destruct (Ascii.eqb c x); [discriminate|].
    now rewrite (IH Ha).
Qed.

(** A text either lacks [c] or splits at its first [c]. *)
Lemma first_occurrence s :
  no_char c s = true \/
  exists a b, s = a ++ String c b /\ no_char c a = true.
Proof.
  induction s as [|x s IH]; [now left|].
  destruct (Ascii.eqb_spec x c) as [->|Hne].
  - right. exists EmptyString, s. now split.
  - destruct IH as [H|(a & b & -> & Ha)].
    + left. unfold no_char in *. simpl. rewrite H.
      destruct (Ascii.eqb_spec x c); [contradiction | reflexivity].
    + right. exists (String x a), b. split; [reflexivity|].
      unfold no_char in *. simpl. rewrite Ha.
      destruct (Ascii.eqb_spec x c); [contradiction | reflexivity].
Qed.

End SingleCharacter.

Lemma get_substitution_plain m b a r :
  Reference.no_char "$" r = true -> get_substitution m b a r = r.
Proof.
  induction r as [|x r IH]; simpl; [reflexivity|].
  intros H. apply andb_prop in H as [Hx Hr].
  destruct (Ascii.eqb x "$"); [discriminate|].
  now rewrite (IH Hr).
Qed.

Lemma string_length_app (a b : string) :
  String.length (a ++ b) = String.length a + String.length b.
Proof. induction a as [|x a IH]; simpl; [reflexivity | now rewrite IH]. Qed.

Lemma strip_prefix_extend p s r t :
  strip_prefix p s = Some r -> strip_prefix p (s ++ t) = Some (r ++ t).
Proof.
  revert s; induction p as [|a p IH]; intros s H; simpl in *.
  - now inversion H.
  - destruct s as [|b s]; [discriminate|]. simpl.
    destruct (Ascii.eqb a b); [now apply IH | discriminate].
Qed.

Lemma strip_prefix_empty p : p <> EmptyString -> strip_prefix p EmptyString = None.
Proof. destruct p; [contradiction | reflexivity]. Qed.

(** The text before the first occurrence holds no occurrence. *)
Lemma str_find_before pat s : pat <> EmptyString -> forall before after,
  str_find pat s = Some (before, after) -> str_find pat before = None.
Proof.
  intros Hpat. induction s as [|c s IH]; intros before after H; simpl in H.
  - rewrite strip_prefix_empty in H by assumption. discriminate.
  - destruct (strip_prefix pat (String c s)) as [rest|] eqn:E.
    + inversion H; subst. simpl. now rewrite strip_prefix_empty.
    + destruct (str_find pat s) as [[b a]|] eqn:F; [|discriminate].
      inversion H; subst. simpl.
      destruct (strip_prefix pat (String c b)) as [r|] eqn:G.
      * apply (strip_prefix_extend _ _ _ (pat ++ after)) in G.
        apply str_find_sound in F. subst s. simpl in G. congruence.
      * now rewrite (IH _ _ eq_refl).
Qed.

Section Split.
Variable sep : string.

Lemma split_fuel_nonempty fuel s : split_fuel fuel sep s <> [].
Proof. destruct fuel; simpl; [|destruct (str_find sep s) as [[b a]|]]; discriminate. Qed.

(** Joined by the separator, the pieces give the text back. *)
Lemma split_fuel_join fuel : forall s, join_with sep (split_fuel fuel sep s) = s.
Proof.
  induction fuel as [|fuel IH]; intros s; simpl; [reflexivity|].
  destruct (str_find sep s) as [[b a]|] eqn:F; [|reflexivity].
  pose proof (split_fuel_nonempty fuel a) as Hne.
  specialize (IH a). apply str_find_sound in F. subst s.
  destruct (split_fuel fuel sep a) as [|x rest]; [contradiction|].
  change (join_with sep (b :: x :: rest)) with (b ++ sep ++ join_with sep (x :: rest)).
  now rewrite IH.
Qed.

(** No piece holds the separator. *)
Lemma split_fuel_pieces fuel : sep <> EmptyString -> forall s,
  String.length s <= fuel ->
  Forall (fun piece => str_find sep piece = None) (split_fuel fuel sep s).
Proof.
  intros Hsep. induction fuel as [|fuel IH]; intros s Hlen; simpl.
  - destruct s; [|simpl in Hlen; lia].
    constructor; [|constructor]. simpl. now rewrite strip_prefix_empty.
  - destruct (str_find sep s) as [[b a]|] eqn:F.
    + constructor; [now apply (str_find_before sep s Hsep b a)|].
      apply IH. apply str_find_sound in F. subst s.
      rewrite !string_length_app in Hlen.
      destruct sep; [contradiction|]. simpl in Hlen. lia.
    + constructor; [assumption | constructor].
Qed.

Lemma js_split_nonempty s :
  sep <> EmptyString -> js_split sep s = split_fuel (String.length s) sep s.
Proof. unfold js_split. destruct sep; [contradiction | reflexivity]. Qed.

End Split.

(** ** The tests of the repository, run on the embedding *)

Module Tests.
Import Samples.

(** test/transformation.js *)

Example can_execute_empty_transformation :
  evaluate (JObj []) (JObj []) = Ok (Some (JObj [])).
Proof. reflexivity. Qed.

Example will_return_null_when_input_is_null :
  evaluate (JObj []) JNull = Ok (Some JNull)
  /\ evaluate (JObj []) JUndefined = Ok (Some JNull).
Proof. split; reflexivity. Qed.

Example will_fail_on_unknown_operator :
  evaluate (JObj [("unknownOp", JObj [])]) (JObj [])
  = Throw (Error "Unknown function unknownOp").
Proof. reflexivity. Qed.

Example bails_when_missing_output_in_chain :
  evaluate (JObj [("single", JStr "$.unknown");
                  ("hash", JObj [("algorithm", JStr "md5"); ("encoding", JStr "hex")])])
           (JObj [])
  = Ok (Some JNull).
Proof. reflexivity. Qed.

Example can_return_single_item :
  evaluate (JObj [("single", JStr "$.data")]) (JObj [("data", JObj [("foo", JStr "bar")])])
  = Ok (Some (JObj [("foo", JStr "bar")])).
Proof. reflexivity. Qed.

Example can_generate_static_value :
  evaluate (JObj [("static", JObj [("foo", JStr "bar")])])
           (JObj [("data", JObj [("foo", JStr "bar")])])
  = Ok (Some (JObj [("foo", JStr "bar")])).
Proof. reflexivity. Qed.

Example can_transform_objects :
  evaluate (JObj [("object", JObj [("baz", JStr "$.foo")])]) (JObj [("foo", JStr "bar")])
  = Ok (Some (JObj [("baz", JStr "bar")])).
Proof. reflexivity. Qed.

Example can_transform_nested_objects :
  evaluate (JObj [("object",
                   JObj [("foo", JObj [("single", JStr "$.foo");
                                       ("object", JObj [("bar", JStr "$.baz")])])])])
           (JObj [("foo", JObj [("baz", JStr "test")])])
  = Ok (Some (JObj [("foo", JObj [("bar", JStr "test")])])).
Proof. reflexivity. Qed.

Example can_map_arrays :
  evaluate (JObj [("map", JObj [("object", JObj [("baz", JStr "$.foo")])])])
           (JArr [JObj [("foo", JStr "qux")]; JObj [("foo", JStr "quux")]])
  = Ok (Some (JArr [JObj [("baz", JStr "qux")]; JObj [("baz", JStr "quux")]])).
Proof. reflexivity. Qed.

Example allows_using_a_string_as_option_in_map :
  evaluate (JObj [("map", JStr "$.foo")])
           (JArr [JObj [("foo", JStr "qux")]; JObj [("foo", JStr "quux")]])
  = Ok (Some (JArr [JStr "qux"; JStr "quux"])).
Proof. reflexivity. Qed.

Example will_return_null_on_map_when_value_is_not_an_array :
  evaluate (JObj [("map", JObj [])]) (JObj []) = Ok (Some JNull).
Proof. reflexivity. Qed.

Example can_get_substring :
  evaluate (JObj [("substring", JObj [("start", JNum 1); ("length", JNum 5)])])
           (JStr "Lorem ipsum") = Ok (Some (JStr "orem "))
  /\ evaluate (JObj [("substring", JObj [("start", JNum 1)])]) (JStr "Lorem ipsum")
     = Ok (Some (JStr "orem ipsum"))
  /\ evaluate (JObj [("substring", JObj [("length", JNum 5)])]) (JStr "Lorem ipsum")
     = Ok (Some (JStr "Lorem"))
  /\ evaluate (JObj [("substring", JObj [])]) (JObj [])
     = Throw (Error "Cannot execute substring on object").
Proof. repeat split. Qed.

Example can_get_length :
  evaluate (JObj [("length", JObj [])]) (JArr [JNum 1; JNum 2; JNum 3]) = Ok (Some (JNum 3))
  /\ evaluate (JObj [("length", JObj [])]) (JStr "test") = Ok (Some (JNum 4))
  /\ evaluate (JObj [("length", JObj [])]) (JObj [])
     = Throw (Error "Can only get length of arrays and strings").
Proof. repeat split. Qed.

Example will_convert_input_to_JSON_before_hashing :
  evaluate (JObj [("hash", JObj [])]) (JObj [("foo", JStr "bar")])
  = Ok (Some (JStr ("digest of {" ++ quote "foo" ++ ":" ++ quote "bar" ++ "}"))).
Proof. reflexivity. Qed.

Example can_create_new_array :
  evaluate (JObj [("array", JArr [JObj [("single", JStr "$.foo")];
                                  JObj [("single", JStr "$.bar")]])])
           (JObj [("foo", JStr "Foo"); ("bar", JStr "Bar")])
  = Ok (Some (JArr [JStr "Foo"; JStr "Bar"]))
  /\ evaluate (JObj [("array", JArr [JStr "$.foo"; JStr "$.bar"])])
              (JObj [("foo", JStr "Foo"); ("bar", JStr "Bar")])
     = Ok (Some (JArr [JStr "Foo"; JStr "Bar"]))
  /\ evaluate (JObj [("array", JObj [])]) (JObj [])
     = Throw (Error "Options for array transformation must be an array").
Proof. repeat split. Qed.

Example can_join_array :
  evaluate (JObj [("join", JObj [])]) (JArr [JStr "foo"; JStr "bar"])
  = Ok (Some (JStr "foobar"))
  /\ evaluate (JObj [("join", JObj [("separator", JStr " ")])]) (JArr [JStr "foo"; JStr "bar"])
     = Ok (Some (JStr "foo bar"))
  /\ evaluate (JObj [("join", JObj [])]) (JObj [])
     = Throw (Error "Value for join transformation must be an array").
Proof. repeat split. Qed.

Example can_split_string_to_array :
  evaluate (JObj [("split", JObj [("separator", JStr " ")])]) (JStr "foo bar")
  = Ok (Some (JArr [JStr "foo"; JStr "bar"]))
  /\ evaluate (JObj [("split", JObj [("separator", JStr " ")])]) (JBool false)
     = Ok (Some (JArr []))
  /\ evaluate (JObj [("split", JObj [])]) (JObj [])
     = Throw (Error "Missing separator for split transformation").
Proof. repeat split. Qed.

Example can_filter_empty_items_from_array :
  evaluate (JObj [("filter", JObj [])])
           (JArr [JStr "foo"; JStr EmptyString; JStr "bar"; JStr EmptyString])
  = Ok (Some (JArr [JStr "foo"; JStr "bar"]))
  /\ evaluate (JObj [("filter", JObj [])]) (JObj [])
     = Throw (Error "Value for filter transformation must be an array").
Proof. repeat split. Qed.

(** A copy of an object that contains itself contains itself. *)
Example cloneDeep_circular :
  Transformation.cloneDeep (Transformation.VRef 0)
    [Transformation.CObj [("a", Transformation.VRef 1)];
     Transformation.CArr [Transformation.VNum 1; Transformation.VRef 0]]
  = ([Transformation.CObj [("a", Transformation.VRef 1)];
      Transformation.CArr [Transformation.VNum 1; Transformation.VRef 0];
      Transformation.CObj [("a", Transformation.VRef 3)];
      Transformation.CArr [Transformation.VNum 1; Transformation.VRef 2]],
     Ok (Transformation.VRef 2)).
Proof. reflexivity. Qed.

(** Method names of classes/Query.js *)

Example method_names :
  Query.match_method_name "listUser" = Some (Some "list", "User")
  /\ Query.match_method_name "User" = Some (None, "User")
  /\ Query.match_method_name "user" = None
  /\ Query.operation_of (Some "delete") = "remove"
  /\ Query.operation_of None = "read"
  /\ Query.capitalize "remove" = "Remove".
Proof. repeat split. Qed.

(** test/authentication.js *)

Example can_create_User_as_admin :
  run (auth_handler [] [])
      (Authentication.authenticate auth_options auth_externals
         (Some "Basic YWRtaW46c2VjcmV0"))
  = Ok None.
Proof. reflexivity. Qed.

Example will_not_provide_an_access_token_with_invalid_password :
  run (auth_handler [] [])
      (Authentication.process_token auth_options auth_externals
         (JObj [("grant_type", JStr "password"); ("username", JStr "alice@example.com");
                ("password", JStr "invalid")]))
  = Ok (Some {| Authentication.status := Some 401%Z; Authentication.body := JObj [] |}).
Proof. reflexivity. Qed.

Example cannot_get_user_profile_using_wrong_access_token :
  run (auth_handler [] [])
      (Authentication.authenticate auth_options auth_externals (Some "Bearer wrong"))
  = Throw (Error "Invalid access token").
Proof. reflexivity. Qed.

Example can_get_user_profile_using_access_token :
  run (auth_handler [JObj [("user", JObj [("id", JNum 7); ("admin", JBool false)])]] [])
      (Authentication.authenticate auth_options auth_externals (Some "Bearer right"))
  = Ok (Some {| user := Some (JObj [("id", JNum 7); ("admin", JBool false)]) |}).
Proof. reflexivity. Qed.

End Tests.

(** ** Running programs *)

Section Running.
Context {E : Type -> Type} (handler : forall R, E R -> R).

Lemma run_bind {A B} (p : prog E A) (f : A -> prog E B) :
  run handler (bind p f) =
  match run handler p with
  | inr a => run handler (f a)
  | inl e => Throw e
  end.
Proof. induction p as [a|e|R c k IH]; simpl; auto. Qed.

Lemma trace_bind {A B} (p : prog E A) (f : A -> prog E B) :
  trace handler (bind p f) =
  (trace handler p ++
   match run handler p with
   | inr a => trace handler (f a)
   | inl _ => []
   end)%list.
Proof.
  induction p as [a|e|R c k IH]; simpl; auto.
  now rewrite IH.
Qed.

End Running.

(** ** Query *)

Module QueryLemmas.
Import Query Reference.

Lemma bind_positional_skip a b args :
  no_char "?" a = true -> bind_positional (a ++ b) args = a ++ bind_positional b args.
Proof.
  induction a as [|x a IH]; simpl; [reflexivity|].
  intros H. apply andb_prop in H as [Hx Ha].
  destruct (Ascii.eqb x "?"); [discriminate|].
  now rewrite (IH Ha).
Qed.

Lemma bind_positional_nil q : bind_positional q [] = q.
Proof.
  induction q as [|c q IH]; simpl; [reflexivity|].
  destruct (Ascii.eqb c "?"); now rewrite IH.
Qed.

Lemma bind_positional_none q args :
  no_char "?" q = true -> bind_positional q args = q.
Proof.
  intros H. rewrite <- (string_app_nil_r q) at 1.
  rewrite bind_positional_skip by assumption. simpl. apply string_app_nil_r.
Qed.

(** Injection binds positionally as long as no argument brings a [?] or
    a [$] of its own into the query. *)
Lemma inject_each_positional args : forall q,
  Forall plain_argument args ->
  inject_each (Text q) args = Ok (Text (bind_positional q args)).
Proof.
  induction args as [|a rest IH]; intros q Hall; simpl.
  - destruct (first_occurrence "?" q) as [H|(x & y & -> & Hx)].
    + now rewrite bind_positional_none.
    + rewrite bind_positional_skip by assumption. simpl.
      now rewrite bind_positional_nil.
  - inversion Hall as [|? ? [Hq Hd] Hrest]; subst.
    rewrite IH by assumption. f_equal. f_equal.
    destruct (first_occurrence "?" q) as [H|(x & y & -> & Hx)].
    + unfold js_replace. change "?" with (str1 "?"). rewrite str_find_absent by assumption.
      rewrite !bind_positional_none; auto.
    + unfold js_replace. change "?" with (str1 "?") at 1.
      rewrite str_find_first by assumption.
      rewrite get_substitution_plain by assumption.
      rewrite !bind_positional_skip by assumption. reflexivity.
Qed.

End QueryLemmas.

Module QueryFacts.
Import Query Reference.


(** C5, the failing input.  The second argument is bound to the question
    mark that the first argument brought into the query, not to the
    second placeholder: injection and positional binding differ. *)
Theorem injectArguments_question_mark_argument :
  injectArguments (Text "{a(x:?,y:?)}") (JArr [JStr "?"; JNum 1])
  = Ok (Text ("{a(x:" ++ quote "1" ++ ",y:?)}"))
  /\ bind_positional "{a(x:?,y:?)}" [JStr "?"; JNum 1]
     = "{a(x:" ++ quote "?" ++ ",y:1)}".
Proof. split; reflexivity. Qed.

(** A replacement pattern in an argument is expanded as well. *)
Example injectArguments_dollar_argument :
  injectArguments (Text "{a(x:?)}") (JArr [JStr "$&"])
  = Ok (Text ("{a(x:" ++ quote "?" ++ ")}")).
Proof. reflexivity. Qed.

(** The parser is handed the query after injection. *)
Lemma constructor_parses_injected Parser q q' c args p :
  injectArguments (Text q) args = Ok (Text q') ->
  Parser q' = Ok p ->
  constructor Parser (Text q) (WithContext c args)
  = Ok {| query := Text q'; context_of := c; parsed_of := p |}.
Proof.
  intros Hinj Hparse. unfold constructor. rewrite Hinj, Hparse. reflexivity.
Qed.

(** Only a read of [User] without params has the id of the caller bound. *)
Lemma bind_current_user_other context operation entity m :
  operation <> "read" \/ entity <> "User" \/ params m <> [] ->
  bind_current_user context operation entity m = Ret m.
Proof.
  unfold bind_current_user. intros [H|[H|H]].
  - destruct (String.eqb_spec operation "read"); [contradiction | reflexivity].
  - destruct (String.eqb_spec entity "User"); [contradiction|].
    now rewrite andb_false_r.
  - destruct (params m); [contradiction|]. simpl. now rewrite !andb_false_r.
Qed.

(** C4.  With a context, a method whose name parses and whose entity
    exists has the entity-level access check called with a copy of all
    params for [list] and [create], and with only the id (null when there
    is none) for every other operation; a falsy answer makes the query
    fail with "permission denied". *)
Theorem callMethod_access_check
        (handler : forall R, call R -> R) (c : context) (m m1 : method)
        (op : option string) (entity : string) (md : model) :
  match_method_name (name m) = Some (op, entity) ->
  run handler (bind_current_user (Some c) (operation_of op) entity m) = Ok m1 ->
  handler _ (ModelsHas entity) = Ok true ->
  handler _ (ModelsGet entity) = Ok md ->
  exists data,
    (operation_of op = "list" \/ operation_of op = "create" -> data = JObj (params m1))
    /\ (operation_of op <> "list" -> operation_of op <> "create" ->
        data = JObj [("id", match assoc "id" (params m1) with
                            | None | Some JUndefined => JNull
                            | Some v => v
                            end)])
    /\ In (existT _ (Access md (operation_of op) data JNull))
          (trace handler (callMethod (Some c) m))
    /\ (forall answer,
          handler _ (Access md (operation_of op) data JNull) = Ok answer ->
          truthy answer = false ->
          run handler (callMethod (Some c) m)
          = Throw (QueryError [(None, "permission denied")])).
Proof.
  intros Hname Hbind Hhas Hget.
  exists (access_data (operation_of op) (params m1)).
  split; [|split; [|split]].
  - unfold access_data. intros [-> | ->]; reflexivity.
  - unfold access_data. intros H1 H2.
    destruct (String.eqb_spec (operation_of op) "list"); [contradiction|].
    destruct (String.eqb_spec (operation_of op) "create"); [contradiction|].
    reflexivity.
  - unfold callMethod. rewrite Hname. rewrite trace_bind, Hbind.
    apply in_or_app. right.
    unfold dispatch, await. simpl. rewrite Hhas. simpl. rewrite Hget. simpl.
    right. right. left. reflexivity.
  - intros answer Hanswer Hfalsy.
    unfold callMethod. rewrite Hname. rewrite run_bind, Hbind.
    unfold dispatch, await. simpl. rewrite Hhas. simpl. rewrite Hget. simpl.
    rewrite Hanswer. simpl. rewrite Hfalsy. reflexivity.
Qed.

Lemma callMethod_access_check_witness :
  exists data,
    (operation_of (Some "list") = "list" \/ operation_of (Some "list") = "create" ->
     data = JObj (params Samples.listPost))
    /\ (operation_of (Some "list") <> "list" -> operation_of (Some "list") <> "create" ->
        data = JObj [("id", match assoc "id" (params Samples.listPost) with
                            | None | Some JUndefined => JNull
                            | Some v => v
                            end)])
    /\ In (existT _ (Access Samples.post_model (operation_of (Some "list")) data JNull))
          (trace (Samples.query_handler (JBool false))
                 (callMethod (Some Samples.someone) Samples.listPost))
    /\ (forall answer,
          Samples.query_handler (JBool false) _
            (Access Samples.post_model (operation_of (Some "list")) data JNull) = Ok answer ->
          truthy answer = false ->
          run (Samples.query_handler (JBool false))
              (callMethod (Some Samples.someone) Samples.listPost)
          = Throw (QueryError [(None, "permission denied")])).
Proof.
  apply (callMethod_access_check (Samples.query_handler (JBool false)) Samples.someone
           Samples.listPost Samples.listPost (Some "list") "Post" Samples.post_model);
    reflexivity.
Defined.

End QueryFacts.

(** ** Authentication *)

Module AuthenticationFacts.
Import Authentication.

Lemma run_lift {E A} (handler : forall R, E R -> R) (r : result A) :
  run handler (lift r : prog E A) = r.
Proof. destruct r; reflexivity. Qed.

Lemma run_await {E A} (handler : forall R, E R -> R) (c : E (result A)) :
  run handler (await c) = handler _ c.
Proof. unfold await. simpl. destruct (handler _ c); reflexivity. Qed.

(** A header is of one scheme only. *)
Lemma bearer_not_basic header token :
  match_scheme "Bearer" header = Some token -> match_scheme "Basic" header = None.
Proof.
  unfold match_scheme. intros H.
  destruct (strip_prefix ("Bearer" ++ " ") header) as [rest|] eqn:E; [|discriminate].
  apply strip_prefix_sound in E. subst header. reflexivity.
Qed.

Section Hook.
Variable opts : options.
Variable ext : externals.
Variable handler : forall R, call R -> R.

(** What a finished Bearer branch has seen and done. *)
Lemma bearer_result token c1 c2 :
  run handler (bearer opts token c1) = Ok c2 ->
  exists result rows row u,
    handler _ (StorageQuery (bearer_query opts) [JStr token]) = Ok result
    /\ js_get result "token" = Ok rows
    /\ js_get rows "length" <> Ok (JNum 0)
    /\ js_get rows "0" = Ok row
    /\ js_get row "user" = Ok u
    /\ c1 <> None
    /\ c2 = Some {| user := Some u |}.
Proof.
  unfold bearer. rewrite run_bind, run_await.
  destruct (handler _ (StorageQuery (bearer_query opts) [JStr token])) as [e|result];
    [discriminate|].
  rewrite run_bind, run_lift.
  destruct (js_get result "token") as [e|rows] eqn:Hrows; [discriminate|].
  rewrite run_bind, run_lift.
  destruct (js_get rows "length") as [e|len] eqn:Hlen; [discriminate|].
  assert (Hgo : run handler
                  (bind (lift (js_get rows "0")) (fun row =>
                   bind (lift (js_get row "user")) (fun u =>
                   lift (setUser c1 u)))) = Ok c2 ->
                exists row u, js_get rows "0" = Ok row /\ js_get row "user" = Ok u
                              /\ c1 <> None /\ c2 = Some {| user := Some u |}).
  { rewrite run_bind, run_lift.
    destruct (js_get rows "0") as [e|row] eqn:H0; [discriminate|].
    rewrite run_bind, run_lift.
    destruct (js_get row "user") as [e|u] eqn:Hu; [discriminate|].
    rewrite run_lift. destruct c1 as [c|]; simpl; [|discriminate].
    intros H. inversion H. exists row, u. repeat split; auto. }
  intros H.
  assert (Hne : len <> JNum 0).
  { intros ->. simpl in H. discriminate. }
  assert (H' : run handler
                  (bind (lift (js_get rows "0")) (fun row =>
                   bind (lift (js_get row "user")) (fun u =>
                   lift (setUser c1 u)))) = Ok c2).
  { destruct len as [| |b|n|s0|xs|ps]; try exact H.
    destruct n; [contradiction | exact H | exact H]. }
  destruct (Hgo H') as (row & u & H0 & Hu & Hc & ->).
  exists result, rows, row, u. repeat split; try assumption.
  congruence.
Qed.


(** C10.  With a Bearer header whose token lookup answers with an array
    of rows: without rows the hook rejects with "Invalid access token",
    and a user is attached only if it is the user of a first row. *)
Theorem bearer_without_rows_rejects (header token : string) (result : json)
        (rows : list json) :
  match_scheme "Bearer" header = Some token ->
  handler _ (StorageQuery (bearer_query opts) [JStr token]) = Ok result ->
  js_get result "token" = Ok (JArr rows) ->
  (rows = [] ->
   run handler (authenticate opts ext (Some header)) = Throw (Error "Invalid access token"))
  /\ (forall u,
        run handler (authenticate opts ext (Some header)) = Ok (Some {| user := Some u |}) ->
        exists row rest, rows = row :: rest /\ js_get row "user" = Ok u).
Proof.
  intros Hm Hq Hrows.
  assert (Hstart : run handler (authenticate opts ext (Some header))
                   = run handler (bearer opts token (Some {| user := None |}))).
  { unfold authenticate. rewrite run_bind, run_lift. simpl default.
    unfold basic. rewrite (bearer_not_basic _ _ Hm), Hm. reflexivity. }
  rewrite Hstart. split.
  - intros ->. unfold bearer. rewrite run_bind, run_await, Hq.
    rewrite run_bind, run_lift, Hrows. reflexivity.
  - intros u Hrun.
    apply bearer_result in Hrun as (result' & rows' & row & u' & Hq' & Hr' & Hlen & H0 & Hu & _ & Hc).
    rewrite Hq in Hq'. inversion Hq'; subst result'.
    rewrite Hrows in Hr'. inversion Hr'; subst rows'.
    inversion Hc; subst u'.
    destruct rows as [|r rest]; [exfalso; apply Hlen; reflexivity|].
    exists r, rest. split; [reflexivity|].
    simpl in H0. inversion H0; subst. exact Hu.
Qed.

Lemma base64_char_in_alphabet n : (n < 64)%N -> is_base64_char (base64_char n) = true.
Proof.
  intros Hn.
  assert (Hall : forallb (fun k => is_base64_char (base64_char (N.of_nat k))) (seq 0 64) = true)
    by (vm_compute; reflexivity).
  rewrite forallb_forall in Hall.
  specialize (Hall (N.to_nat n)). rewrite N2Nat.id in Hall.
  apply Hall, in_seq. lia.
Qed.

(** Induction over a list three elements at a time. *)
Lemma list_ind3 {A} (P : list A -> Prop) :
  P [] -> (forall a, P [a]) -> (forall a b, P [a; b]) ->
  (forall a b c rest, P rest -> P (a :: b :: c :: rest)) ->
  forall l, P l.
Proof.
  intros H0 H1 H2 H3.
  assert (Hall : forall n l, length l <= n -> P l).
  { induction n as [|n IH]; intros l Hl.
    - destruct l; [exact H0 | simpl in Hl; lia].
    - destruct l as [|a [|b [|c rest]]]; auto.
      apply H3, IH. simpl in Hl. lia. }
  intros l. exact (Hall (length l) l (le_n _)).
Qed.

Lemma base64_length bs : String.length (base64 bs) = 4 * ((length bs + 2) / 3).
Proof.
  induction bs as [|a|a b|a b c rest IH] using list_ind3; try reflexivity.
  change (base64 (a :: b :: c :: rest))
    with (let '(s1, s2, s3, s4) := sextets a b c in
          String (base64_char s1) (String (base64_char s2)
            (String (base64_char s3) (String (base64_char s4) (base64 rest))))).
  destruct (sextets a b c) as [[[s1 s2] s3] s4]. simpl String.length. rewrite IH.
  replace (length (a :: b :: c :: rest) + 2) with (length rest + 2 + 1 * 3)
    by (simpl; lia).
  rewrite Nat.div_add by discriminate. lia.
Qed.

Lemma base64_text bs : is_base64_text (base64 bs) = true.
Proof.
  unfold is_base64_text.
  induction bs as [|a|a b|a b c rest IH] using list_ind3; [reflexivity| | |].
  - simpl. rewrite !base64_char_in_alphabet by (apply N.mod_lt; discriminate).
    reflexivity.
  - simpl. rewrite !base64_char_in_alphabet by (apply N.mod_lt; discriminate).
    reflexivity.
  - change (base64 (a :: b :: c :: rest))
      with (let '(s1, s2, s3, s4) := sextets a b c in
            String (base64_char s1) (String (base64_char s2)
              (String (base64_char s3) (String (base64_char s4) (base64 rest))))).
    unfold sextets. cbn [string_forall].
    rewrite !base64_char_in_alphabet by (apply N.mod_lt; discriminate).
    rewrite IH. reflexivity.
Qed.

(** C3, as the code has it.  When the user is found and the password
    verifies, [POST /token] asks for 32 random bytes, encodes them in
    standard base64 (44 characters of [A-Za-z0-9+/=]), stores that text
    together with the user id through the [createAuthnToken] query, and
    answers with it as the access token. *)
Theorem token_is_base64_of_random_bytes
        (request_body username plain result row encoded id stored : json)
        (more : list json) (bytes : list byte) :
  js_get request_body "grant_type" = Ok (JStr "password") ->
  js_get request_body "username" = Ok username ->
  js_get request_body "password" = Ok plain ->
  handler _ (StorageQuery (token_user_query opts) [username]) = Ok result ->
  js_get result "user" = Ok (JArr (row :: more)) ->
  js_get row "password" = Ok encoded ->
  js_get row "id" = Ok id ->
  isValid ext encoded plain = Ok true ->
  handler _ (RandomBytes 32) = bytes ->
  length bytes = 32 ->
  handler _ (StorageQuery create_token_query [JStr (base64 bytes); id]) = Ok stored ->
  trace handler (process_token opts ext request_body)
  = [existT _ (StorageQuery (token_user_query opts) [username]);
     existT _ (RandomBytes 32);
     existT _ (StorageQuery create_token_query [JStr (base64 bytes); id])]
  /\ run handler (process_token opts ext request_body)
     = Ok (Some {| status := None;
                   body := JObj [("access_token", JStr (base64 bytes));
                                 ("token_type", JStr "bearer")] |})
  /\ String.length (base64 bytes) = 44
  /\ is_base64_text (base64 bytes) = true.
Proof.
  intros Hgrant Huser Hplain Hq Husers Henc Hid Hvalid Hbytes Hlen Hstore.
  assert (Hlen44 : String.length (base64 bytes) = 44).
  { rewrite base64_length, Hlen. reflexivity. }
  assert (Htruthy : truthy (JStr (base64 bytes)) = true).
  { simpl. destruct (base64 bytes); [discriminate | reflexivity]. }
  assert (Hrow0 : js_get (JArr (row :: more)) "0" = Ok row) by reflexivity.
  assert (Hlength : exists n, js_get (JArr (row :: more)) "length" = Ok (JNum n)
                              /\ js_positive (JNum n) = true).
  { exists (Z.of_nat (length (row :: more))). split; [reflexivity|].
    simpl js_positive. apply Z.ltb_lt. simpl length. lia. }
  destruct Hlength as (n & Hn & Hpos).
  assert (Hgrant' : is_string (JStr "password") "password" = true) by reflexivity.
  split; [|split; [|split]]; auto using base64_text.
  - unfold process_token, await.
    rewrite Hgrant. cbn [bind lift trace]. rewrite Hgrant'.
    rewrite Huser. cbn [bind lift trace]. rewrite Hq. cbn [bind lift trace].
    rewrite Husers. cbn [bind lift trace]. rewrite Hn. cbn [bind lift trace].
    rewrite Hpos, Hrow0. cbn [bind lift trace].
    rewrite Henc. cbn [bind lift trace]. rewrite Hplain. cbn [bind lift trace].
    rewrite Hvalid. cbn [bind lift trace]. rewrite Hbytes.
    rewrite Hid. cbn [bind lift trace]. rewrite Hstore. cbn [bind lift trace].
    rewrite Htruthy. reflexivity.
  - unfold process_token, await.
    rewrite Hgrant. cbn [bind lift run]. rewrite Hgrant'.
    rewrite Huser. cbn [bind lift run]. rewrite Hq. cbn [bind lift run].
    rewrite Husers. cbn [bind lift run]. rewrite Hn. cbn [bind lift run].
    rewrite Hpos, Hrow0. cbn [bind lift run].
    rewrite Henc. cbn [bind lift run]. rewrite Hplain. cbn [bind lift run].
    rewrite Hvalid. cbn [bind lift run]. rewrite Hbytes.
    rewrite Hid. cbn [bind lift run]. rewrite Hstore. cbn [bind lift run].
    rewrite Htruthy. reflexivity.
Qed.

End Hook.


Lemma bearer_without_rows_rejects_witness :
  (@nil json = [] ->
   run (Samples.auth_handler [] []) (authenticate Samples.auth_options Samples.auth_externals
                                       (Some "Bearer abc"))
   = Throw (Error "Invalid access token"))
  /\ (forall u,
        run (Samples.auth_handler [] []) (authenticate Samples.auth_options
                                            Samples.auth_externals (Some "Bearer abc"))
        = Ok (Some {| user := Some u |}) ->
        exists row rest, @nil json = row :: rest /\ js_get row "user" = Ok u).
Proof.
  apply (bearer_without_rows_rejects Samples.auth_options Samples.auth_externals
           (Samples.auth_handler [] []) "Bearer abc" "abc"
           (JObj [("token", JArr []);
                  ("user", JArr [JObj [("id", JNum 7); ("password", JStr "hash:Welcome!")]])])
           []); reflexivity.
Defined.

Lemma token_is_base64_of_random_bytes_witness :
  let bytes := repeat Byte.x00 32 in
  trace (Samples.auth_handler [] bytes)
        (process_token Samples.auth_options Samples.auth_externals Samples.token_request)
  = [existT _ (StorageQuery (token_user_query Samples.auth_options) [JStr "alice@example.com"]);
     existT _ (RandomBytes 32);
     existT _ (StorageQuery create_token_query [JStr (base64 bytes); JNum 7])]
  /\ run (Samples.auth_handler [] bytes)
         (process_token Samples.auth_options Samples.auth_externals Samples.token_request)
     = Ok (Some {| status := None;
                   body := JObj [("access_token", JStr (base64 bytes));
                                 ("token_type", JStr "bearer")] |})
  /\ String.length (base64 bytes) = 44
  /\ is_base64_text (base64 bytes) = true.
Proof.
  apply (token_is_base64_of_random_bytes Samples.auth_options Samples.auth_externals
           (Samples.auth_handler [] (repeat Byte.x00 32))
           Samples.token_request (JStr "alice@example.com") (JStr "Welcome!")
           (JObj [("token", JArr []);
                  ("user", JArr [JObj [("id", JNum 7); ("password", JStr "hash:Welcome!")]])])
           (JObj [("id", JNum 7); ("password", JStr "hash:Welcome!")])
           (JStr "hash:Welcome!") (JNum 7) (JObj []) [] (repeat Byte.x00 32));
    reflexivity.
Defined.

(** C3, the claim as stated fails.  With the 32 random bytes all [255]
    the stored token is made of the character [/] up to its last two
    characters, and the URL-safe alphabet of base64url has no [/]. *)
Lemma token_not_base64url :
  let bytes := repeat Byte.xff 32 in
  length bytes = 32
  /\ In (existT _ (StorageQuery create_token_query [JStr (base64 bytes); JNum 7]))
        (trace (Samples.auth_handler [] bytes)
               (process_token Samples.auth_options Samples.auth_externals
                              Samples.token_request))
  /\ is_base64url_text (base64 bytes) = false.
Proof.
  split; [reflexivity|]. split; [|reflexivity].
  right. right. left. reflexivity.
Qed.

End AuthenticationFacts.

(** ** Transformation *)

Module TransformationFacts.
Import Transformation.
Local Open Scope heap_scope.

Section Chains.
Variable ext : externals.
Variable rec : val -> val -> M val.
Variable template : val.

(** A chain over [pre ++ post] is the chain over [pre], and, unless that
    one ended in null, the chain over [post] on its result. *)
Lemma chain_app pre post : forall output h,
  nullish output = false ->
  chain ext rec template (pre ++ post)%list output h =
  match chain ext rec template pre output h with
  | (h1, inr v) => if nullish v then (h1, Ok VNull) else chain ext rec template post v h1
  | (h1, inl e) => (h1, Throw e)
  end.
Proof.
  induction pre as [|key pre IH]; intros output h Hout; simpl.
  - unfold ret. now rewrite Hout.
  - destruct (method_of key) as [op|]; [|reflexivity].
    unfold mbind.
    destruct (get_prop template key h) as [h1 [e|options]]; [reflexivity|].
    destruct (call_operator ext rec op output options h1) as [h2 [e|output']];
      [reflexivity|].
    destruct (nullish output') eqn:Hnull; [reflexivity|].
    now apply IH.
Qed.

(** The chain stops at an operator that returns null or undefined. *)
Lemma chain_bails key op rest output options h h' r :
  method_of key = Some op ->
  get_prop template key h = (h, Ok options) ->
  call_operator ext rec op output options h = (h', Ok r) ->
  nullish r = true ->
  chain ext rec template (key :: rest) output h = (h', Ok VNull).
Proof.
  intros Hop Hget Hcall Hnull. simpl. rewrite Hop. unfold mbind.
  rewrite Hget, Hcall, Hnull. reflexivity.
Qed.


End Chains.

(** The copy of a value that is neither null nor undefined is neither. *)
Lemma cloneDeep_total value h :
  exists h' output, cloneDeep value h = (h', Ok output)
                    /\ (nullish value = false -> nullish output = false).
Proof.
  unfold cloneDeep.
  destruct (clone (S (length h)) value [] h) as [[h' m'] output] eqn:E.
  exists h', output. split; [reflexivity|].
  intros Hv. destruct value; try discriminate; simpl in E;
    try (inversion E; subst; reflexivity).
  destruct (h !! l) as [[ps|xs]|].
  - destruct (clone_list _ _ _ _) as [[h1 m1] vs]. inversion E; reflexivity.
  - destruct (clone_list _ _ _ _) as [[h1 m1] vs]. inversion E; reflexivity.
  - inversion E; reflexivity.
Qed.

Lemma transform_unfold ext n template value h h0 output keys :
  nullish value = false ->
  cloneDeep value h = (h0, Ok output) ->
  object_keys template h0 = (h0, Ok keys) ->
  transform ext (S n) template value h
  = chain ext (transform ext n) template keys output h0.
Proof.
  intros Hv Hclone Hkeys. simpl. rewrite Hv. unfold mbind.
  now rewrite Hclone, Hkeys.
Qed.

(** C1.  A null or undefined input gives null.  When the operators
    before [key] have run without returning null and the operator of
    [key] returns null or undefined, the result is null and the heap is
    the one this operator left: nothing after it has run, whatever the
    rest of the template is. *)
Theorem transform_null_and_bail (ext : externals) (n : nat) (template value : val)
        (h : heap) :
  (nullish value = true -> transform ext n template value h = (h, Ok VNull))
  /\ (forall h0 output pre key op rest h1 v1 options h2 r,
        nullish value = false ->
        cloneDeep value h = (h0, Ok output) ->
        object_keys template h0 = (h0, Ok (pre ++ key :: rest)%list) ->
        chain ext (transform ext n) template pre output h0 = (h1, Ok v1) ->
        nullish v1 = false ->
        method_of key = Some op ->
        get_prop template key h1 = (h1, Ok options) ->
        call_operator ext (transform ext n) op v1 options h1 = (h2, Ok r) ->
        nullish r = true ->
        transform ext (S n) template value h = (h2, Ok VNull)).
Proof.
  split.
  - intros Hv. destruct n; simpl; now rewrite Hv.
  - intros h0 output pre key op rest h1 v1 options h2 r
           Hv Hclone Hkeys Hpre Hv1 Hop Hget Hcall Hr.
    rewrite (transform_unfold _ _ _ _ _ _ _ _ Hv Hclone Hkeys).
    destruct (cloneDeep_total value h) as (h0' & output' & Hc & Hnn).
    rewrite Hclone in Hc. inversion Hc; subst h0' output'.
    rewrite chain_app by auto. rewrite Hpre, Hv1.
    eapply chain_bails; eauto.
Qed.

Lemma transform_null_and_bail_witness :
  transform Samples.libraries 1 (VRef 2) (VRef 0) Samples.bail_heap
  = ((Samples.bail_heap ++ [CObj []])%list, Ok VNull).
Proof.
  apply (proj2 (transform_null_and_bail Samples.libraries 0 (VRef 2) (VRef 0)
                  Samples.bail_heap)
               (Samples.bail_heap ++ [CObj []])%list (VRef 3) [] "single" Single ["hash"]
               (Samples.bail_heap ++ [CObj []])%list (VRef 3) (VStr "$.unknown")
               (Samples.bail_heap ++ [CObj []])%list VNull);
    reflexivity.
Defined.







(** C6, as the code has it.  On a string, with a separator that is a
    string and not empty, [split] returns a new array of the pieces
    between the occurrences of the separator: joined by the separator
    they give the input back, and none of them holds the separator.
    Nothing else of the options is read, so [maxItems] and
    [addRemainder] do not change the result. *)
Theorem split_by_separator_only (ext : externals) (rec : val -> val -> M val)
        (s sep : string) (options : val) (h : heap) :
  sep <> EmptyString ->
  get_prop options "separator" h = (h, Ok (VStr sep)) ->
  call_operator ext rec Split (VStr s) options h
  = ((h ++ [CArr (map VStr (js_split sep s))])%list, Ok (VRef (length h)))
  /\ join_with sep (js_split sep s) = s
  /\ Forall (fun piece => str_find sep piece = None) (js_split sep s).
Proof.
  intros Hsep Hget. split; [|split].
  - simpl. unfold _split, mbind. rewrite Hget.
    assert (truthy_val (VStr sep) = true) as ->.
    { simpl. destruct sep; [contradiction | reflexivity]. }
    reflexivity.
  - rewrite js_split_nonempty by assumption. apply split_fuel_join.
  - rewrite js_split_nonempty by assumption. now apply split_fuel_pieces.
Qed.

Lemma split_by_separator_only_witness :
  call_operator Samples.libraries (transform Samples.libraries 0) Split
                (VStr "x,y,z") (VRef 0) Samples.split_heap
  = ((Samples.split_heap ++ [CArr (map VStr (js_split "," "x,y,z"))])%list,
     Ok (VRef (length Samples.split_heap)))
  /\ join_with "," (js_split "," "x,y,z") = "x,y,z"
  /\ Forall (fun piece => str_find "," piece = None) (js_split "," "x,y,z").
Proof.
  apply (split_by_separator_only Samples.libraries (transform Samples.libraries 0)
           "x,y,z" "," (VRef 0) Samples.split_heap); [discriminate | reflexivity].
Defined.

(** C6, the claim as stated fails: with [maxItems: 2] and
    [addRemainder: true] the text [x,y,z] is split into three elements,
    the last of which is [z] and not the remainder [y,z]. *)
Lemma split_exceeds_maxItems :
  get_prop (VRef 0) "maxItems" Samples.split_heap = (Samples.split_heap, Ok (VNum 2))
  /\ get_prop (VRef 0) "addRemainder" Samples.split_heap
     = (Samples.split_heap, Ok (VBool true))
  /\ transform Samples.libraries 1 (VRef 1) (VStr "x,y,z") Samples.split_heap
     = ((Samples.split_heap ++ [CArr [VStr "x"; VStr "y"; VStr "z"]])%list, Ok (VRef 2)).
Proof. repeat split. Qed.

(** *** What a chain leaves of the heap it started in *)

Lemma mbind_inv {A B} (m : M A) (f : A -> M B) h h' r :
  mbind m f h = (h', r) ->
  (exists e, m h = (h', Throw e) /\ r = Throw e)
  \/ (exists h1 a, m h = (h1, Ok a) /\ f a h1 = (h', r)).
Proof.
  unfold mbind. destruct (m h) as [h1 [e|a]]; intros H.
  - left. inversion H; subst. eauto.
  - right. eauto.
Qed.

Lemma reach_extend h x l c l' :
  reach h x l -> h !! l = Some c -> In (VRef l') (cell_values c) -> reach h x l'.
Proof.
  induction 1 as [l|l0 c0 l1 l2 Hc0 Hin Hreach IH]; intros Hc Hl'.
  - eapply reach_step; eauto. constructor.
  - eapply reach_step; eauto.
Qed.

Lemma reach_is_ref h x l : reach h x l -> exists o, x = VRef o.
Proof. destruct 1; eauto. Qed.

Lemma extends_refl hc : extends hc hc.
Proof. split; auto. Qed.

Lemma extends_trans h1 h2 h3 : extends h1 h2 -> extends h2 h3 -> extends h1 h3.
Proof.
  intros [L1 S1] [L2 S2]. split; [lia|].
  intros l Hl. rewrite S2 by lia. auto.
Qed.

Lemma extends_alloc_store hc hc' c c' :
  extends (hc ++ [c]) hc' -> extends hc (<[length hc := c']> hc').
Proof.
  intros [L S]. rewrite length_app in L. simpl in L. split.
  - rewrite length_insert. lia.
  - intros l Hl. rewrite list_lookup_insert_ne by lia.
    rewrite S by (rewrite length_app; simpl; lia). now apply lookup_app_l.
Qed.

Lemma clone_list_extends f :
  (forall v m hc hc' m' v', f v m hc = (hc', m', v') -> extends hc hc') ->
  forall vs m hc hc' m' vs', clone_list f vs m hc = (hc', m', vs') -> extends hc hc'.
Proof.
  intros Hf. induction vs as [|v vs IH]; intros m hc hc' m' vs' H; simpl in H.
  - inversion H; subst. apply extends_refl.
  - destruct (f v m hc) as [[h1 m1] v1] eqn:E1.
    destruct (clone_list f vs m1 h1) as [[h2 m2] vs2] eqn:E2.
    inversion H; subst. eapply extends_trans; eauto.
Qed.

(** Copying adds cells and leaves the cells that were there alone. *)
Lemma clone_extends n : forall v m hc hc' m' v',
  clone n v m hc = (hc', m', v') -> extends hc hc'.
Proof.
  induction n as [|n IH]; intros v m hc hc' m' v' H.
  - destruct v; simpl in H; try (inversion H; subst; apply extends_refl).
    destruct (memo_find l m); inversion H; subst; apply extends_refl.
  - destruct v; simpl in H; try (inversion H; subst; apply extends_refl).
    destruct (memo_find l m); [inversion H; subst; apply extends_refl|].
    destruct (hc !! l) as [[ps|xs]|]; [| |inversion H; subst; apply extends_refl].
    + destruct (clone_list (clone n) (map snd ps) ((l, length hc) :: m) (hc ++ [CObj []]))
        as [[h1 m1] vs] eqn:E.
      inversion H; subst. eapply extends_alloc_store, clone_list_extends; eauto.
    + destruct (clone_list (clone n) xs ((l, length hc) :: m) (hc ++ [CArr []]))
        as [[h1 m1] vs] eqn:E.
      inversion H; subst. eapply extends_alloc_store, clone_list_extends; eauto.
Qed.

Lemma set_prop_references k s ps l :
  In (VRef l) (map snd (set_prop k (VStr s) ps)) -> In (VRef l) (map snd ps).
Proof.
  induction ps as [|[k' v'] ps IH]; simpl.
  - intros [H|[]]. discriminate.
  - destruct (String.eqb k k'); simpl.
    + intros [H|H]; [discriminate | auto].
    + intros [H|H]; auto.
Qed.

Lemma default_prop_references k s ps l :
  In (VRef l) (map snd (default_prop k (VStr s) ps)) -> In (VRef l) (map snd ps).
Proof.
  unfold default_prop.
  destruct (assoc k ps) as [[]|]; auto; apply set_prop_references.
Qed.

(** **** The fuel of [cloneDeep] *)

Lemma clone_list_memo f :
  (forall v m hc hc' m' v', f v m hc = (hc', m', v') ->
     forall l x, memo_find l m = Some x -> memo_find l m' = Some x) ->
  forall vs m hc hc' m' vs', clone_list f vs m hc = (hc', m', vs') ->
    forall l x, memo_find l m = Some x -> memo_find l m' = Some x.
Proof.
  intros Hf. induction vs as [|v vs IH]; intros m hc hc' m' vs' H l x Hl; simpl in H.
  - inversion H; subst. exact Hl.
  - destruct (f v m hc) as [[h1 m1] v1] eqn:E1.
    destruct (clone_list f vs m1 h1) as [[h2 m2] vs2] eqn:E2.
    inversion H; subst. eauto.
Qed.

(** A copy that is remembered stays remembered. *)
Lemma clone_memo n : forall v m hc hc' m' v',
  clone n v m hc = (hc', m', v') ->
  forall l x, memo_find l m = Some x -> memo_find l m' = Some x.
Proof.
  induction n as [|n IH]; intros v m hc hc' m' v' H k x Hk.
  - destruct v; simpl in H; try (inversion H; subst; exact Hk).
    destruct (memo_find l m); inversion H; subst; exact Hk.
  - destruct v; simpl in H; try (inversion H; subst; exact Hk).
    destruct (memo_find l m) eqn:Hl; [inversion H; subst; exact Hk|].
    assert (Hcons : memo_find k ((l, length hc) :: m) = Some x).
    { simpl. destruct (Nat.eqb_spec l k); [subst; congruence | exact Hk]. }
    destruct (hc !! l) as [[ps|xs]|]; [| |inversion H; subst; exact Hk].
    + destruct (clone_list (clone n) (map snd ps) ((l, length hc) :: m) (hc ++ [CObj []]))
        as [[h1 m1] vs] eqn:E.
      inversion H; subst. eapply clone_list_memo; eauto.
    + destruct (clone_list (clone n) xs ((l, length hc) :: m) (hc ++ [CArr []]))
        as [[h1 m1] vs] eqn:E.
      inversion H; subst. eapply clone_list_memo; eauto.
Qed.

Lemma filter_length_mono {A} (p q : A -> bool) l :
  (forall x, In x l -> q x = true -> p x = true) ->
  length (List.filter q l) <= length (List.filter p l).
Proof.
  induction l as [|a l IH]; intros H; simpl; [lia|].
  assert (IH' : length (List.filter q l) <= length (List.filter p l))
    by (apply IH; intros; apply H; auto; now right).
  destruct (q a) eqn:Hq.
  - rewrite (H a (or_introl eq_refl) Hq). simpl. lia.
  - destruct (p a); simpl; lia.
Qed.

Lemma filter_length_less {A} (p q : A -> bool) l x :
  (forall y, In y l -> q y = true -> p y = true) ->
  In x l -> p x = true -> q x = false ->
  length (List.filter q l) < length (List.filter p l).
Proof.
  induction l as [|a l IH]; intros H Hin Hp Hq; simpl; [destruct Hin|].
  assert (Hmono : length (List.filter q l) <= length (List.filter p l))
    by (apply filter_length_mono; intros; apply H; auto; now right).
  destruct Hin as [->|Hin].
  - rewrite Hp, Hq. simpl. lia.
  - assert (IH' : length (List.filter q l) < length (List.filter p l))
      by (apply IH; auto; intros; apply H; auto; now right).
    destruct (q a) eqn:Hqa.
    + rewrite (H a (or_introl eq_refl) Hqa). simpl. lia.
    + destruct (p a); simpl; lia.
Qed.

Lemma unvisited_mono h0 m m' :
  (forall l x, memo_find l m = Some x -> memo_find l m' = Some x) ->
  unvisited h0 m' <= unvisited h0 m.
Proof.
  intros H. apply filter_length_mono. intros l _. unfold not_copied.
  destruct (memo_find l m) eqn:E; [|reflexivity].
  now rewrite (H _ _ E).
Qed.

Lemma unvisited_cons h0 m l l' :
  memo_find l m = None -> l < length h0 ->
  unvisited h0 ((l, l') :: m) < unvisited h0 m.
Proof.
  intros Hl Hlt. apply (filter_length_less _ _ _ l).
  - intros k _. unfold not_copied. simpl.
    destruct (Nat.eqb l k); [discriminate|]. auto.
  - apply in_seq. lia.
  - unfold not_copied. now rewrite Hl.
  - unfold not_copied. simpl. now rewrite Nat.eqb_refl.
Qed.

Section CloneFuel.
Variable h0 : heap.
Hypothesis h0_closed : closed h0.

Lemma clone_list_fuel n :
  (forall v m hc, extends h0 hc -> in_heap h0 v -> unvisited h0 m < n ->
                  clone n v m hc = clone (S n) v m hc) ->
  forall vs m hc, extends h0 hc -> Forall (in_heap h0) vs -> unvisited h0 m < n ->
    clone_list (clone n) vs m hc = clone_list (clone (S n)) vs m hc.
Proof.
  intros Hn. induction vs as [|v vs IH]; intros m hc Hext Hvs Hm; [reflexivity|].
  inversion Hvs as [|? ? Hv Hrest]; subst.
  cbn [clone_list]. rewrite <- (Hn v m hc Hext Hv Hm).
  destruct (clone n v m hc) as [[h1 m1] v1] eqn:E.
  rewrite IH; auto.
  - eapply extends_trans; eauto using clone_extends.
  - pose proof (unvisited_mono h0 m m1 (clone_memo _ _ _ _ _ _ _ E)). lia.
Qed.

(** With more fuel than objects without copy, one more level of fuel
    changes nothing. *)
Lemma clone_fuel n : forall v m hc,
  extends h0 hc -> in_heap h0 v -> unvisited h0 m < n ->
  clone n v m hc = clone (S n) v m hc.
Proof.
  induction n as [|n IH]; intros v m hc Hext Hv Hm; [lia|].
  destruct v as [| |b|z|s|l]; try reflexivity.
  simpl in Hv. cbn [clone].
  destruct (memo_find l m) eqn:Hl; [reflexivity|].
  assert (Hcell : hc !! l = h0 !! l) by (apply Hext; exact Hv).
  destruct (lookup_lt_is_Some_2 h0 l Hv) as [c Hc].
  rewrite Hcell, Hc.
  assert (Hm' : unvisited h0 ((l, length hc) :: m) < n).
  { pose proof (unvisited_cons h0 m l (length hc) Hl Hv). lia. }
  assert (Hchildren : Forall (in_heap h0) (cell_values c)).
  { apply Forall_forall. intros x Hx. apply list_elem_of_In in Hx.
    destruct x; simpl; auto. eapply h0_closed; eauto. }
  destruct c as [ps|xs]; simpl in Hchildren.
  - rewrite (clone_list_fuel n IH); auto.
    destruct Hext as [L S]. split; [rewrite length_app; lia|].
    intros k Hk. rewrite lookup_app_l by lia. auto.
  - rewrite (clone_list_fuel n IH); auto.
    destruct Hext as [L S]. split; [rewrite length_app; lia|].
    intros k Hk. rewrite lookup_app_l by lia. auto.
Qed.

End CloneFuel.

Lemma unvisited_bound h0 m : unvisited h0 m <= length h0.
Proof.
  unfold unvisited. rewrite <- (length_seq (length h0) 0) at 2.
  generalize (seq 0 (length h0)). intros l.
  induction l as [|a l IH]; simpl; [lia|].
  destruct (not_copied m a); simpl; lia.
Qed.

(** The fuel that [cloneDeep] gives is never used up: more of it gives
    the same copy. *)
Lemma cloneDeep_fuel h v k :
  closed h -> in_heap h v ->
  clone (S (length h) + k) v [] h = clone (S (length h)) v [] h.
Proof.
  intros Hclosed Hv. induction k as [|k IH]; [now rewrite Nat.add_0_r|].
  rewrite Nat.add_succ_r, <- IH. symmetry.
  apply (clone_fuel h Hclosed); auto using extends_refl.
  pose proof (unvisited_bound h []). lia.
Qed.

Section Frame.
Variable h : heap.
Variable t : val.
Hypothesis t_allocated : allocated h t.

Lemma frame_refl : frame t h h.
Proof. split; [lia|]. intros l c Hc. exists c. repeat split; auto. intros ? ?; auto. Qed.

(** The cells of [h] are not touched. *)
Lemma frame_same_below hc hc' :
  frame t h hc -> length hc <= length hc' ->
  (forall l, l < length h -> hc' !! l = hc !! l) ->
  frame t h hc'.
Proof.
  intros [Hlen Hcells] Hlen' Hsame. split; [lia|].
  intros l c Hc. destruct (Hcells l c Hc) as (c' & Hc' & Hrefs & Hkeep).
  exists c'. rewrite Hsame by (apply lookup_lt_Some in Hc; exact Hc). auto.
Qed.

Lemma frame_alloc hc c : frame t h hc -> frame t h (hc ++ [c]).
Proof.
  intros Hf. apply (frame_same_below hc); auto.
  - rewrite length_app. lia.
  - intros l Hl. apply lookup_app_l. destruct Hf. lia.
Qed.

Lemma frame_store_new hc l c : frame t h hc -> length h <= l -> frame t h (<[l := c]> hc).
Proof.
  intros Hf Hl. apply (frame_same_below hc); auto.
  - now rewrite length_insert.
  - intros l' Hl'. apply list_lookup_insert_ne. lia.
Qed.

(** A cell of the template is overwritten without new references. *)
Lemma frame_store_template hc o c c' :
  frame t h hc -> reach h t o -> hc !! o = Some c -> no_new_references c c' ->
  frame t h (<[o := c']> hc).
Proof.
  intros [Hlen Hcells] Hreach Hc Hrefs. split; [now rewrite length_insert|].
  intros l c0 Hc0. destruct (Hcells l c0 Hc0) as (c1 & Hc1 & Hrefs1 & Hkeep).
  destruct (decide (l = o)) as [->|Hne].
  - exists c'. rewrite list_lookup_insert_eq by (apply lookup_lt_Some in Hc; exact Hc).
    split; [reflexivity|]. split; [|intros Hn; contradiction].
    intros l' Hl'. apply Hrefs1. rewrite Hc in Hc1. inversion Hc1; subst. auto.
  - exists c1. rewrite list_lookup_insert_ne by congruence. auto.
Qed.

(** In a later heap the objects of the template reach nothing but
    objects of the template. *)
Lemma reach_later hc : frame t h hc ->
  forall x l, reach hc x l -> of_template h t x -> reach h t l.
Proof.
  intros [Hlen Hcells]. induction 1 as [l|l0 c0 l1 l2 Hc0 Hin Hreach IH];
    intros Hx; simpl in Hx; [exact Hx|].
  apply IH. simpl.
  pose proof (t_allocated _ Hx) as Hl0.
  destruct (lookup_lt_is_Some_2 h l0 Hl0) as [c Hc].
  destruct (Hcells l0 c Hc) as (c' & Hc' & Hrefs & _).
  rewrite Hc0 in Hc'. inversion Hc'; subst c'.
  eapply reach_extend; eauto.
Qed.

Lemma of_template_allocated hc x :
  frame t h hc -> of_template h t x -> allocated hc x.
Proof.
  intros Hf Hx l Hl. pose proof (reach_later hc Hf x l Hl Hx) as Hr.
  apply t_allocated in Hr. destruct Hf. lia.
Qed.

Lemma made_up_allocated hc x : made_up h hc x -> allocated hc x.
Proof.
  intros (o & s & -> & Ho & Hc) l Hl.
  inversion Hl as [|? c ? ? Hc' Hin Hreach]; subst.
  - apply lookup_lt_Some in Hc. exact Hc.
  - rewrite Hc in Hc'. inversion Hc'; subst. simpl in Hin.
    destruct Hin as [Hin|[]]. discriminate.
Qed.

(** Frames compose along nested chains. *)
Lemma frame_nested hc hc' t' :
  frame t h hc -> frame t' hc hc' ->
  of_template h t t' \/ made_up h hc t' ->
  frame t h hc'.
Proof.
  intros Hf [Hlen' Hcells'] Ht'. pose proof Hf as [Hlen Hcells]. split; [lia|].
  intros l c Hc. destruct (Hcells l c Hc) as (c1 & Hc1 & Hrefs1 & Hkeep1).
  destruct (Hcells' l c1 Hc1) as (c2 & Hc2 & Hrefs2 & Hkeep2).
  exists c2. split; [assumption|]. split.
  - intros l' Hl'. auto.
  - intros Hn. rewrite Hkeep2, Hkeep1; auto.
    intros Hr. destruct Ht' as [Ht'|(o & s & -> & Ho & Hco)].
    + apply Hn. eapply reach_later; eauto.
    + apply lookup_lt_Some in Hc.
      inversion Hr as [|? c0 ? ? Hc0 Hin Hreach]; subst; [lia|].
      rewrite Hco in Hc0. inversion Hc0; subst. simpl in Hin.
      destruct Hin as [Hin|[]]. discriminate.
Qed.

(** What is read from an object of the template is of the template. *)
Lemma of_template_member hc o c x :
  frame t h hc -> reach h t o -> hc !! o = Some c -> In x (cell_values c) ->
  of_template h t x.
Proof.
  intros [Hlen Hcells] Hreach Hc Hin. destruct x; simpl; auto.
  pose proof (t_allocated _ Hreach) as Ho.
  destruct (lookup_lt_is_Some_2 h o Ho) as [c0 Hc0].
  destruct (Hcells o c0 Hc0) as (c' & Hc' & Hrefs & _).
  rewrite Hc in Hc'. inversion Hc'; subst c'.
  eapply reach_extend; eauto.
Qed.

(** **** Specifications of heap computations *)

#[local] Abbreviation spec := (Transformation.spec h t).

Lemma spec_bind {A B} (m : M A) (f : A -> M B) Q R :
  spec m Q -> (forall a, Q a -> spec (f a) R) -> spec (mbind m f) R.
Proof.
  intros Hm Hf hc hc' r Hfr Hrun.
  apply mbind_inv in Hrun as [(e & Hrun & ->)|(h1 & a & Hrun & Hk)].
  - destruct (Hm _ _ _ Hfr Hrun) as [Hfr' _]. auto.
  - destruct (Hm _ _ _ Hfr Hrun) as [Hfr' Ha]. eapply Hf; eauto.
Qed.

Lemma spec_weaken {A} (m : M A) (Q Q' : A -> Prop) :
  spec m Q -> (forall a, Q a -> Q' a) -> spec m Q'.
Proof.
  intros Hm HQ hc hc' r Hfr Hrun. destruct (Hm _ _ _ Hfr Hrun) as [Hfr' Ha].
  split; [assumption|]. destruct r; auto.
Qed.

Lemma spec_ret {A} (a : A) (Q : A -> Prop) : Q a -> spec (ret a) Q.
Proof. intros Ha hc hc' r Hfr Hrun. inversion Hrun; subst. auto. Qed.

Lemma spec_throw {A} e (Q : A -> Prop) : spec (throw e) Q.
Proof. intros hc hc' r Hfr Hrun. inversion Hrun; subst. auto. Qed.

Lemma spec_read {A} (f : heap -> A) : spec (read f) (fun _ => True).
Proof. intros hc hc' r Hfr Hrun. inversion Hrun; subst. auto. Qed.

Lemma spec_try_read {A} (f : heap -> result A) : spec (try_read f) (fun _ => True).
Proof.
  intros hc hc' r Hfr Hrun. inversion Hrun; subst. split; [assumption|].
  now destruct (f hc').
Qed.

Lemma spec_object_keys v : spec (object_keys v) (fun _ => True).
Proof.
  intros hc hc' r Hfr Hrun. unfold object_keys in Hrun.
  destruct v; try (inversion Hrun; subst; now auto).
  destruct (hc !! l) as [[ps|xs]|]; inversion Hrun; subst; auto.
Qed.

Lemma assoc_In {A} k (ps : list (string * A)) v : assoc k ps = Some v -> In v (map snd ps).
Proof.
  induction ps as [|[k' v'] ps IH]; simpl; [discriminate|].
  destruct (String.eqb k k'); [intros H; inversion H; auto | auto].
Qed.

Lemma spec_get_prop x key :
  spec (get_prop x key) (fun y => of_template h t x -> of_template h t y).
Proof.
  intros hc hc' r Hfr Hrun. unfold get_prop in Hrun.
  destruct x as [| |b|n|s|o]; try (inversion Hrun; subst; now auto).
  - destruct (String.eqb key "length"); inversion Hrun; subst; (split; [assumption|]).
    + now intros _.
    + intros _. destruct (parse_index key) as [i|]; [|exact I]. simpl.
      destruct (String.get i s); exact I.
  - destruct (hc !! o) as [[ps|xs]|] eqn:Hc.
    + inversion Hrun; subst. split; [assumption|]. intros Ho. simpl in Ho.
      destruct (assoc key ps) as [v|] eqn:Hv; [|exact I]. simpl.
      eapply of_template_member; eauto using assoc_In.
    + destruct (String.eqb key "length"); inversion Hrun; subst; (split; [assumption|]).
      * now intros _.
      * intros Ho. simpl in Ho.
        destruct (parse_index key) as [i|]; [|exact I]. simpl.
        destruct (xs !! i) as [v|] eqn:Hv; [|exact I]. simpl.
        eapply of_template_member; eauto.
        simpl. apply list_elem_of_In, list_elem_of_lookup. eauto.
    + inversion Hrun; subst. split; [assumption|]. now intros _.
Qed.

Lemma spec_read_items v :
  spec (read (fun hc => array_items hc v))
       (fun items => of_template h t v ->
                     forall xs, items = Some xs -> Forall (of_template h t) xs).
Proof.
  intros hc hc' r Hfr Hrun. inversion Hrun; subst. split; [assumption|].
  intros Hv xs Hxs. unfold array_items in Hxs.
  destruct v as [| |b|n|s|o]; try discriminate.
  destruct (hc' !! o) as [[ps|ys]|] eqn:Hc; try discriminate.
  inversion Hxs; subst. apply Forall_forall. intros x Hx.
  eapply of_template_member; eauto. simpl. now apply list_elem_of_In.
Qed.

Lemma spec_alloc c : spec (alloc c) (fun v => exists lo, v = VRef lo /\ length h <= lo).
Proof.
  intros hc hc' r Hfr Hrun. inversion Hrun; subst.
  split; [now apply frame_alloc|]. exists (length hc). split; [reflexivity|].
  destruct Hfr. lia.
Qed.

Lemma spec_set_property lo key v :
  length h <= lo -> spec (set_property (VRef lo) key v) (fun _ => True).
Proof.
  intros Hlo hc hc' r Hfr Hrun. unfold set_property, store in Hrun.
  destruct (hc !! lo) as [[ps|xs]|]; inversion Hrun; subst; auto.
  split; [|exact I]. now apply frame_store_new.
Qed.

Lemma spec_push lo v : length h <= lo -> spec (push (VRef lo) v) (fun _ => True).
Proof.
  intros Hlo hc hc' r Hfr Hrun. unfold push, store in Hrun.
  destruct (hc !! lo) as [[ps|xs]|]; inversion Hrun; subst; auto.
  split; [|exact I]. now apply frame_store_new.
Qed.

Lemma spec_for_each {A} (P : A -> Prop) (body : A -> M unit) items :
  (forall x, P x -> spec (body x) (fun _ => True)) ->
  Forall P items -> spec (for_each items body) (fun _ => True).
Proof.
  intros Hbody. induction 1 as [|x items Hx Hitems IH]; simpl.
  - now apply spec_ret.
  - eapply spec_bind; [now apply Hbody|]. intros _ _. exact IH.
Qed.

Lemma spec_cloneDeep v : spec (cloneDeep v) (fun _ => True).
Proof.
  intros hc hc' r Hfr Hrun. unfold cloneDeep in Hrun.
  destruct (clone (S (length hc)) v [] hc) as [[h1 m1] v1] eqn:E.
  inversion Hrun; subst. split; [|exact I].
  apply clone_extends in E as [L S]. apply (frame_same_below hc); auto.
  intros l Hl. apply S. destruct Hfr. lia.
Qed.

Lemma spec_json_stringify v : spec (json_stringify v) (fun _ => True).
Proof.
  intros hc hc' r Hfr Hrun. unfold json_stringify in Hrun.
  destruct (reify _ _ _) as [j|]; [destruct (stringify j)|];
    inversion Hrun; subst; auto.
Qed.

(** The defaults of [hash] are written into an object of the template. *)
Lemma spec_hash_options options :
  of_template h t options -> spec (hash_options options) (fun _ => True).
Proof.
  intros Ho hc hc' r Hfr Hrun. unfold hash_options in Hrun.
  destruct options as [| |b|n|s|o]; try (inversion Hrun; subst; now auto).
  destruct (hc !! o) as [[ps|xs]|] eqn:Hc; try (inversion Hrun; subst; now auto).
  inversion Hrun; subst. split; [|exact I].
  eapply frame_store_template; eauto.
  intros l Hl. simpl in *. eauto using default_prop_references.
Qed.

Section Operators.
Variable ext : externals.
Variable rec : val -> val -> M val.

(** Nested chains frame [h] when their template is of the template or
    made up. *)
Hypothesis rec_frame : forall t' v hc hc' r,
  frame t h hc -> of_template h t t' \/ made_up h hc t' ->
  rec t' v hc = (hc', r) -> frame t h hc'.

Lemma spec_shorthand_rec {B} entry value (k : val -> M B) (R : B -> Prop) :
  of_template h t entry -> (forall v, spec (k v) R) ->
  spec (mbind (shorthand entry) (fun template =>
        mbind (rec template value) k)) R.
Proof.
  intros He Hk hc hc' r Hfr Hrun.
  assert (Hgo : forall template h1,
             frame t h h1 -> of_template h t template \/ made_up h h1 template ->
             mbind (rec template value) k h1 = (hc', r) ->
             frame t h hc' /\ match r with inr a => R a | inl _ => True end).
  { intros template h1 Hfr1 Ht Hrun1.
    apply mbind_inv in Hrun1 as [(e & Hrun1 & ->)|(h2 & v & Hrun1 & Hrun2)].
    - split; [|exact I]. eapply rec_frame; eauto.
    - eapply Hk; [|exact Hrun2]. eapply rec_frame; eauto. }
  destruct entry as [| |b|n|s|o]; try (eapply Hgo; [exact Hfr | left; exact He | exact Hrun]).
  unfold mbind at 1 in Hrun. simpl in Hrun.
  eapply Hgo; [apply frame_alloc; exact Hfr | | exact Hrun].
  right. exists (length hc), s. split; [reflexivity|].
  split; [destruct Hfr; lia|]. apply list_lookup_middle. reflexivity.
Qed.

Ltac spec_step :=
  match goal with
  | |- spec (ret _) _ => apply spec_ret; try exact I
  | |- spec (throw _) _ => apply spec_throw
  | |- spec (read _) _ => apply spec_read
  | |- spec (try_read _) _ => apply spec_try_read
  | |- spec (alloc _) (fun _ => True) =>
    eapply spec_weaken; [apply spec_alloc | intros; exact I]
  | |- spec (json_stringify _) _ => apply spec_json_stringify
  | |- spec (js_to_string _) _ => apply spec_read
  | |- spec (js_join _ _) _ => apply spec_read
  | |- spec (mbind (get_prop _ _) _) _ =>
    eapply spec_bind; [apply spec_get_prop | intros ? ?; cbv beta in *]
  | |- spec (mbind (alloc _) _) _ =>
    eapply spec_bind; [apply spec_alloc | intros ? (? & -> & ?)]
  | |- spec (mbind (read (fun hc => array_items hc _)) _) _ =>
    eapply spec_bind; [apply spec_read_items | intros ? ?; cbv beta in *]
  | |- spec (mbind (read _) _) _ => eapply spec_bind; [apply spec_read | intros ? _]
  | |- spec (mbind (try_read _) _) _ => eapply spec_bind; [apply spec_try_read | intros ? _]
  | |- spec (mbind (object_keys _) _) _ => eapply spec_bind; [apply spec_object_keys | intros ? _]
  | |- spec (mbind (json_stringify _) _) _ =>
    eapply spec_bind; [apply spec_json_stringify | intros ? _]
  | |- spec (mbind (js_to_string _) _) _ => eapply spec_bind; [apply spec_read | intros ? _]
  | |- spec (mbind (js_join _ _) _) _ => eapply spec_bind; [apply spec_read | intros ? _]
  | |- spec (mbind (ret _) _) _ => eapply spec_bind; [apply spec_ret; exact I | intros ? _]
  | |- spec (match ?x with _ => _ end) _ => destruct x
  end.

Lemma spec_push_each {A} lo (f : A -> val) items :
  length h <= lo ->
  spec (for_each items (fun e => push (VRef lo) (f e))) (fun _ => True).
Proof.
  intros Hlo. apply (spec_for_each (fun _ => True)).
  - intros x _. now apply spec_push.
  - apply Forall_forall. auto.
Qed.

(** Every operator frames [h], given options that are of the template. *)
Lemma spec_call_operator op value options :
  of_template h t options ->
  spec (call_operator ext rec op value options) (fun _ => True).
Proof.
  intros Ho. destruct op; simpl.
  - (* single *) unfold _single. repeat spec_step.
  - (* multiple *) unfold _multiple. repeat spec_step.
  - (* static *) unfold _static. repeat spec_step.
  - (* object *) unfold _object. repeat spec_step.
    eapply spec_bind; [|intros _ _; spec_step].
    apply (spec_for_each (fun _ => True)); [|apply Forall_forall; auto].
    intros key _. spec_step.
    apply spec_shorthand_rec; [auto|]. intros v. now apply spec_set_property.
  - (* map *) unfold _map. repeat spec_step.
    eapply spec_bind; [|intros _ _; spec_step].
    apply (spec_for_each (fun _ => True)); [|apply Forall_forall; auto].
    intros item _.
    apply spec_shorthand_rec; [auto|]. intros v. now apply spec_push.
  - (* substring *) unfold _substring. repeat spec_step.
  - (* length *) unfold _length. repeat spec_step.
  - (* hash *) unfold _hash.
    eapply spec_bind with (Q := fun _ => True); [repeat spec_step|]. intros data _.
    eapply spec_bind; [now apply spec_hash_options|]. intros settings _. spec_step.
  - (* array *) unfold _array. spec_step. spec_step; [|spec_step]. spec_step.
    eapply spec_bind; [|intros _ _; spec_step].
    apply (spec_for_each (of_template h t)); [|auto].
    intros item Hitem.
    apply spec_shorthand_rec; [auto|]. intros v. now apply spec_push.
  - (* join *) unfold _join. repeat spec_step.
  - (* split *) unfold _split. repeat spec_step.
  - (* filter *) unfold _filter. repeat spec_step.
  - (* htmlTag *) unfold _htmlTag. repeat spec_step.
  - (* htmlTags *) unfold _htmlTags. repeat spec_step.
    eapply spec_bind; [now apply spec_push_each|]. intros _ _. spec_step.
  - (* htmlTagText *) unfold _htmlTagText. repeat spec_step.
  - (* htmlTagsText *) unfold _htmlTagsText. repeat spec_step.
    eapply spec_bind; [now apply spec_push_each|]. intros _ _. spec_step.
  - (* htmlAttribute *) unfold _htmlAttribute. repeat spec_step.
  - (* htmlTable *) unfold _htmlTable. repeat spec_step.
  - (* inherited *) spec_step.
Qed.

(** The loop of [transform] frames [h]. *)
Lemma spec_chain keys : forall output,
  spec (chain ext rec t keys output) (fun _ => True).
Proof.
  induction keys as [|key keys IH]; intros output; simpl.
  - spec_step.
  - destruct (method_of key) as [op|]; [|spec_step].
    spec_step.
    eapply spec_bind; [apply spec_call_operator|].
    + match goal with H : _ -> of_template _ _ _ |- _ => apply H end.
      destruct t; simpl; auto. constructor.
    + intros output' _. destruct (nullish output'); [spec_step | apply IH].
Qed.

End Operators.

End Frame.

(** Whatever a chain does, it frames the heap it started in. *)
Lemma transform_frame ext n : forall t v h h' r,
  allocated h t -> transform ext n t v h = (h', r) -> frame t h h'.
Proof.
  induction n as [|n IH]; intros t v h h' r Ht Hrun; simpl in Hrun;
    destruct (nullish v); try (inversion Hrun; subst; now apply frame_refl).
  assert (Hrec : forall t' v' hc hc' r',
             frame t h hc -> of_template h t t' \/ made_up h hc t' ->
             transform ext n t' v' hc = (hc', r') -> frame t h hc').
  { intros t' v' hc hc' r' Hfr Ht' Hrun'.
    eapply frame_nested; eauto. eapply IH; [|exact Hrun'].
    destruct Ht' as [Ht'|Ht'].
    - eapply of_template_allocated; eauto.
    - eapply made_up_allocated; eauto. }
  assert (Hspec : spec h t
            (mbind (cloneDeep v) (fun output =>
             mbind (object_keys t) (fun keys =>
             chain ext (transform ext n) t keys output))) (fun _ => True)).
  { eapply spec_bind; [apply spec_cloneDeep|]. intros output _.
    eapply spec_bind; [apply spec_object_keys|]. intros keys _.
    now apply spec_chain. }
  exact (proj1 (Hspec h h' r (frame_refl h t) Hrun)).
Qed.

Lemma mapM_agree {A B} (f g : A -> option B) l :
  (forall x, In x l -> f x = g x) -> mapM f l = mapM g l.
Proof.
  induction l as [|x l IH]; intros H; simpl; [reflexivity|].
  rewrite (H x) by now left. rewrite IH; [reflexivity|].
  intros y Hy. apply H. now right.
Qed.

(** The tree of a value depends on the objects it reaches only. *)
Lemma reify_agree h h' : forall k v,
  (forall l, reach h v l -> h' !! l = h !! l) -> reify k h' v = reify k h v.
Proof.
  induction k as [|k IH]; intros v Hsame; destruct v as [| |b|n|s|l]; try reflexivity.
  simpl. rewrite (Hsame l) by constructor.
  destruct (h !! l) as [[ps|xs]|] eqn:Hc; [| |reflexivity].
  - f_equal. apply mapM_agree. intros [key x] Hx. simpl.
    rewrite IH; [reflexivity|].
    intros l' Hl'. apply Hsame. destruct (reach_is_ref _ _ _ Hl') as [o ->].
    eapply reach_step; eauto. simpl. apply in_map_iff. exists (key, VRef o). auto.
  - f_equal. apply mapM_agree. intros x Hx.
    apply IH. intros l' Hl'. apply Hsame. destruct (reach_is_ref _ _ _ Hl') as [o ->].
    eapply reach_step; eauto.
Qed.

Lemma existsb_eqb_In l region : existsb (Nat.eqb l) region = true -> In l region.
Proof.
  intros H. apply existsb_exists in H as (x & Hx & Heq).
  apply Nat.eqb_eq in Heq. now subst.
Qed.

(** A closed region holds all that its objects reach. *)
Lemma reach_in_region h region v l :
  closed_region h region = true -> rooted region v = true ->
  reach h v l -> In l region.
Proof.
  intros Hclosed Hroot Hreach. induction Hreach as [l|l0 c l1 l2 Hc Hin Hreach IH].
  - now apply existsb_eqb_In.
  - apply IH. simpl. apply existsb_eqb_In in Hroot.
    unfold closed_region in Hclosed. rewrite forallb_forall in Hclosed.
    specialize (Hclosed l0 Hroot). rewrite Hc in Hclosed.
    rewrite forallb_forall in Hclosed. exact (Hclosed _ Hin).
Qed.

Lemma allocated_region h region v :
  closed_region h region = true -> rooted region v = true -> allocated h v.
Proof.
  intros Hclosed Hroot l Hl.
  pose proof (reach_in_region _ _ _ _ Hclosed Hroot Hl) as Hin.
  unfold closed_region in Hclosed. rewrite forallb_forall in Hclosed.
  specialize (Hclosed l Hin).
  destruct (h !! l) eqn:Hc; [|discriminate]. now apply lookup_lt_Some in Hc.
Qed.

Lemma separate_regions h rv rt v t :
  closed_region h rv = true -> rooted rv v = true ->
  closed_region h rt = true -> rooted rt t = true ->
  disjoint_regions rv rt = true -> separate h v t.
Proof.
  intros Hcv Hv Hct Ht Hdis l Hlv Hlt.
  pose proof (reach_in_region _ _ _ _ Hcv Hv Hlv) as Hin_v.
  pose proof (reach_in_region _ _ _ _ Hct Ht Hlt) as Hin_t.
  unfold disjoint_regions in Hdis. rewrite forallb_forall in Hdis.
  specialize (Hdis l Hin_v). apply negb_true_iff in Hdis.
  assert (existsb (Nat.eqb l) rt = true); [|congruence].
  apply existsb_exists. exists l. split; [assumption | apply Nat.eqb_refl].
Qed.

(** C9, as the code has it.  When the input has no object in common with
    the template, the input is after [transform], whether it returned or
    threw, the tree it was before: the operators work on a copy, and the
    one write to an object that was there before, the defaults of
    [hash], goes to an object of the template. *)
Theorem transform_keeps_separate_input (ext : externals) (n : nat) (t v : val)
        (h h' : heap) (r : result val) :
  allocated h t -> allocated h v -> separate h v t ->
  transform ext n t v h = (h', r) ->
  forall k, reify k h' v = reify k h v.
Proof.
  intros Ht Hv Hsep Hrun k.
  destruct (transform_frame ext n t v h h' r Ht Hrun) as [Hlen Hcells].
  apply reify_agree. intros l Hl.
  destruct (lookup_lt_is_Some_2 h l (Hv l Hl)) as [c Hc].
  destruct (Hcells l c Hc) as (c' & Hc' & _ & Hkeep).
  rewrite Hc, Hc'. f_equal. apply Hkeep. now apply Hsep.
Qed.

Lemma transform_keeps_separate_input_witness :
  reify 4 (fst (transform Samples.libraries 2 (VRef 2) (VRef 0) Samples.bail_heap)) (VRef 0)
  = reify 4 Samples.bail_heap (VRef 0).
Proof.
  apply (transform_keeps_separate_input Samples.libraries 2 (VRef 2) (VRef 0)
           Samples.bail_heap
           (fst (transform Samples.libraries 2 (VRef 2) (VRef 0) Samples.bail_heap))
           (snd (transform Samples.libraries 2 (VRef 2) (VRef 0) Samples.bail_heap))).
  - apply (allocated_region _ [2; 1]); reflexivity.
  - apply (allocated_region _ [0]); reflexivity.
  - apply (separate_regions _ [0] [2; 1]); reflexivity.
  - reflexivity.
Defined.

(** C9, the claim as stated fails.  The template [{hash: o}] applied
    to the object [o] itself: the input is the empty object before, and
    has the two defaults of [hash] after. *)
Lemma hash_defaults_reach_shared_input :
  reify 1 Samples.alias_heap (VRef 0) = Some (JObj [])
  /\ exists h',
      transform Samples.libraries 1 (VRef 1) (VRef 0) Samples.alias_heap
      = (h', Ok (VStr "digest of {}"))
      /\ reify 1 h' (VRef 0)
         = Some (JObj [("encoding", JStr "hex"); ("algorithm", JStr "md5")]).
Proof. split; [reflexivity|]. eexists. split; reflexivity. Qed.

End TransformationFacts.

(* ================================================================== *)
(** * Further properties *)

(** ** Query *)

Module QueryMore.
Import Query QueryFields Reference.

(** X1.  When no argument has a [?] or a [$] in its JSON text, argument
    injection is positional binding: the i-th [?] of the query is
    replaced by the JSON text of the i-th argument, placeholders without
    argument stay, and arguments without placeholder are dropped. *)
Theorem injectArguments_positional (q : string) (args : list json) :
  Forall plain_argument args ->
  injectArguments (Text q) (JArr args) = Ok (Text (bind_positional q args)).
Proof. intros H. simpl. now apply QueryLemmas.inject_each_positional. Qed.

Lemma injectArguments_positional_witness :
  injectArguments (Text "{a(x:?,y:?,z:?)}") (JArr [JStr "a"; JNum 1])
  = Ok (Text (bind_positional "{a(x:?,y:?,z:?)}" [JStr "a"; JNum 1])).
Proof.
  apply (injectArguments_positional "{a(x:?,y:?,z:?)}" [JStr "a"; JNum 1]).
  repeat constructor.
Defined.

(** X2.  The constructor hands the parser the query with its arguments
    bound.  What the parser returns is the parsed query; what the parser
    throws is rethrown as a query error with the same message. *)
Theorem constructor_parses_bound_query (Parser : string -> result parsed)
        (q : string) (c : option context) (args : list json) :
  Forall plain_argument args ->
  (forall p, Parser (bind_positional q args) = Ok p ->
             constructor Parser (Text q) (WithContext c (JArr args))
             = Ok {| query := Text (bind_positional q args);
                     context_of := c; parsed_of := p |}
             /\ constructor Parser (Text q) (WithoutContext args)
                = Ok {| query := Text (bind_positional q args);
                        context_of := None; parsed_of := p |})
  /\ (forall msg, Parser (bind_positional q args) = Throw (Error msg) ->
                  constructor Parser (Text q) (WithContext c (JArr args))
                  = Throw (QueryError [(None, msg)])).
Proof.
  intros Hplain.
  assert (Hinj : injectArguments (Text q) (JArr args) = Ok (Text (bind_positional q args))).
  { simpl. now apply QueryLemmas.inject_each_positional. }
  split.
  - intros p Hp. unfold constructor. rewrite Hinj, Hp. split; reflexivity.
  - intros msg Hp. unfold constructor. rewrite Hinj, Hp. reflexivity.
Qed.

Lemma constructor_parses_bound_query_witness :
  (forall p, (fun _ => Throw (Error "Unexpected token")) (bind_positional "{a(x:?" [JNum 1])
             = Ok p ->
             constructor (fun _ => Throw (Error "Unexpected token")) (Text "{a(x:?")
                         (WithContext None (JArr [JNum 1]))
             = Ok {| query := Text (bind_positional "{a(x:?" [JNum 1]);
                     context_of := None; parsed_of := p |}
             /\ constructor (fun _ => Throw (Error "Unexpected token")) (Text "{a(x:?")
                            (WithoutContext [JNum 1])
                = Ok {| query := Text (bind_positional "{a(x:?" [JNum 1]);
                        context_of := None; parsed_of := p |})
  /\ (forall msg, (fun _ => Throw (Error "Unexpected token")) (bind_positional "{a(x:?" [JNum 1])
                  = (Throw (Error msg) : result parsed) ->
                  constructor (fun _ => Throw (Error "Unexpected token")) (Text "{a(x:?")
                              (WithContext None (JArr [JNum 1]))
                  = Throw (QueryError [(None, msg)])).
Proof.
  apply (constructor_parses_bound_query (fun _ => Throw (Error "Unexpected token"))
           "{a(x:?" None [JNum 1]).
  repeat constructor.
Defined.

(** *** Method names *)

Lemma span_sound p : forall s a b,
  span p s = (a, b) ->
  s = a ++ b /\ string_forall p a = true
  /\ match b with String c _ => p c = false | EmptyString => True end.
Proof.
  induction s as [|c s IH]; intros a b H; simpl in H.
  - inversion H; subst. auto.
  - destruct (p c) eqn:Hc.
    + destruct (span p s) as [a' b'] eqn:E. inversion H; subst.
      destruct (IH a' b eq_refl) as (-> & Ha & Hb).
      simpl. rewrite Hc, Ha. auto.
    + inversion H; subst. simpl. auto.
Qed.

Lemma span_complete p a b :
  string_forall p a = true ->
  match b with String c _ => p c = false | EmptyString => True end ->
  span p (a ++ b) = (a, b).
Proof.
  intros Ha Hb. induction a as [|c a IH]; simpl in *.
  - destruct b as [|c b]; [reflexivity|]. simpl. now rewrite Hb.
  - apply andb_prop in Ha as [Hc Ha]. rewrite Hc, (IH Ha). reflexivity.
Qed.

Lemma upper_not_lower c : is_upper c = true -> is_lower c = false.
Proof.
  unfold is_upper, is_lower, ascii_in. intros H.
  apply andb_prop in H as [_ H]. apply Nat.leb_le in H.
  change (nat_of_ascii "Z") with 90 in H. change (nat_of_ascii "a") with 97.
  apply andb_false_iff. left. apply Nat.leb_gt. lia.
Qed.

(** X3.  A name is a method name exactly when it is an entity, which
    starts with a capital and goes on with word characters, with or
    without a run of lower-case letters before it; the run is the
    operation, and the two parts are unique. *)
Theorem match_method_name_iff (s : string) (op : option string) (entity : string) :
  match_method_name s = Some (op, entity)
  <-> s = default EmptyString op ++ entity
      /\ (forall o, op = Some o -> o <> EmptyString /\ string_forall is_lower o = true)
      /\ exists c tail, entity = String c tail /\ is_upper c = true
                        /\ string_forall is_word tail = true.
Proof.
  unfold match_method_name. split.
  - destruct (span is_lower s) as [lower rest] eqn:E.
    destruct (span_sound _ _ _ _ E) as (-> & Hlower & _).
    destruct rest as [|c tail]; [discriminate|].
    destruct (is_upper c && string_forall is_word tail) eqn:Hc; [|discriminate].
    apply andb_prop in Hc as [Hc Htail]. intros H. inversion H; subst. clear H.
    split; [|split].
    + destruct lower; reflexivity.
    + intros o Ho. destruct lower; inversion Ho; subst. split; [discriminate | assumption].
    + eauto.
  - intros (-> & Hop & c & tail & -> & Hc & Htail).
    assert (Hspan : span is_lower (default EmptyString op ++ String c tail)
                    = (default EmptyString op, String c tail)).
    { apply span_complete; [|now apply upper_not_lower].
      destruct op as [o|]; [|reflexivity]. simpl. now apply Hop. }
    rewrite Hspan, Hc, Htail. simpl.
    destruct op as [o|]; simpl; [|reflexivity].
    destruct (Hop o eq_refl) as [Hne _]. destruct o; [contradiction | reflexivity].
Qed.

End QueryMore.


Module QueryCalls.
Import Query QueryFields.

Lemma bind_current_user_calls handler ctx operation entity m e :
  In e (trace handler (bind_current_user ctx operation entity m)) ->
  execute_call e = None /\ access_call e = None /\ ctx <> None.
Proof.
  unfold bind_current_user.
  destruct (_ && _) eqn:Hcond; [|intros []].
  assert (ctx <> None).
  { intros ->. now rewrite andb_false_r in Hcond. }
  simpl. intros [<-|Hin]; [auto|].
  exfalso. revert Hin. rewrite trace_bind.
  destruct (js_get (handler json GetUser) "id") as [err|id]; simpl; [tauto|].
  destruct (truthy id); simpl; tauto.
Qed.

(** X4.  A query without context never asks the context anything: no
    access check and no look at the user, whatever the models answer. *)
Theorem callMethod_context_free (handler : forall R, call R -> R) (m : method) :
  forallb (fun e => negb (uses_context e)) (trace handler (callMethod None m)) = true.
Proof.
  unfold callMethod. destruct (match_method_name (name m)) as [[op entity]|]; [|reflexivity].
  assert (bind_current_user None (operation_of op) entity m = Ret m) as ->.
  { unfold bind_current_user. now rewrite andb_false_r. }
  simpl. unfold dispatch, await. simpl.
  destruct (handler _ (ModelsHas entity)) as [err|[|]]; simpl; try reflexivity.
  destruct (handler _ (ModelsGet entity)) as [err|md]; simpl; try reflexivity.
  destruct (has_function md (operation_of op) && _); simpl; try reflexivity.
  destruct (handler _ (Execute md _ _ _)); reflexivity.
Qed.

(** X5.  The model is asked to execute only when everything before went
    well: the name is a method name, the entity exists, the access check
    (when there is a context) was answered with a truthy value, and the
    model has both the operation and its [execute] function.  The
    function is named after the operation, [delete] being [remove], and
    gets the params and the field names of the method. *)
Theorem execute_only_when_granted (handler : forall R, call R -> R)
        (ctx : option context) (m : method) (e : {R & call R})
        (md : model) (fn : string) (ps : json) (fns : list string) :
  In e (trace handler (callMethod ctx m)) ->
  execute_call e = Some (md, fn, ps, fns) ->
  exists op entity m1,
    match_method_name (name m) = Some (op, entity)
    /\ run handler (bind_current_user ctx (operation_of op) entity m) = Ok m1
    /\ handler _ (ModelsHas entity) = Ok true
    /\ handler _ (ModelsGet entity) = Ok md
    /\ (ctx <> None ->
        exists answer,
          handler _ (Access md (operation_of op)
                            (access_data (operation_of op) (params m1)) JNull) = Ok answer
          /\ truthy answer = true)
    /\ has_function md (operation_of op) = true
    /\ has_function md fn = true
    /\ fn = "execute" ++ capitalize (operation_of op)
    /\ ps = JObj (params m1)
    /\ fns = fieldNames m1.
Proof.
  unfold callMethod. intros Hin He.
  destruct (match_method_name (name m)) as [[op entity]|]; [|destruct Hin].
  exists op, entity. rewrite trace_bind in Hin. apply in_app_or in Hin as [Hin|Hin].
  { apply bind_current_user_calls in Hin as (Hnone & _). congruence. }
  destruct (run handler (bind_current_user ctx (operation_of op) entity m))
    as [err|m1]; [destruct Hin|].
  exists m1. split; [reflexivity|]. split; [reflexivity|].
  unfold dispatch, await in Hin. simpl in Hin.
  destruct Hin as [<-|Hin]; [discriminate|].
  destruct (handler _ (ModelsHas entity)) as [err|[|]]; simpl in Hin; try contradiction.
  split; [reflexivity|].
  destruct Hin as [<-|Hin]; [discriminate|].
  destruct (handler _ (ModelsGet entity)) as [err|md']; simpl in Hin; try contradiction.
  assert (Hrest : forall access,
             truthy access = true \/ ctx = None ->
             In e (trace handler
                     (if negb (truthy access)
                      then Raise (QueryError [(None, "permission denied")])
                      else
                        if has_function md' (operation_of op)
                           && has_function md' ("execute" ++ capitalize (operation_of op))
                        then bind (await (Execute md' ("execute" ++ capitalize (operation_of op))
                                                  (JObj (params m1)) (fieldNames m1)))
                                  (fun data => Ret (m1, Some (md', data)))
                        else Raise (Error ("Operation " ++ operation_of op
                                           ++ " is not supported by model")))) ->
             md' = md /\ has_function md (operation_of op) = true
             /\ has_function md fn = true
             /\ fn = "execute" ++ capitalize (operation_of op)
             /\ ps = JObj (params m1) /\ fns = fieldNames m1).
  { intros access _ Hin'.
    destruct (negb (truthy access)); [destruct Hin'|].
    destruct (has_function md' (operation_of op)) eqn:H1; [|destruct Hin'].
    destruct (has_function md' ("execute" ++ capitalize (operation_of op))) eqn:H2;
      [|destruct Hin'].
    simpl in Hin'. destruct Hin' as [<-|Hin'].
    - inversion He; subst. repeat split; try reflexivity; assumption.
    - destruct (handler _ (Execute md' _ _ _)); destruct Hin'. }
  destruct ctx as [c|].
  - simpl in Hin. destruct Hin as [<-|Hin]; [discriminate|].
    destruct (handler _ (Access md' _ _ JNull)) as [err|answer] eqn:Hanswer;
      simpl in Hin; try contradiction.
    destruct (truthy answer) eqn:Htruthy; simpl in Hin; [|contradiction].
    destruct (Hrest answer (or_introl Htruthy)) as (-> & H1 & H2 & H3 & H4 & H5).
    { rewrite Htruthy. exact Hin. }
    repeat split; auto. intros _. exists answer. split; [exact Hanswer | exact Htruthy].
  - simpl in Hin.
    destruct (Hrest (JBool true) (or_intror eq_refl)) as (-> & H1 & H2 & H3 & H4 & H5).
    { exact Hin. }
    repeat split; auto. intros H. contradiction.
Qed.

Lemma execute_only_when_granted_witness :
  exists op entity m1,
    match_method_name (name MoreSamples.deletePost) = Some (op, entity)
    /\ run (MoreSamples.handler true MoreSamples.full_model MoreSamples.all_but_secret)
           (bind_current_user (Some Samples.someone) (operation_of op) entity
                              MoreSamples.deletePost) = Ok m1
    /\ MoreSamples.handler true MoreSamples.full_model MoreSamples.all_but_secret _
         (ModelsHas entity) = Ok true
    /\ MoreSamples.handler true MoreSamples.full_model MoreSamples.all_but_secret _
         (ModelsGet entity) = Ok MoreSamples.full_model
    /\ (Some Samples.someone <> None ->
        exists answer,
          MoreSamples.handler true MoreSamples.full_model MoreSamples.all_but_secret _
            (Access MoreSamples.full_model (operation_of op)
                    (access_data (operation_of op) (params m1)) JNull) = Ok answer
          /\ truthy answer = true)
    /\ has_function MoreSamples.full_model (operation_of op) = true
    /\ has_function MoreSamples.full_model "executeRemove" = true
    /\ "executeRemove" = "execute" ++ capitalize (operation_of op)
    /\ JObj [("id", JNum 3)] = JObj (params m1)
    /\ ["id"] = fieldNames m1.
Proof.
  apply (execute_only_when_granted
           (MoreSamples.handler true MoreSamples.full_model MoreSamples.all_but_secret)
           (Some Samples.someone) MoreSamples.deletePost
           (existT _ (Execute MoreSamples.full_model "executeRemove"
                              (JObj [("id", JNum 3)]) ["id"]))
           MoreSamples.full_model "executeRemove" (JObj [("id", JNum 3)]) ["id"]).
  - right. right. right. left. reflexivity.
  - reflexivity.
Defined.

End QueryCalls.


Module QueryResults.
Import Query QueryFields.
Import AuthenticationFacts.

Section Dispatch.
Variable handler : forall R, call R -> R.
Variable ctx : option context.
Variable m m1 : method.
Variable op : option string.
Variable entity : string.
Hypothesis name_parses : match_method_name (name m) = Some (op, entity).
Hypothesis user_bound :
  run handler (bind_current_user ctx (operation_of op) entity m) = Ok m1.

Lemma run_callMethod :
  run handler (callMethod ctx m) = run handler (dispatch ctx (operation_of op) entity m1).
Proof. unfold callMethod. now rewrite name_parses, run_bind, user_bound. Qed.

(** X6.  A method of an entity that has passed the access check (or runs
    without context) on a model that has the operation and its [execute]
    function resolves to the model and what the function returned; the
    function of [deleteX] is [executeRemove]. *)
Theorem callMethod_executes (md : model) (data : json) :
  handler _ (ModelsHas entity) = Ok true ->
  handler _ (ModelsGet entity) = Ok md ->
  (ctx = None \/
   exists answer,
     handler _ (Access md (operation_of op)
                       (access_data (operation_of op) (params m1)) JNull) = Ok answer
     /\ truthy answer = true) ->
  has_function md (operation_of op) = true ->
  has_function md ("execute" ++ capitalize (operation_of op)) = true ->
  handler _ (Execute md ("execute" ++ capitalize (operation_of op))
                     (JObj (params m1)) (fieldNames m1)) = Ok data ->
  run handler (callMethod ctx m) = Ok (m1, Some (md, data)).
Proof.
  intros Hhas Hget Hgranted H1 H2 Hexec. rewrite run_callMethod.
  unfold dispatch. rewrite run_bind, run_await, Hhas.
  rewrite run_bind, run_await, Hget. rewrite run_bind.
  assert (Hgo : forall access, truthy access = true ->
             run handler
               (if negb (truthy access)
                then Raise (QueryError [(None, "permission denied")])
                else
                  if has_function md (operation_of op)
                     && has_function md ("execute" ++ capitalize (operation_of op))
                  then bind (await (Execute md ("execute" ++ capitalize (operation_of op))
                                            (JObj (params m1)) (fieldNames m1)))
                            (fun data => Ret (m1, Some (md, data)))
                  else Raise (Error ("Operation " ++ operation_of op
                                     ++ " is not supported by model")))
             = Ok (m1, Some (md, data))).
  { intros access ->. cbn [negb]. rewrite H1, H2. cbn [andb].
    now rewrite run_bind, run_await, Hexec. }
  destruct Hgranted as [->|(answer & Hanswer & Htruthy)].
  - cbn [run]. now apply Hgo.
  - destruct ctx; [rewrite run_await, Hanswer | cbn [run]]; now apply Hgo.
Qed.

(** X7.  An entity that the models do not know makes the method resolve
    to nothing, without access check.  A model that lacks the operation
    or its [execute] function makes it fail, after the access check,
    with "Operation ... is not supported by model", where the operation
    is the one after renaming ([remove] for [delete]). *)
Theorem callMethod_missing (md : model) :
  (handler _ (ModelsHas entity) = Ok false ->
   run handler (callMethod ctx m) = Ok (m1, None)
   /\ Forall (fun e => access_call e = None) (trace handler (callMethod ctx m)))
  /\ (handler _ (ModelsHas entity) = Ok true ->
      handler _ (ModelsGet entity) = Ok md ->
      (ctx = None \/
       exists answer,
         handler _ (Access md (operation_of op)
                           (access_data (operation_of op) (params m1)) JNull) = Ok answer
         /\ truthy answer = true) ->
      has_function md (operation_of op)
      && has_function md ("execute" ++ capitalize (operation_of op)) = false ->
      run handler (callMethod ctx m)
      = Throw (Error ("Operation " ++ operation_of op ++ " is not supported by model"))).
Proof.
  split.
  - intros Hhas. split.
    + rewrite run_callMethod. unfold dispatch. now rewrite run_bind, run_await, Hhas.
    + unfold callMethod. rewrite name_parses, trace_bind, user_bound.
      apply Forall_app. split.
      * apply List.Forall_forall. intros e He.
        now apply QueryCalls.bind_current_user_calls in He.
      * unfold dispatch, await. simpl. rewrite Hhas. simpl. repeat constructor.
  - intros Hhas Hget Hgranted Hlacks. rewrite run_callMethod.
    unfold dispatch. rewrite run_bind, run_await, Hhas.
    rewrite run_bind, run_await, Hget. rewrite run_bind.
    destruct Hgranted as [->|(answer & Hanswer & Htruthy)].
    + cbn [run truthy negb]. now rewrite Hlacks.
    + destruct ctx; [rewrite run_await, Hanswer; rewrite Htruthy
                    | cbn [run truthy]]; cbn [negb]; now rewrite Hlacks.
Qed.

End Dispatch.

Lemma callMethod_executes_witness :
  run (MoreSamples.handler true MoreSamples.full_model MoreSamples.all_but_secret)
      (callMethod (Some Samples.someone) MoreSamples.deletePost)
  = Ok (MoreSamples.deletePost, Some (MoreSamples.full_model, JArr [])).
Proof.
  apply (callMethod_executes
           (MoreSamples.handler true MoreSamples.full_model MoreSamples.all_but_secret)
           (Some Samples.someone) MoreSamples.deletePost MoreSamples.deletePost
           (Some "delete") "Post" eq_refl eq_refl MoreSamples.full_model (JArr []));
    try reflexivity.
  right. exists (JBool true). split; reflexivity.
Defined.

Lemma callMethod_missing_witness :
  run (MoreSamples.handler true MoreSamples.read_only_model MoreSamples.all_but_secret)
      (callMethod (Some Samples.someone) MoreSamples.deletePost)
  = Throw (Error ("Operation " ++ operation_of (Some "delete")
                  ++ " is not supported by model")).
Proof.
  apply (proj2 (callMethod_missing
                  (MoreSamples.handler true MoreSamples.read_only_model
                                       MoreSamples.all_but_secret)
                  (Some Samples.someone) MoreSamples.deletePost MoreSamples.deletePost
                  (Some "delete") "Post" eq_refl eq_refl MoreSamples.read_only_model));
    try reflexivity.
  right. exists (JBool true). split; reflexivity.
Defined.

(** X8.  A read of [User] without params, run with a context, is a read
    of the caller: when the user of the context has a truthy id, the id
    becomes the only param of the method, and the access check is asked
    about that id. *)
Theorem callMethod_binds_current_user (handler : forall R, call R -> R) (c : context)
        (m : method) (op : option string) (uid : json) (md : model) :
  match_method_name (name m) = Some (op, "User") ->
  operation_of op = "read" ->
  params m = [] ->
  js_get (handler _ GetUser) "id" = Ok uid ->
  truthy uid = true ->
  handler _ (ModelsHas "User") = Ok true ->
  handler _ (ModelsGet "User") = Ok md ->
  run handler (bind_current_user (Some c) "read" "User" m)
  = Ok (set_params m [("id", uid)])
  /\ In (existT _ (Access md "read" (JObj [("id", uid)]) JNull))
        (trace handler (callMethod (Some c) m)).
Proof.
  intros Hname Hop Hparams Hid Htruthy Hhas Hget.
  assert (Hbind : run handler (bind_current_user (Some c) "read" "User" m)
                  = Ok (set_params m [("id", uid)])).
  { unfold bind_current_user. rewrite Hparams.
    change (String.eqb "read" "read") with true.
    change (String.eqb "User" "User") with true. cbn [length Nat.eqb andb run].
    rewrite run_bind, AuthenticationFacts.run_lift, Hid. now rewrite Htruthy. }
  split; [exact Hbind|].
  unfold callMethod. rewrite Hname, Hop, trace_bind, Hbind.
  apply in_or_app. right.
  unfold dispatch, await. simpl. rewrite Hhas. simpl. rewrite Hget. simpl.
  right. right. left.
  assert (uid <> JUndefined) by (intros ->; discriminate).
  unfold access_data. simpl. destruct uid; try reflexivity. contradiction.
Qed.

Lemma callMethod_binds_current_user_witness :
  run (MoreSamples.handler true MoreSamples.full_model MoreSamples.all_but_secret)
      (bind_current_user (Some Samples.someone) "read" "User" MoreSamples.currentUser)
  = Ok (set_params MoreSamples.currentUser [("id", JNum 7)])
  /\ In (existT _ (Access MoreSamples.full_model "read" (JObj [("id", JNum 7)]) JNull))
        (trace (MoreSamples.handler true MoreSamples.full_model MoreSamples.all_but_secret)
               (callMethod (Some Samples.someone) MoreSamples.currentUser)).
Proof.
  apply (callMethod_binds_current_user
           (MoreSamples.handler true MoreSamples.full_model MoreSamples.all_but_secret)
           Samples.someone MoreSamples.currentUser None (JNum 7) MoreSamples.full_model);
    reflexivity.
Defined.

(** *** [checkFieldPermissions] *)

Section Fields.
Variable handler : forall R, call R -> R.
Variable md : model.
Variable operation : string.
Variable id : json.
Variable answer : string -> json.
Hypothesis answers : forall field,
  handler _ (Access md operation (JObj [("id", id)]) (JStr field)) = Ok (answer field).

Lemma reduce_fields_run fields : forall access errors,
  run handler (reduce_fields md operation id fields access errors)
  = Ok (if forallb (fun f => truthy (answer f)) fields then access else JBool false,
        (errors ++ map (fun f => [(f, "permission denied")])
                       (List.filter (fun f => negb (truthy (answer f))) fields))%list)
  /\ trace handler (reduce_fields md operation id fields access errors)
     = map (check_of md operation id) fields.
Proof.
  induction fields as [|f fields IH]; intros access errors; simpl.
  - now rewrite app_nil_r.
  - unfold await. simpl. rewrite answers. simpl.
    destruct (truthy (answer f)) eqn:Hf; simpl.
    + destruct (IH access errors) as [-> ->]. auto.
    + destruct (IH (JBool false) (errors ++ [[(f, "permission denied")]])%list) as [-> ->].
      rewrite <- app_assoc. simpl.
      destruct (forallb _ fields); auto.
Qed.

(** X9.  With a context, the fields are checked one after the other,
    all but the first one: the first field name is what the reduction
    starts with.  The check is granted when there is a first field and
    every later field is answered with a truthy value; otherwise it
    fails with one error for each field that was denied, so with no
    error at all when no field was asked for.  A single field is never
    checked. *)
Theorem checkFieldPermissions_outcome (c : context) (fieldNames : list string) :
  trace handler (checkFieldPermissions (Some c) md id fieldNames operation)
  = map (check_of md operation id) (tl fieldNames)
  /\ run handler (checkFieldPermissions (Some c) md id fieldNames operation)
     = Ok (match fieldNames with
           | [] => Denied []
           | first :: rest =>
             if truthy (JStr first) && forallb (fun f => truthy (answer f)) rest
             then Granted
             else Denied (map (fun f => [(f, "permission denied")])
                              (List.filter (fun f => negb (truthy (answer f))) rest))
           end).
Proof.
  unfold checkFieldPermissions. destruct fieldNames as [|first rest].
  - split; reflexivity.
  - destruct (reduce_fields_run rest (JStr first) []) as [Hrun Htrace].
    rewrite trace_bind, run_bind, Hrun, Htrace. cbn [fst snd tl].
    split.
    + destruct (truthy _); simpl; now rewrite app_nil_r.
    + destruct (forallb _ rest); cbn [app].
      * destruct (truthy (JStr first)); reflexivity.
      * rewrite andb_false_r. reflexivity.
Qed.

End Fields.

Lemma checkFieldPermissions_outcome_witness :
  trace (MoreSamples.handler true MoreSamples.full_model MoreSamples.all_but_secret)
        (checkFieldPermissions (Some Samples.someone) MoreSamples.full_model (JNum 3)
                               ["secret"; "title"; "secret"] "read")
  = map (check_of MoreSamples.full_model "read" (JNum 3)) ["title"; "secret"]
  /\ run (MoreSamples.handler true MoreSamples.full_model MoreSamples.all_but_secret)
         (checkFieldPermissions (Some Samples.someone) MoreSamples.full_model (JNum 3)
                                ["secret"; "title"; "secret"] "read")
     = Ok (Denied [[("secret", "permission denied")]]).
Proof.
  apply (checkFieldPermissions_outcome
           (MoreSamples.handler true MoreSamples.full_model MoreSamples.all_but_secret)
           MoreSamples.full_model "read" (JNum 3) MoreSamples.all_but_secret
           (fun field => eq_refl) Samples.someone ["secret"; "title"; "secret"]).
Defined.

End QueryResults.


Module AuthenticationMore.
Import Authentication TokenRequest.
Import AuthenticationFacts.

Lemma trace_lift {E A} (handler : forall R, E R -> R) (r : result A) :
  trace handler (lift r : prog E A) = [].
Proof. destruct r; reflexivity. Qed.

Lemma trace_await {E A} (handler : forall R, E R -> R) (c : E (result A)) :
  trace handler (await c) = [existT _ c].
Proof. unfold await. simpl. destruct (handler _ c); reflexivity. Qed.

Lemma basic_not_bearer header credential :
  match_scheme "Basic" header = Some credential -> match_scheme "Bearer" header = None.
Proof.
  unfold match_scheme. intros H.
  destruct (strip_prefix ("Basic" ++ " ") header) as [rest|] eqn:E; [|discriminate].
  apply strip_prefix_sound in E. subst header. reflexivity.
Qed.

Section Hook.
Variable opts : options.
Variable ext : externals.
Variable handler : forall R, call R -> R.

Lemma basic_context header c0 c1 :
  basic opts ext header c0 = Ok c1 -> c1 = None \/ c1 = c0.
Proof.
  unfold basic. destruct (match_scheme "Basic" header); [|intros [= <-]; auto].
  destruct (negb _); [|intros [= <-]; auto].
  destruct (isValid ext _ _) as [e|[|]]; intros [= <-]; auto.
Qed.

Lemma authenticate_without_bearer (authorization : option string) :
  match_scheme "Bearer" (default EmptyString authorization) = None ->
  trace handler (authenticate opts ext authorization) = []
  /\ run handler (authenticate opts ext authorization)
     = basic opts ext (default EmptyString authorization) (Some {| user := None |}).
Proof.
  intros Hm. unfold authenticate. rewrite Hm. split.
  - rewrite trace_bind, trace_lift, run_lift. destruct (basic _ _ _ _); reflexivity.
  - rewrite run_bind, run_lift. destruct (basic _ _ _ _); reflexivity.
Qed.

(** X10.  The storage is asked for Bearer headers only: with any other
    header, or without one, the hook makes no call, its outcome is that
    of the Basic branch alone, and a context it leaves has no user. *)
Theorem storage_only_for_bearer (authorization : option string) :
  match_scheme "Bearer" (default EmptyString authorization) = None ->
  trace handler (authenticate opts ext authorization) = []
  /\ run handler (authenticate opts ext authorization)
     = basic opts ext (default EmptyString authorization) (Some {| user := None |})
  /\ forall c, run handler (authenticate opts ext authorization) = Ok (Some c) ->
               user c = None.
Proof.
  intros Hm. destruct (authenticate_without_bearer authorization Hm) as [Ht Hrun].
  split; [exact Ht | split; [exact Hrun|]].
  intros c Hc. rewrite Hrun in Hc.
  apply basic_context in Hc as [Hc|Hc]; [discriminate|]. now inversion Hc.
Qed.

(** X11.  With a Bearer header, the hook asks the storage once, for the
    user fields joined by spaces, with the token as the only argument;
    when the answer has rows, the user of the first row becomes the user
    of the context, whatever the other rows are. *)
Theorem bearer_attaches_first_user (header token : string) (result row u : json)
        (more : list json) :
  match_scheme "Bearer" header = Some token ->
  handler _ (StorageQuery
               ("{token:listAuthnToken(token:?){user{"
                ++ join_with " " (userFields opts) ++ "}}}") [JStr token]) = Ok result ->
  js_get result "token" = Ok (JArr (row :: more)) ->
  js_get row "user" = Ok u ->
  run handler (authenticate opts ext (Some header)) = Ok (Some {| user := Some u |})
  /\ trace handler (authenticate opts ext (Some header))
     = [existT _ (StorageQuery
                    ("{token:listAuthnToken(token:?){user{"
                     ++ join_with " " (userFields opts) ++ "}}}") [JStr token])].
Proof.
  intros Hm Hq Hrows Hu.
  assert (Hbasic : basic opts ext header (Some {| user := None |})
                   = Ok (Some {| user := None |})).
  { unfold basic. now rewrite (bearer_not_basic _ _ Hm). }
  assert (Hlen : js_get (JArr (row :: more)) "length"
                 = Ok (JNum (Z.pos (Pos.of_succ_nat (length more))))) by reflexivity.
  assert (H0 : js_get (JArr (row :: more)) "0" = Ok row) by reflexivity.
  unfold authenticate. cbn [default from_option id]. rewrite Hm.
  rewrite run_bind, trace_bind, run_lift, trace_lift, Hbasic.
  unfold bearer, bearer_query.
  split.
  - rewrite run_bind, run_await, Hq, run_bind, run_lift, Hrows.
    rewrite run_bind, run_lift, Hlen.
    rewrite run_bind, run_lift, H0, run_bind, run_lift, Hu. reflexivity.
  - cbn [app]. rewrite trace_bind, trace_await, run_await, Hq.
    rewrite trace_bind, trace_lift, run_lift, Hrows.
    rewrite trace_bind, trace_lift, run_lift, Hlen.
    rewrite trace_bind, trace_lift, run_lift, H0.
    rewrite trace_bind, trace_lift, run_lift, Hu.
    rewrite trace_lift. reflexivity.
Qed.

(** X12.  A Basic credential whose user name has an entry in the admin
    table, other than the text "undefined", against which the password
    verifies, leaves the request without context, and the storage is not
    asked. *)
Theorem admin_mode_granted (header credential encoded : string) :
  match_scheme "Basic" header = Some credential ->
  assoc (default EmptyString (js_split ":" (base64_decode ext credential) !! 0%nat))
        (admins opts) = Some (JStr encoded) ->
  encoded <> "undefined" ->
  isValid ext (JStr encoded)
          (match js_split ":" (base64_decode ext credential) !! 1%nat with
           | Some p => JStr p
           | None => JUndefined
           end) = Ok true ->
  run handler (authenticate opts ext (Some header)) = Ok None
  /\ trace handler (authenticate opts ext (Some header)) = [].
Proof.
  intros Hm Hentry Hne Hvalid.
  assert (Hbasic : basic opts ext header (Some {| user := None |}) = Ok None).
  { unfold basic. rewrite Hm, Hentry. cbn [default from_option id is_string].
    destruct (String.eqb_spec "undefined" encoded) as [Heq|_]; [now subst|].
    cbn [negb]. now rewrite Hvalid. }
  destruct (authenticate_without_bearer (Some header)) as (Ht & Hr).
  { exact (basic_not_bearer _ _ Hm). }
  split; [rewrite Hr; exact Hbasic | exact Ht].
Qed.

End Hook.

Lemma storage_only_for_bearer_witness :
  trace (Samples.auth_handler [] []) (authenticate Samples.auth_options Samples.auth_externals None)
  = []
  /\ run (Samples.auth_handler [] [])
         (authenticate Samples.auth_options Samples.auth_externals None)
     = Ok (Some {| user := None |}).
Proof.
  destruct (storage_only_for_bearer Samples.auth_options Samples.auth_externals
                                    (Samples.auth_handler [] []) None eq_refl)
    as (Ht & Hr & _).
  split; [exact Ht | exact Hr].
Defined.

Lemma bearer_attaches_first_user_witness :
  run (Samples.auth_handler [AuthSamples.token_row; JNull] [])
      (authenticate Samples.auth_options Samples.auth_externals (Some "Bearer abc"))
  = Ok (Some {| user := Some (JObj [("id", JNum 7); ("admin", JBool false)]) |})
  /\ trace (Samples.auth_handler [AuthSamples.token_row; JNull] [])
           (authenticate Samples.auth_options Samples.auth_externals (Some "Bearer abc"))
     = [existT _ (StorageQuery "{token:listAuthnToken(token:?){user{id admin}}}"
                               [JStr "abc"])].
Proof.
  apply (bearer_attaches_first_user Samples.auth_options Samples.auth_externals
           (Samples.auth_handler [AuthSamples.token_row; JNull] [])
           "Bearer abc" "abc"
           (JObj [("token", JArr [AuthSamples.token_row; JNull]);
                  ("user", JArr [JObj [("id", JNum 7);
                                       ("password", JStr "hash:Welcome!")]])])
           AuthSamples.token_row (JObj [("id", JNum 7); ("admin", JBool false)]) [JNull]);
    reflexivity.
Defined.

Lemma admin_mode_granted_witness :
  run (Samples.auth_handler [] [])
      (authenticate Samples.auth_options Samples.auth_externals
                    (Some "Basic YWRtaW46c2VjcmV0")) = Ok None
  /\ trace (Samples.auth_handler [] [])
           (authenticate Samples.auth_options Samples.auth_externals
                         (Some "Basic YWRtaW46c2VjcmV0")) = [].
Proof.
  apply (admin_mode_granted Samples.auth_options Samples.auth_externals
           (Samples.auth_handler [] []) "Basic YWRtaW46c2VjcmV0" "YWRtaW46c2VjcmV0"
           "hash:secret"); try reflexivity.
  discriminate.
Defined.

End AuthenticationMore.


Module TokenFacts.
Import Authentication TokenRequest.
Import AuthenticationFacts AuthenticationMore.

Section Token.
Variable opts : options.
Variable ext : externals.
Variable handler : forall R, call R -> R.

Lemma user_query_mints_nothing args :
  mints (existT _ (StorageQuery (token_user_query opts) args)) = false.
Proof. reflexivity. Qed.

(** X13.  When the storage knows no user of that name, or the password
    does not verify against the first user it knows, [POST /token]
    answers with status 401 and an empty object, after the one query for
    the user: no random bytes are asked for and nothing is stored. *)
Theorem token_refused (request_body username result : json) (rows : list json) :
  js_get request_body "grant_type" = Ok (JStr "password") ->
  js_get request_body "username" = Ok username ->
  handler _ (StorageQuery (token_user_query opts) [username]) = Ok result ->
  js_get result "user" = Ok (JArr rows) ->
  (rows = [] \/
   exists row more encoded plain,
     rows = row :: more
     /\ js_get row "password" = Ok encoded
     /\ js_get request_body "password" = Ok plain
     /\ isValid ext encoded plain = Ok false) ->
  run handler (process_token opts ext request_body)
  = Ok (Some {| status := Some 401%Z; body := JObj [] |})
  /\ trace handler (process_token opts ext request_body)
     = [existT _ (StorageQuery (token_user_query opts) [username])].
Proof.
  intros Hgrant Huser Hq Husers Hcase.
  assert (Hgrant' : is_string (JStr "password") "password" = true) by reflexivity.
  unfold process_token.
  rewrite run_bind, trace_bind, run_lift, trace_lift, Hgrant, Hgrant'.
  rewrite run_bind, trace_bind, run_lift, trace_lift, Huser.
  rewrite run_bind, trace_bind, run_await, trace_await, Hq.
  rewrite run_bind, trace_bind, run_lift, trace_lift, Husers.
  rewrite run_bind, trace_bind, run_lift, trace_lift.
  destruct Hcase as [->|(row & more & encoded & plain & -> & Henc & Hplain & Hvalid)].
  - split; reflexivity.
  - assert (Hlen : js_get (JArr (row :: more)) "length"
                   = Ok (JNum (Z.pos (Pos.of_succ_nat (length more))))) by reflexivity.
    assert (H0 : js_get (JArr (row :: more)) "0" = Ok row) by reflexivity.
    rewrite Hlen. cbn [js_positive Z.ltb Z.compare].
    repeat (progress (rewrite ?run_bind, ?trace_bind, ?run_lift, ?trace_lift,
                              ?H0, ?Henc, ?Hplain, ?Hvalid)).
    split; reflexivity.
Qed.

(** What [process_token] does once the grant type is [password]. *)
Lemma process_token_password (request_body : json) :
  js_get request_body "grant_type" = Ok (JStr "password") ->
  process_token opts ext request_body
  = bind (lift (js_get request_body "username")) (fun username =>
    bind (await (StorageQuery (token_user_query opts) [username])) (fun result =>
    bind (lift (js_get result "user")) (fun users =>
    bind (lift (js_get users "length")) (fun len =>
    bind (if js_positive len then
            bind (lift (js_get users "0")) (fun row =>
            bind (lift (js_get row "password")) (fun encoded =>
            bind (lift (js_get request_body "password")) (fun plain =>
            lift (isValid ext encoded plain))))
          else Ret false) (fun valid =>
    bind (if valid : bool then
            Call (RandomBytes 32) (fun bytes =>
              bind (lift (js_get users "0")) (fun row =>
              bind (lift (js_get row "id")) (fun id =>
              bind (await (StorageQuery create_token_query [JStr (base64 bytes); id]))
                   (fun _ => Ret (Some (base64 bytes))))))
          else Ret None) (fun token =>
    match token with
    | Some tok =>
      if truthy (JStr tok)
      then Ret (Some {| status := None;
                        body := JObj [("access_token", JStr tok);
                                      ("token_type", JStr "bearer")] |})
      else Ret (Some {| status := Some 401%Z; body := JObj [] |})
    | None => Ret (Some {| status := Some 401%Z; body := JObj [] |})
    end)))))).
Proof. intros H. unfold process_token. rewrite H. reflexivity. Qed.

(** X14.  A token is only made for a verified password: whenever
    [POST /token] asks for random bytes or sends the [createAuthnToken]
    query, the storage has answered the query for the user, and the
    password of the request has verified against the password of the
    first user of that answer. *)
Theorem token_minted_after_verification (request_body : json) (e : {R & call R}) :
  In e (trace handler (process_token opts ext request_body)) ->
  mints e = true ->
  exists username result users row encoded plain,
    js_get request_body "username" = Ok username
    /\ handler _ (StorageQuery (token_user_query opts) [username]) = Ok result
    /\ js_get result "user" = Ok users
    /\ js_get users "0" = Ok row
    /\ js_get row "password" = Ok encoded
    /\ js_get request_body "password" = Ok plain
    /\ isValid ext encoded plain = Ok true.
Proof.
  intros Hin Hm. unfold process_token in Hin.
  rewrite trace_bind, trace_lift, run_lift in Hin.
  destruct (js_get request_body "grant_type") as [?|g]; [contradiction|].
  cbn [app] in Hin. destruct (is_string g "password"); [|contradiction].
  rewrite trace_bind, trace_lift, run_lift in Hin.
  destruct (js_get request_body "username") as [?|username] eqn:Huser; [contradiction|].
  cbn [app] in Hin. rewrite trace_bind, trace_await, run_await in Hin.
  destruct Hin as [<-|Hin]; [now rewrite user_query_mints_nothing in Hm|].
  destruct (handler _ (StorageQuery (token_user_query opts) [username]))
    as [?|result] eqn:Hq; [contradiction|].
  rewrite trace_bind, trace_lift, run_lift in Hin.
  destruct (js_get result "user") as [?|users] eqn:Husers; [contradiction|].
  cbn [app] in Hin. rewrite trace_bind, trace_lift, run_lift in Hin.
  destruct (js_get users "length") as [?|len]; [contradiction|].
  cbn [app] in Hin. rewrite trace_bind in Hin.
  destruct (js_positive len).
  - rewrite trace_bind, trace_lift, run_bind, run_lift in Hin.
    destruct (js_get users "0") as [?|row] eqn:H0; [contradiction|].
    rewrite trace_bind, trace_lift, run_bind, run_lift in Hin.
    destruct (js_get row "password") as [?|encoded] eqn:Henc; [contradiction|].
    rewrite trace_bind, trace_lift, run_bind, run_lift in Hin.
    destruct (js_get request_body "password") as [?|plain] eqn:Hplain; [contradiction|].
    rewrite trace_lift, run_lift in Hin. cbn [app] in Hin.
    destruct (isValid ext encoded plain) as [?|[|]] eqn:Hvalid; [contradiction| |].
    + exists username, result, users, row, encoded, plain. repeat split; assumption.
    + rewrite trace_bind in Hin. cbn [trace run app] in Hin. contradiction.
  - cbn [trace run app bind] in Hin. contradiction.
Qed.

(** X15.  A request body that is there and that the validator of
    [POST /token] accepts has the grant type [password] and a text as
    user name, so that the handler asks the storage for the user with
    that name first, and never finishes without a response. *)
Theorem validated_token_request (request_body : json) :
  request_body <> JUndefined ->
  tokenValidator request_body = true ->
  exists username,
    js_get request_body "username" = Ok (JStr username)
    /\ (exists later,
          trace handler (process_token opts ext request_body)
          = existT _ (StorageQuery (token_user_query opts) [JStr username]) :: later)
    /\ run handler (process_token opts ext request_body) <> Ok None.
Proof.
  intros Hbody. unfold tokenValidator.
  destruct request_body as [| | | | | |ps]; try discriminate; [contradiction|].
  intros Hvalid. apply andb_prop in Hvalid as [Hvalid _].
  apply andb_prop in Hvalid as [Hvalid Huser].
  apply andb_prop in Hvalid as [Hvalid Henum].
  apply andb_prop in Hvalid as [Hreq _].
  cbn [forallb] in Hreq.
  apply andb_prop in Hreq as [Hgrant Hreq]. apply andb_prop in Hreq as [Hname _].
  unfold required, type_string, enum in *.
  assert (Hg : js_get (JObj ps) "grant_type" = Ok (JStr "password")).
  { cbn [js_get]. destruct (default JUndefined (assoc "grant_type" ps)); try discriminate.
    cbn [existsb] in Henum. rewrite orb_false_r in Henum.
    apply String.eqb_eq in Henum. now subst. }
  assert (Hu : exists username, js_get (JObj ps) "username" = Ok (JStr username)).
  { cbn [js_get]. destruct (default JUndefined (assoc "username" ps)); try discriminate.
    eauto. }
  destruct Hu as [username Hu]. exists username. split; [exact Hu|].
  rewrite (process_token_password _ Hg). split.
  - rewrite trace_bind, trace_lift, run_lift, Hu. cbn [app].
    rewrite trace_bind, trace_await. cbn [app]. eauto.
  - rewrite run_bind, run_lift, Hu, run_bind, run_await.
    destruct (handler _ _) as [?|result]; [discriminate|].
    rewrite run_bind, run_lift. destruct (js_get result "user") as [?|users]; [discriminate|].
    rewrite run_bind, run_lift. destruct (js_get users "length") as [?|len]; [discriminate|].
    rewrite run_bind. destruct (run handler (if js_positive len then _ else _)) as [?|valid];
      [discriminate|].
    rewrite run_bind. destruct (run handler (if valid then _ else _)) as [?|[tok|]];
      [discriminate| |discriminate].
    destruct (truthy (JStr tok)); discriminate.
Qed.

End Token.

Lemma token_refused_witness :
  run (Samples.auth_handler [] [])
      (process_token Samples.auth_options Samples.auth_externals AuthSamples.wrong_request)
  = Ok (Some {| status := Some 401%Z; body := JObj [] |})
  /\ trace (Samples.auth_handler [] [])
           (process_token Samples.auth_options Samples.auth_externals
                          AuthSamples.wrong_request)
     = [existT _ (StorageQuery (token_user_query Samples.auth_options)
                               [JStr "alice@example.com"])].
Proof.
  apply (token_refused Samples.auth_options Samples.auth_externals
           (Samples.auth_handler [] []) AuthSamples.wrong_request
           (JStr "alice@example.com")
           (JObj [("token", JArr []);
                  ("user", JArr [JObj [("id", JNum 7);
                                       ("password", JStr "hash:Welcome!")]])])
           [JObj [("id", JNum 7); ("password", JStr "hash:Welcome!")]]);
    try reflexivity.
  right. exists (JObj [("id", JNum 7); ("password", JStr "hash:Welcome!")]), [],
           (JStr "hash:Welcome!"), (JStr "Guess").
  repeat split; reflexivity.
Defined.

Lemma token_minted_after_verification_witness :
  exists username result users row encoded plain,
    js_get Samples.token_request "username" = Ok username
    /\ Samples.auth_handler [] [] _
         (StorageQuery (token_user_query Samples.auth_options) [username]) = Ok result
    /\ js_get result "user" = Ok users
    /\ js_get users "0" = Ok row
    /\ js_get row "password" = Ok encoded
    /\ js_get Samples.token_request "password" = Ok plain
    /\ isValid Samples.auth_externals encoded plain = Ok true.
Proof.
  apply (token_minted_after_verification Samples.auth_options Samples.auth_externals
           (Samples.auth_handler [] []) Samples.token_request
           (existT _ (RandomBytes 32))).
  - vm_compute. right. left. reflexivity.
  - reflexivity.
Defined.

Lemma validated_token_request_witness :
  exists username,
    js_get Samples.token_request "username" = Ok (JStr username)
    /\ (exists later,
          trace (Samples.auth_handler [] [])
                (process_token Samples.auth_options Samples.auth_externals
                               Samples.token_request)
          = existT _ (StorageQuery (token_user_query Samples.auth_options)
                                   [JStr username]) :: later)
    /\ run (Samples.auth_handler [] [])
           (process_token Samples.auth_options Samples.auth_externals
                          Samples.token_request) <> Ok None.
Proof.
  apply (validated_token_request Samples.auth_options Samples.auth_externals
           (Samples.auth_handler [] []) Samples.token_request);
    [discriminate | reflexivity].
Defined.

End TokenFacts.


(** ** Transformation *)

Module TransformationMore.
Import Transformation TransformationFacts.
Local Open Scope heap_scope.

Lemma chain_result ext rec template keys : forall output h h' r,
  nullish output = false ->
  chain ext rec template keys output h = (h', Ok r) ->
  r = VNull \/ nullish r = false.
Proof.
  induction keys as [|key keys IH]; intros output h h' r Hout Hrun; simpl in Hrun.
  - inversion Hrun; subst. auto.
  - destruct (method_of key) as [op|]; [|discriminate].
    unfold mbind in Hrun.
    destruct (get_prop template key h) as [h1 [e|options]]; [discriminate|].
    destruct (call_operator ext rec op output options h1) as [h2 [e|output']];
      [discriminate|].
    destruct (nullish output') eqn:Hnull.
    + inversion Hrun; subst. auto.
    + eapply IH; eauto.
Qed.

Lemma transform_result ext n template value h h' r :
  transform ext n template value h = (h', Ok r) ->
  r = VNull \/ nullish r = false.
Proof.
  destruct n as [|n]; simpl; destruct (nullish value) eqn:Hv;
    try (intros H; inversion H; subst; now auto).
  unfold mbind. destruct (cloneDeep_total value h) as (h0 & output & -> & Hout).
  destruct (object_keys template h0) as [h1 [e|keys]]; [discriminate|].
  apply chain_result. auto.
Qed.

(** X16.  [transform] never returns undefined: what it returns is null,
    or a value that is neither null nor undefined. *)
Theorem transform_never_undefined (ext : externals) (n : nat) (template value : val)
        (h h' : heap) (r : val) :
  transform ext n template value h = (h', Ok r) ->
  r = VNull \/ nullish r = false.
Proof. apply transform_result. Qed.

Lemma transform_never_undefined_witness :
  VStr "x, y" = VNull \/ nullish (VStr "x, y") = false.
Proof.
  apply (transform_never_undefined Samples.libraries 1 (VRef 1) (VStr "x, y")
           TransformSamples.round_trip_heap
           (TransformSamples.round_trip_heap ++ [CArr [VStr "x"; VStr "y"]])%list
           (VStr "x, y")).
  reflexivity.
Defined.

(** X17.  Whatever [transform] does, returning or throwing, it only
    adds objects and writes to objects of its template: every object
    that was there before and is no part of the template is left as it
    was. *)
Theorem transform_writes_to_template_only (ext : externals) (n : nat) (t v : val)
        (h h' : heap) (r : result val) :
  allocated h t ->
  transform ext n t v h = (h', r) ->
  length h <= length h'
  /\ forall l c, h !! l = Some c -> ~ reach h t l -> h' !! l = Some c.
Proof.
  intros Ht Hrun.
  destruct (transform_frame ext n t v h h' r Ht Hrun) as [Hlen Hcells].
  split; [exact Hlen|]. intros l c Hc Hn.
  destruct (Hcells l c Hc) as (c' & Hc' & _ & Hkeep).
  now rewrite Hc', (Hkeep Hn).
Qed.

Lemma transform_writes_to_template_only_witness :
  length Samples.alias_heap
  <= length (fst (transform Samples.libraries 1 (VRef 1) (VRef 0) Samples.alias_heap))
  /\ forall l c, Samples.alias_heap !! l = Some c ->
                 ~ reach Samples.alias_heap (VRef 1) l ->
                 fst (transform Samples.libraries 1 (VRef 1) (VRef 0) Samples.alias_heap) !! l
                 = Some c.
Proof.
  apply (transform_writes_to_template_only Samples.libraries 1 (VRef 1) (VRef 0)
           Samples.alias_heap
           (fst (transform Samples.libraries 1 (VRef 1) (VRef 0) Samples.alias_heap))
           (snd (transform Samples.libraries 1 (VRef 1) (VRef 0) Samples.alias_heap))).
  - apply (allocated_region _ [1; 0]); reflexivity.
  - reflexivity.
Defined.

Lemma map_to_string_VStr k h pieces :
  map (fun x => if nullish x then EmptyString else to_string (S k) h x) (map VStr pieces)
  = pieces.
Proof. induction pieces as [|p pieces IH]; simpl; [reflexivity|]. now f_equal. Qed.

(** X18.  [join] undoes [split]: the template [{split: a, join: b}],
    where [a] and [b] have the same separator, a text that is not empty,
    gives back every text it is applied to; the array of the pieces is
    the one object it adds. *)
Theorem split_then_join (ext : externals) (n : nat) (s sep : string)
        (t a b : loc) (ps_a ps_b : list (string * val)) (h : heap) :
  sep <> EmptyString ->
  h !! t = Some (CObj [("split", VRef a); ("join", VRef b)]) ->
  h !! a = Some (CObj ps_a) -> assoc "separator" ps_a = Some (VStr sep) ->
  h !! b = Some (CObj ps_b) -> assoc "separator" ps_b = Some (VStr sep) ->
  transform ext (S n) (VRef t) (VStr s) h
  = ((h ++ [CArr (map VStr (js_split sep s))])%list, Ok (VStr s)).
Proof.
  intros Hsep Ht Ha Hsa Hb Hsb.
  assert (Htruthy : truthy_val (VStr sep) = true).
  { simpl. destruct sep; [contradiction | reflexivity]. }
  assert (Hb' : (h ++ [CArr (map VStr (js_split sep s))])%list !! b = Some (CObj ps_b)).
  { rewrite lookup_app_l; [exact Hb | now apply lookup_lt_Some in Hb]. }
  assert (Hnew : (h ++ [CArr (map VStr (js_split sep s))])%list !! length h
                 = Some (CArr (map VStr (js_split sep s)))).
  { rewrite lookup_app_r by lia. now rewrite Nat.sub_diag. }
  assert (Ht' : (h ++ [CArr (map VStr (js_split sep s))])%list !! t
                = Some (CObj [("split", VRef a); ("join", VRef b)])).
  { rewrite lookup_app_l; [exact Ht | now apply lookup_lt_Some in Ht]. }
  cbn [transform nullish]. unfold mbind, cloneDeep. cbn [clone].
  unfold object_keys. rewrite Ht. cbn [map fst chain].
  change (method_of "split") with (Some Split).
  change (method_of "join") with (Some Join).
  unfold mbind. cbn [get_prop]. rewrite Ht.
  change (default VUndefined (assoc "split" [("split", VRef a); ("join", VRef b)]))
    with (VRef a).
  cbn [call_operator]. unfold _split, mbind. cbn [get_prop]. rewrite Ha, Hsa.
  cbn [default from_option id]. rewrite Htruthy. cbn [negb].
  unfold js_to_string, read, alloc. cbn [to_string nullish].
  cbn [get_prop]. rewrite Ht'.
  change (default VUndefined (assoc "join" [("split", VRef a); ("join", VRef b)]))
    with (VRef b).
  unfold _join, mbind, read. cbn [array_items]. rewrite Hnew.
  cbn [get_prop]. rewrite Hb', Hsb. cbn [default from_option id]. rewrite Htruthy.
  unfold js_join, read, ret. rewrite map_to_string_VStr. cbn [to_string].
  rewrite js_split_nonempty by assumption.
  now rewrite split_fuel_join.
Qed.

Lemma split_then_join_witness :
  transform Samples.libraries 1 (VRef 1) (VStr "x, y") TransformSamples.round_trip_heap
  = ((TransformSamples.round_trip_heap ++ [CArr (map VStr (js_split ", " "x, y"))])%list,
     Ok (VStr "x, y")).
Proof.
  apply (split_then_join Samples.libraries 0 "x, y" ", " 1 0 0
           [("separator", VStr ", ")] [("separator", VStr ", ")]
           TransformSamples.round_trip_heap); try reflexivity.
  discriminate.
Defined.

End TransformationMore.


Module TransformationOps.
Import Transformation TransformationFacts HashSettings.
Local Open Scope heap_scope.

Lemma string_drop_length n : forall s,
  String.length (string_drop n s) = String.length s - n.
Proof.
  induction n as [|n IH]; intros [|c s]; simpl; auto. 
Qed.

Lemma string_drop_beyond n : forall s, String.length s <= n -> string_drop n s = EmptyString.
Proof.
  induction n as [|n IH]; intros [|c s] Hn; simpl in *; auto; try lia.
  apply IH. lia.
Qed.

Lemma string_take_beyond n : forall m s,
  String.length s <= n -> String.length s <= m -> string_take n s = string_take m s.
Proof.
  induction n as [|n IH]; intros m [|c s] Hn Hm; simpl in *; try lia.
  - now destruct m.
  - now destruct m.
  - destruct m as [|m]; [lia|]. simpl. f_equal. apply IH; lia.
Qed.

(** X19.  With numbers that are not negative as [start] and [length],
    [substring] drops [start] characters of the text and takes up to
    [length] characters of what is left; nothing is written. *)
Theorem substring_drops_and_takes (ext : externals) (rec : val -> val -> M val)
        (s : string) (options : val) (start len : Z) (h : heap) :
  get_prop options "start" h = (h, Ok (VNum start)) ->
  get_prop options "length" h = (h, Ok (VNum len)) ->
  (0 <= start)%Z -> (0 <= len)%Z ->
  call_operator ext rec Substring (VStr s) options h
  = (h, Ok (VStr (string_take (Z.to_nat len) (string_drop (Z.to_nat start) s)))).
Proof.
  intros Hstart Hlen Hs Hl. cbn [call_operator]. unfold _substring, mbind.
  rewrite Hstart, Hlen. unfold ret, number_or, id. do 3 f_equal.
  unfold js_substring, clamp.
  set (L := String.length s).
  destruct (Z_lt_le_dec start (Z.of_nat L)) as [Hin|Hout].
  - replace (Z.to_nat (Z.min (Z.max 0 start) (Z.of_nat L))) with (Z.to_nat start) by lia.
    destruct (Z_lt_le_dec (start + len) (Z.of_nat L)) as [Hin'|Hout'].
    + replace (Z.to_nat (Z.min (Z.max 0 (start + len)) (Z.of_nat L)))
        with (Z.to_nat start + Z.to_nat len) by lia.
      replace (Nat.min (Z.to_nat start) (Z.to_nat start + Z.to_nat len))
        with (Z.to_nat start) by lia.
      f_equal. lia.
    + replace (Z.to_nat (Z.min (Z.max 0 (start + len)) (Z.of_nat L))) with L by lia.
      replace (Nat.min (Z.to_nat start) L) with (Z.to_nat start) by lia.
      apply string_take_beyond; rewrite string_drop_length; fold L; lia.
  - replace (Z.to_nat (Z.min (Z.max 0 start) (Z.of_nat L))) with L by lia.
    replace (Z.to_nat (Z.min (Z.max 0 (start + len)) (Z.of_nat L))) with L by lia.
    rewrite Nat.min_id, Nat.max_id, Nat.sub_diag.
    rewrite (string_drop_beyond (Z.to_nat start)) by (fold L; lia).
    now destruct (Z.to_nat len).
Qed.

Lemma substring_drops_and_takes_witness :
  call_operator Samples.libraries (transform Samples.libraries 0) Substring
                (VStr "transformation") (VRef 0) TransformSamples.substring_heap
  = (TransformSamples.substring_heap, Ok (VStr "ans")).
Proof.
  apply (substring_drops_and_takes Samples.libraries (transform Samples.libraries 0)
           "transformation" (VRef 0) 2 3 TransformSamples.substring_heap);
    try reflexivity; lia.
Defined.

Lemma assoc_set_prop k v ps : assoc k (set_prop k v ps) = Some v.
Proof.
  induction ps as [|[k' v'] ps IH]; simpl.
  - now rewrite String.eqb_refl.
  - destruct (String.eqb k k') eqn:E; simpl; [now rewrite String.eqb_refl|].
    now rewrite E.
Qed.

Lemma assoc_set_prop_other k k' v ps : k <> k' -> assoc k (set_prop k' v ps) = assoc k ps.
Proof.
  intros Hne. induction ps as [|[k0 v0] ps IH]; simpl.
  - apply String.eqb_neq in Hne. now rewrite Hne.
  - destruct (String.eqb_spec k' k0) as [<-|Hk]; simpl.
    + destruct (String.eqb_spec k k'); [contradiction | reflexivity].
    + destruct (String.eqb k k0); auto.
Qed.

Lemma assoc_default_prop k d ps :
  assoc k (default_prop k d ps) = Some (setting k d ps).
Proof.
  unfold default_prop, setting.
  destruct (assoc k ps) as [v|] eqn:E; [|apply assoc_set_prop].
  destruct v; auto using assoc_set_prop.
Qed.

Lemma assoc_default_prop_other k k' d ps :
  k <> k' -> assoc k (default_prop k' d ps) = assoc k ps.
Proof.
  intros Hne. unfold default_prop.
  destruct (assoc k' ps) as [v|]; [|now apply assoc_set_prop_other].
  destruct v; auto using assoc_set_prop_other.
Qed.

Lemma default_prop_settled k d ps :
  d <> VUndefined -> default_prop k d (default_prop k d ps) = default_prop k d ps.
Proof.
  intros Hd. unfold default_prop at 1. rewrite assoc_default_prop.
  unfold setting. destruct (assoc k ps) as [v|]; [|destruct d; congruence].
  destruct v; try reflexivity. destruct d; congruence.
Qed.

Lemma setting_defined k d ps : d <> VUndefined -> setting k d ps <> VUndefined.
Proof.
  intros Hd. unfold setting. destruct (assoc k ps) as [v|] eqn:E; [|exact Hd].
  destruct v; try exact Hd; discriminate.
Qed.

Lemma default_prop_id k d ps v :
  assoc k ps = Some v -> v <> VUndefined -> default_prop k d ps = ps.
Proof. intros H Hv. unfold default_prop. rewrite H. destruct v; congruence. Qed.

(** X20.  [hash] of a text reads its settings from the options after
    the defaults: a setting that is given is used, [md5] and [hex] stand
    for the ones that are missing or undefined.  The defaults are
    written into the options object, and into nothing else; a second run
    with the same options finds both settings and leaves the heap as it
    is, with the same digest. *)
Theorem hash_defaults_written_once (ext : externals) (rec : val -> val -> M val)
        (s : string) (l : loc) (ps : list (string * val)) (h : heap) :
  h !! l = Some (CObj ps) ->
  exists h1 ps',
    call_operator ext rec Hash (VStr s) (VRef l) h
    = (h1, crypto_hash ext (setting "algorithm" (VStr "md5") ps) s
                       (setting "encoding" (VStr "hex") ps))
    /\ call_operator ext rec Hash (VStr s) (VRef l) h1
       = (h1, crypto_hash ext (setting "algorithm" (VStr "md5") ps) s
                          (setting "encoding" (VStr "hex") ps))
    /\ (forall l', l' <> l -> h1 !! l' = h !! l')
    /\ h1 !! l = Some (CObj ps')
    /\ assoc "algorithm" ps' = Some (setting "algorithm" (VStr "md5") ps)
    /\ assoc "encoding" ps' = Some (setting "encoding" (VStr "hex") ps).
Proof.
  intros Hl.
  set (ps' := default_prop "algorithm" (VStr "md5")
                (default_prop "encoding" (VStr "hex") ps)).
  assert (Halg : assoc "algorithm" ps' = Some (setting "algorithm" (VStr "md5") ps)).
  { unfold ps'. rewrite assoc_default_prop. unfold setting.
    now rewrite assoc_default_prop_other by discriminate. }
  assert (Henc : assoc "encoding" ps' = Some (setting "encoding" (VStr "hex") ps)).
  { unfold ps'. rewrite assoc_default_prop_other by discriminate.
    apply assoc_default_prop. }
  assert (Hsettled : default_prop "algorithm" (VStr "md5")
                       (default_prop "encoding" (VStr "hex") ps') = ps').
  { rewrite (default_prop_id "encoding" _ ps' _ Henc)
      by (apply setting_defined; discriminate).
    apply (default_prop_id _ _ _ _ Halg). apply setting_defined. discriminate. }
  assert (Hl1 : <[l := CObj ps']> h !! l = Some (CObj ps')).
  { apply list_lookup_insert_eq. now apply lookup_lt_Some in Hl. }
  exists (<[l := CObj ps']> h), ps'.
  split; [|split; [|split; [|split; [|split]]]]; try assumption.
  - cbn [call_operator]. unfold _hash, mbind, ret, hash_options, try_read.
    rewrite Hl. fold ps'. rewrite Halg, Henc. reflexivity.
  - cbn [call_operator]. unfold _hash, mbind, ret, hash_options, try_read.
    rewrite Hl1, Hsettled, Halg, Henc. cbn [fst snd default from_option id].
    f_equal. apply list_eq. intros i. destruct (decide (i = l)) as [->|Hne].
    + rewrite list_lookup_insert_eq; [now rewrite Hl1|].
      rewrite length_insert. now apply lookup_lt_Some in Hl.
    + now rewrite list_lookup_insert_ne by congruence.
  - intros l' Hne. now apply list_lookup_insert_ne.
Qed.

Lemma hash_defaults_written_once_witness :
  exists h1 ps',
    call_operator Samples.libraries (transform Samples.libraries 0) Hash (VStr "text")
                  (VRef 0) TransformSamples.hash_heap
    = (h1, Ok (VStr "digest of text"))
    /\ call_operator Samples.libraries (transform Samples.libraries 0) Hash (VStr "text")
                     (VRef 0) h1
       = (h1, Ok (VStr "digest of text"))
    /\ (forall l', l' <> 0 -> h1 !! l' = TransformSamples.hash_heap !! l')
    /\ h1 !! 0 = Some (CObj ps')
    /\ assoc "algorithm" ps' = Some (VStr "sha1")
    /\ assoc "encoding" ps' = Some (VStr "hex").
Proof.
  apply (hash_defaults_written_once Samples.libraries (transform Samples.libraries 0)
           "text" 0 [("algorithm", VStr "sha1")] TransformSamples.hash_heap).
  reflexivity.
Defined.

End TransformationOps.


Module TransformationLoops.
Import Transformation TransformationFacts TransformationMore.
Local Open Scope heap_scope.

Section Loops.
Variable ext : externals.
Variable n : nat.
Variable h : heap.
Variable t : val.
Hypothesis t_allocated : allocated h t.
Variable lo : loc.
Hypothesis lo_new : length h <= lo.

(** A nested chain leaves the object under construction as it is. *)
Lemma nested_keeps_output entry value hc hc' c v :
  frame t h hc -> of_template h t entry -> hc !! lo = Some c ->
  mbind (shorthand entry) (fun template => transform ext n template value) hc
  = (hc', Ok v) ->
  frame t h hc' /\ hc' !! lo = Some c /\ (v = VNull \/ nullish v = false).
Proof.
  intros Hfr He Hc Hrun.
  assert (Hgo : forall template h1,
             frame t h h1 -> h1 !! lo = Some c ->
             of_template h t template \/ made_up h h1 template ->
             ~ reach h1 template lo ->
             transform ext n template value h1 = (hc', Ok v) ->
             frame t h hc' /\ hc' !! lo = Some c /\ (v = VNull \/ nullish v = false)).
  { intros template h1 Hfr1 Hc1 Ht Hn Hrun1.
    assert (Halloc : allocated h1 template).
    { destruct Ht as [Ht|Ht].
      - eapply of_template_allocated; eauto.
      - eapply made_up_allocated; eauto. }
    pose proof (transform_frame ext n template value h1 hc' _ Halloc Hrun1) as Hfr'.
    split; [eapply frame_nested; eauto|]. split; [|eapply transform_result; eauto].
    destruct Hfr' as [_ Hcells]. destruct (Hcells lo c Hc1) as (c' & Hc' & _ & Hkeep).
    now rewrite Hc', (Hkeep Hn). }
  assert (Hold : forall template, of_template h t template -> ~ reach hc template lo).
  { intros template Ht Hr. pose proof (reach_later h t t_allocated hc Hfr _ _ Hr Ht) as Hr'.
    apply t_allocated in Hr'. lia. }
  destruct entry as [| |b|k|s|o];
    try (eapply Hgo; [exact Hfr | exact Hc | left; exact He | now apply Hold | exact Hrun]).
  unfold mbind at 1 in Hrun. simpl in Hrun.
  assert (Hlo : lo < length hc) by (now apply lookup_lt_Some in Hc).
  assert (Hnew : (hc ++ [CObj [("single", VStr s)]])%list !! length hc
                 = Some (CObj [("single", VStr s)])).
  { apply list_lookup_middle. reflexivity. }
  eapply Hgo; [apply frame_alloc; exact Hfr | | | | exact Hrun].
  - now rewrite lookup_app_l.
  - right. exists (length hc), s. split; [reflexivity|].
    split; [destruct Hfr; lia | exact Hnew].
  - intros Hr. inversion Hr as [|? c0 ? ? Hc0 Hin Hreach]; subst; [lia|].
    rewrite Hnew in Hc0. inversion Hc0; subst. simpl in Hin.
    destruct Hin as [Hin|[]]. discriminate.
Qed.

(** The loops of [map] and [array]: one element is pushed for every
    item. *)
Lemma push_loop {A} (tmpl arg : A -> val) items :
  (forall x, In x items -> of_template h t (tmpl x)) ->
  forall hc hc' xs,
    frame t h hc -> hc !! lo = Some (CArr xs) ->
    for_each items (fun x =>
      template <- shorthand (tmpl x) ;;
      v <- transform ext n template (arg x) ;;
      push (VRef lo) v) hc = (hc', Ok tt) ->
    frame t h hc'
    /\ exists ys, hc' !! lo = Some (CArr (xs ++ ys))
                  /\ length ys = length items
                  /\ Forall (fun y => y = VNull \/ nullish y = false) ys.
Proof.
  induction items as [|x items IH]; intros Hitems hc hc' xs Hfr Hc Hrun.
  - inversion Hrun; subst. split; [assumption|]. exists []. rewrite app_nil_r. auto.
  - cbn [for_each] in Hrun.
    apply mbind_inv in Hrun as [(e & _ & He)|(h3 & [] & Hbody & Hrest)]; [discriminate|].
    assert (Hbody' : mbind (mbind (shorthand (tmpl x))
                              (fun template => transform ext n template (arg x)))
                           (fun v => push (VRef lo) v) hc = (h3, Ok tt)).
    { rewrite <- Hbody. unfold mbind. destruct (shorthand (tmpl x) hc) as [h1 [e|template]];
        reflexivity. }
    apply mbind_inv in Hbody' as [(e & _ & He)|(h2 & v & Hnested & Hpush)]; [discriminate|].
    destruct (nested_keeps_output _ _ _ _ _ _ Hfr (Hitems x (or_introl eq_refl)) Hc Hnested)
      as (Hfr2 & Hc2 & Hv).
    unfold push in Hpush. rewrite Hc2 in Hpush. inversion Hpush; subst h3.
    destruct (IH (fun y Hy => Hitems y (or_intror Hy))
                 (<[lo := CArr (xs ++ [v])]> h2) hc' (xs ++ [v])%list) as (Hfr' & ys & Hys & Hlen & Hall).
    + now apply frame_store_new.
    + apply list_lookup_insert_eq. now apply lookup_lt_Some in Hc2.
    + exact Hrest.
    + split; [assumption|]. exists (v :: ys). rewrite <- app_assoc in Hys.
      split; [exact Hys|]. split; [simpl; lia | now constructor].
Qed.

End Loops.

(** X21.  [map] on what is no array gives null and writes nothing.  On
    an array, when it returns, it returns a new array with one element
    for every item, none of which is undefined. *)
Theorem map_gives_one_element_per_item (ext : externals) (n : nat) (value options : val)
        (h : heap) :
  allocated h options ->
  (array_items h value = None ->
   call_operator ext (transform ext n) Map value options h = (h, Ok VNull))
  /\ (forall items h' r,
        array_items h value = Some items ->
        call_operator ext (transform ext n) Map value options h = (h', Ok r) ->
        r = VRef (length h)
        /\ exists out, h' !! length h = Some (CArr out)
                       /\ length out = length items
                       /\ Forall (fun y => y = VNull \/ nullish y = false) out).
Proof.
  intros Halloc. cbn [call_operator]. unfold _map. split.
  - intros Hnone. unfold mbind, read. now rewrite Hnone.
  - intros items h' r Hitems Hrun.
    apply mbind_inv in Hrun as [(e & He & _)|(h0 & a & Hread & Hrun)]; [discriminate|].
    inversion Hread; subst h0 a. rewrite Hitems in Hrun.
    apply mbind_inv in Hrun as [(e & He & _)|(h0 & output & Hnew & Hrun)]; [discriminate|].
    inversion Hnew; subst h0 output.
    apply mbind_inv in Hrun as [(e & _ & He)|(h1 & [] & Hloop & Hret)]; [discriminate|].
    inversion Hret; subst. split; [reflexivity|].
    destruct (push_loop ext n h options Halloc (length h) (le_n _)
                        (fun _ : val => options) (fun x => x) items) with
      (hc := (h ++ [CArr []])%list) (hc' := h') (xs := @nil val)
      as (_ & ys & Hys & Hlen & Hall).
    + intros _ _. destruct options; simpl; auto. constructor.
    + apply frame_alloc, frame_refl.
    + apply list_lookup_middle. reflexivity.
    + exact Hloop.
    + exists ys. auto.
Qed.

Lemma map_gives_one_element_per_item_witness :
  call_operator Samples.libraries (transform Samples.libraries 1) Map (VRef 1) (VRef 2)
                TransformSamples.map_heap
  = ((TransformSamples.map_heap ++ [CArr [VNum 1; VNull; VNull]; CObj [("a", VNum 1)]])%list, Ok (VRef 3))
  /\ exists out,
      (TransformSamples.map_heap ++ [CArr [VNum 1; VNull; VNull]; CObj [("a", VNum 1)]])%list !! 3
      = Some (CArr out)
      /\ length out = 3
      /\ Forall (fun y => y = VNull \/ nullish y = false) out.
Proof.
  split; [reflexivity|].
  apply (proj2 (map_gives_one_element_per_item Samples.libraries 1 (VRef 1) (VRef 2)
                  TransformSamples.map_heap
                  (allocated_region TransformSamples.map_heap [2] (VRef 2)
                                    eq_refl eq_refl))
               [VRef 0; VNull; VStr "text"]
               (TransformSamples.map_heap ++ [CArr [VNum 1; VNull; VNull]; CObj [("a", VNum 1)]])%list
               (VRef 3) eq_refl eq_refl).
Defined.

(** X22.  [array] throws on options that are no array, and writes
    nothing then.  On an array of templates, when it returns, it returns
    a new array with one element for every template, none of which is
    undefined. *)
Theorem array_gives_one_element_per_template (ext : externals) (n : nat)
        (value options : val) (h : heap) :
  allocated h options ->
  (array_items h options = None ->
   call_operator ext (transform ext n) Array value options h
   = (h, Throw (Error "Options for array transformation must be an array")))
  /\ (forall items h' r,
        array_items h options = Some items ->
        call_operator ext (transform ext n) Array value options h = (h', Ok r) ->
        r = VRef (length h)
        /\ exists out, h' !! length h = Some (CArr out)
                       /\ length out = length items
                       /\ Forall (fun y => y = VNull \/ nullish y = false) out).
Proof.
  intros Halloc. cbn [call_operator]. unfold _array. split.
  - intros Hnone. unfold mbind, read. now rewrite Hnone.
  - intros items h' r Hitems Hrun.
    apply mbind_inv in Hrun as [(e & He & _)|(h0 & a & Hread & Hrun)]; [discriminate|].
    inversion Hread; subst h0 a. rewrite Hitems in Hrun.
    apply mbind_inv in Hrun as [(e & He & _)|(h0 & output & Hnew & Hrun)]; [discriminate|].
    inversion Hnew; subst h0 output.
    apply mbind_inv in Hrun as [(e & _ & He)|(h1 & [] & Hloop & Hret)]; [discriminate|].
    inversion Hret; subst. split; [reflexivity|].
    destruct (push_loop ext n h options Halloc (length h) (le_n _)
                        (fun x : val => x) (fun _ => value) items) with
      (hc := (h ++ [CArr []])%list) (hc' := h') (xs := @nil val)
      as (_ & ys & Hys & Hlen & Hall).
    + intros x Hx. unfold array_items in Hitems.
      destruct options as [| | | | |o]; try discriminate.
      destruct (h !! o) as [[ps|xs]|] eqn:Ho; try discriminate.
      inversion Hitems; subst xs.
      eapply (of_template_member h (VRef o) Halloc h o); eauto using frame_refl.
      constructor.
    + apply frame_alloc, frame_refl.
    + apply list_lookup_middle. reflexivity.
    + exact Hloop.
    + exists ys. auto.
Qed.

Lemma array_gives_one_element_per_template_witness :
  call_operator Samples.libraries (transform Samples.libraries 1) Array (VRef 2) (VRef 1)
                TransformSamples.array_heap
  = ((TransformSamples.array_heap
      ++ [CArr [VNum 1; VNum 1]; CObj [("single", VStr "$.a")];
          CObj [("a", VNum 1)]; CObj [("a", VNum 1)]])%list, Ok (VRef 3))
  /\ exists out,
      (TransformSamples.array_heap
       ++ [CArr [VNum 1; VNum 1]; CObj [("single", VStr "$.a")];
           CObj [("a", VNum 1)]; CObj [("a", VNum 1)]])%list !! 3
      = Some (CArr out)
      /\ length out = 2
      /\ Forall (fun y => y = VNull \/ nullish y = false) out.
Proof.
  split; [reflexivity|].
  apply (proj2 (array_gives_one_element_per_template Samples.libraries 1 (VRef 2) (VRef 1)
                  TransformSamples.array_heap
                  (allocated_region TransformSamples.array_heap [1; 0] (VRef 1)
                                    eq_refl eq_refl))
               [VStr "$.a"; VRef 0]
               (TransformSamples.array_heap
                ++ [CArr [VNum 1; VNum 1]; CObj [("single", VStr "$.a")];
                    CObj [("a", VNum 1)]; CObj [("a", VNum 1)]])%list
               (VRef 3) eq_refl eq_refl).
Defined.

End TransformationLoops.


Module TransformationObjects.
Import Transformation TransformationFacts TransformationMore TransformationLoops.
Local Open Scope heap_scope.




Section Loop.
Variable ext : externals.
Variable n : nat.
Variable h : heap.
Variable t : val.
Hypothesis t_allocated : allocated h t.
Variable lo : loc.
Hypothesis lo_new : length h <= lo.
Variable value : val.


End Loop.



End TransformationObjects.


(** ** Edges *)

Module Edges.
Import Reference.

Lemma split_at_colons u p rest :
  no_char ":" u = true -> no_char ":" p = true ->
  exists more, js_split ":" (u ++ ":" ++ p ++ ":" ++ rest) = u :: p :: more.
Proof.
  intros Hu Hp. unfold js_split.
  change ":" with (str1 ":"). change (str1 ":" ++ p ++ str1 ":" ++ rest)
    with (String ":" (p ++ String ":" rest)).
  rewrite string_length_app. simpl String.length. rewrite string_length_app.
  simpl String.length. rewrite !Nat.add_succ_r. simpl split_fuel.
  rewrite (str_find_first ":" u _ Hu).
  rewrite (str_find_first ":" p _ Hp). eexists. reflexivity.
Qed.

Lemma split_at_colon u p :
  no_char ":" u = true -> no_char ":" p = true ->
  js_split ":" (u ++ ":" ++ p) = [u; p].
Proof.
  intros Hu Hp. unfold js_split.
  change ":" with (str1 ":"). change (str1 ":" ++ p) with (String ":" p).
  rewrite string_length_app. simpl String.length. rewrite Nat.add_succ_r.
  simpl split_fuel. rewrite (str_find_first ":" u _ Hu). f_equal.
  destruct (String.length u + String.length p) as [|k]; [reflexivity|].
  simpl. now rewrite (str_find_absent ":" p Hp).
Qed.

(** X24.  The password of a Basic credential ends at the second colon
    of the decoded text: a credential [user:password:more] is answered
    as the credential [user:password] is. *)
Theorem basic_password_ends_at_colon (opts : Authentication.options)
        (ext : Authentication.externals) (header header' credential credential' : string)
        (u p more : string) (context0 : option context) :
  Authentication.match_scheme "Basic" header = Some credential ->
  Authentication.match_scheme "Basic" header' = Some credential' ->
  Authentication.base64_decode ext credential = u ++ ":" ++ p ++ ":" ++ more ->
  Authentication.base64_decode ext credential' = u ++ ":" ++ p ->
  no_char ":" u = true -> no_char ":" p = true ->
  Authentication.basic opts ext header context0
  = Authentication.basic opts ext header' context0.
Proof.
  intros Hm Hm' Hd Hd' Hu Hp. unfold Authentication.basic.
  rewrite Hm, Hm', Hd, Hd', (split_at_colon u p Hu Hp).
  destruct (split_at_colons u p more Hu Hp) as [rest ->]. reflexivity.
Qed.

Lemma basic_password_ends_at_colon_witness :
  Authentication.basic Samples.auth_options EdgeSamples.colon_externals
                       "Basic YWRtaW46c2VjcmV0Om1vcmU=" (Some {| user := None |})
  = Authentication.basic Samples.auth_options EdgeSamples.colon_externals
                         "Basic YWRtaW46c2VjcmV0" (Some {| user := None |}).
Proof.
  apply (basic_password_ends_at_colon Samples.auth_options EdgeSamples.colon_externals
           "Basic YWRtaW46c2VjcmV0Om1vcmU=" "Basic YWRtaW46c2VjcmV0"
           "YWRtaW46c2VjcmV0Om1vcmU=" "YWRtaW46c2VjcmV0" "admin" "secret" "more");
    reflexivity.
Defined.

Import Transformation TransformationFacts.
Local Open Scope heap_scope.

(** X25.  [static] gives the object of the template itself, not a copy
    of it: the template [{static: o}], applied to a value that is
    neither null nor undefined, returns [o], and leaves the objects
    that were there before as they were. *)
Theorem static_returns_template_object (ext : externals) (n : nat) (t : loc)
        (o value : val) (h : heap) :
  h !! t = Some (CObj [("static", o)]) ->
  nullish value = false ->
  exists h',
    transform ext (S n) (VRef t) value h = (h', Ok (if nullish o then VNull else o))
    /\ extends h h'.
Proof.
  intros Ht Hv.
  destruct (clone (S (length h)) value [] h) as [[h' m'] output] eqn:Hclone.
  pose proof (clone_extends _ _ _ _ _ _ _ Hclone) as Hext.
  exists h'. split; [|exact Hext].
  assert (Ht' : h' !! t = Some (CObj [("static", o)])).
  { destruct Hext as [_ Hsame]. rewrite Hsame; [exact Ht|].
    now apply lookup_lt_Some in Ht. }
  cbn [transform]. rewrite Hv. unfold mbind, cloneDeep. rewrite Hclone.
  unfold object_keys. rewrite Ht'. cbn [map fst chain].
  change (method_of "static") with (Some Static).
  unfold mbind. cbn [get_prop]. rewrite Ht'.
  change (default VUndefined (assoc "static" [("static", o)])) with o.
  cbn [call_operator]. unfold _static, ret. now destruct (nullish o).
Qed.

Lemma static_returns_template_object_witness :
  exists h',
    transform Samples.libraries 1 (VRef 1) (VStr "text") EdgeSamples.static_heap
    = (h', Ok (VRef 0))
    /\ extends EdgeSamples.static_heap h'.
Proof.
  apply (static_returns_template_object Samples.libraries 0 1 (VRef 0) (VStr "text")
           EdgeSamples.static_heap); reflexivity.
Defined.



End Edges.


Module QueryEdges.
Import Query QueryFields Reference.

Lemma inject_each_no_placeholder q args :
  no_char "?" q = true -> inject_each (Text q) args = Ok (Text q).
Proof.
  intros Hq. induction args as [|a args IH]; simpl; [reflexivity|].
  unfold js_replace. change "?" with (str1 "?") at 1.
  now rewrite (str_find_absent "?" q Hq).
Qed.

(** X27.  A query text without [?] is left as it is, whatever the
    arguments are: arguments without placeholder are dropped, also those
    that hold a [?] or a [$] themselves. *)
Theorem injectArguments_without_placeholder (q : string) (args : json) :
  no_char "?" q = true -> injectArguments (Text q) args = Ok (Text q).
Proof.
  intros Hq. destruct args; try reflexivity. now apply inject_each_no_placeholder.
Qed.

Lemma injectArguments_without_placeholder_witness :
  injectArguments (Text "{listPost{id}}") (JArr [JStr "?"; JStr "$&"])
  = Ok (Text "{listPost{id}}").
Proof.
  apply (injectArguments_without_placeholder "{listPost{id}}" (JArr [JStr "?"; JStr "$&"])).
  reflexivity.
Defined.

(** X28.  A query that is no text is never handed to the parser: without
    arguments to bind it is taken as the parsed query; with an argument
    to bind, the constructor fails with a type error, which is not turned
    into a query error. *)
Theorem constructor_keeps_parsed_query (Parser : string -> result parsed) (p : parsed)
        (c : option context) (args : json) :
  constructor Parser (Parsed p) (WithContext c args)
  = match args with
    | JArr (_ :: _) => Throw (TypeError "query.replace is not a function")
    | _ => Ok {| query := Parsed p; context_of := c; parsed_of := p |}
    end.
Proof. unfold constructor. destruct args as [| | | | |[|a l]|]; reflexivity. Qed.

(** X29.  [callMethod] asks its collaborators something exactly when the
    name is a method name; for any other name it resolves to nothing at
    once. *)
Theorem callMethod_asks_iff_method_name (handler : forall R, call R -> R)
        (ctx : option context) (m : method) :
  (trace handler (callMethod ctx m) = [] <-> match_method_name (name m) = None)
  /\ (match_method_name (name m) = None -> run handler (callMethod ctx m) = Ok (m, None)).
Proof.
  unfold callMethod. destruct (match_method_name (name m)) as [[op entity]|].
  - split; [|discriminate]. split; [|discriminate]. intros Htrace. exfalso.
    rewrite trace_bind in Htrace. apply List.app_eq_nil in Htrace as [Hbind Hrest].
    unfold bind_current_user in Hbind, Hrest.
    destruct (_ && _); [discriminate Hbind|]. cbn [run] in Hrest.
    unfold dispatch, await in Hrest. discriminate Hrest.
  - repeat split; reflexivity.
Qed.

End QueryEdges.


(** ** The copy that [transform] starts with *)

Module DeepCopyFacts.
Import Transformation TransformationFacts DeepCopy.
Local Open Scope heap_scope.

Lemma img_later m m' v :
  (forall l x, memo_find l m = Some x -> memo_find l m' = Some x) ->
  known m v -> img m' v = img m v /\ known m' v.
Proof.
  intros Hgrow Hv. destruct v as [| | | | |l]; simpl in *; auto.
  destruct (memo_find l m) as [x|] eqn:E; [|contradiction].
  rewrite (Hgrow _ _ E). split; [reflexivity | discriminate].
Qed.

Lemma map_img_later m m' vs :
  (forall l x, memo_find l m = Some x -> memo_find l m' = Some x) ->
  Forall (known m) vs -> map (img m') vs = map (img m) vs /\ Forall (known m') vs.
Proof.
  intros Hgrow. induction 1 as [|v vs Hv Hvs [IH1 IH2]]; simpl; [auto|].
  destruct (img_later m m' v Hgrow Hv) as [-> Hk]. rewrite IH1. auto.
Qed.

(** A finished copy stays one when the memo grows and objects are added
    or written elsewhere. *)
Lemma copy_of_later h0 m h m' h' a b :
  (forall l x, memo_find l m = Some x -> memo_find l m' = Some x) ->
  h' !! b = h !! b ->
  copy_of h0 m h a b -> copy_of h0 m' h' a b.
Proof.
  intros Hgrow Hb (c & Hc & Hknown & Hcopy). exists c.
  split; [exact Hc|]. rewrite Hb, Hcopy.
  destruct c as [ps|xs]; simpl in *.
  - destruct (map_img_later m m' _ Hgrow Hknown) as [-> Hk]. auto.
  - destruct (map_img_later m m' _ Hgrow Hknown) as [-> Hk]. auto.
Qed.

Section Clone.
Variable h0 : heap.
Hypothesis h0_closed : closed h0.

#[local] Abbreviation copied := (DeepCopy.copied h0).

Lemma clone_list_copies n :
  (forall v m h h' m' v',
     extends h0 h -> in_heap h0 v -> memo_ok h0 m h -> unvisited h0 m < n ->
     clone n v m h = (h', m', v') ->
     copied m h m' h' /\ v' = img m' v /\ known m' v) ->
  forall vs m h h' m' vs',
    extends h0 h -> Forall (in_heap h0) vs -> memo_ok h0 m h -> unvisited h0 m < n ->
    clone_list (clone n) vs m h = (h', m', vs') ->
    copied m h m' h' /\ vs' = map (img m') vs /\ Forall (known m') vs.
Proof.
  intros Hn. induction vs as [|v vs IH]; intros m h h' m' vs' Hext Hvs Hok Hfuel Hrun.
  - inversion Hrun; subst. split; [split; [exact Hok|]|split; constructor].
    intros a b Hb Hnone. congruence.
  - inversion Hvs as [|? ? Hv Hrest]; subst. cbn [clone_list] in Hrun.
    destruct (clone n v m h) as [[h1 m1] v1] eqn:E1.
    destruct (clone_list (clone n) vs m1 h1) as [[h2 m2] vs2] eqn:E2.
    inversion Hrun; subst h2 m2 vs'. clear Hrun.
    destruct (Hn _ _ _ _ _ _ Hext Hv Hok Hfuel E1) as ([Hok1 Hnew1] & Hv1 & Hk1).
    pose proof (clone_extends _ _ _ _ _ _ _ E1) as Hext1.
    pose proof (clone_memo _ _ _ _ _ _ _ E1) as Hgrow1.
    assert (Hfuel1 : unvisited h0 m1 < n).
    { pose proof (unvisited_mono h0 m m1 Hgrow1). lia. }
    destruct (IH m1 h1 h' m' vs2 (extends_trans _ _ _ Hext Hext1) Hrest Hok1 Hfuel1 E2)
      as ([Hok2 Hnew2] & Hvs2 & Hk2).
    assert (Hgrow2 : forall l x, memo_find l m1 = Some x -> memo_find l m' = Some x).
    { eapply clone_list_memo; [|exact E2]. intros; eapply clone_memo; eauto. }
    assert (Hext2 : extends h1 h').
    { eapply clone_list_extends; [|exact E2]. intros; eapply clone_extends; eauto. }
    destruct (img_later m1 m' v Hgrow2 Hk1) as [Himg Hk].
    split; [split; [exact Hok2|]|].
    + intros a b Hb Hnone. destruct (memo_find a m1) as [b1|] eqn:Ha1.
      * pose proof (Hgrow2 _ _ Ha1) as Hb'. rewrite Hb in Hb'. inversion Hb'; subst b1.
        destruct (Hnew1 a b Ha1 Hnone) as [Hlen Hcopy]. split; [exact Hlen|].
        eapply copy_of_later; [exact Hgrow2| |exact Hcopy].
        apply Hext2. destruct (Hok1 a b Ha1). lia.
      * destruct (Hnew2 a b Hb Ha1) as [Hlen Hcopy]. split; [|exact Hcopy].
        destruct Hext1. lia.
    + split; [|now constructor]. simpl. now rewrite Himg, <- Hv1, <- Hvs2.
Qed.

Lemma clone_copies n : forall v m h h' m' v',
  extends h0 h -> in_heap h0 v -> memo_ok h0 m h -> unvisited h0 m < n ->
  clone n v m h = (h', m', v') ->
  copied m h m' h' /\ v' = img m' v /\ known m' v.
Proof.
  induction n as [|n IH]; intros v m h h' m' v' Hext Hv Hok Hfuel Hrun; [lia|].
  assert (Hsame : copied m h m h).
  { split; [exact Hok|]. intros a b Hb Hnone. congruence. }
  destruct v as [| |b|z|s|l];
    try (inversion Hrun; subst; split; [exact Hsame | split; [reflexivity | exact I]]).
  simpl in Hv. cbn [clone] in Hrun.
  destruct (memo_find l m) as [l'|] eqn:Hl.
  { inversion Hrun; subst. simpl. rewrite Hl.
    split; [exact Hsame | split; [reflexivity | discriminate]]. }
  assert (Hcell : h !! l = h0 !! l) by (apply Hext; exact Hv).
  destruct (lookup_lt_is_Some_2 h0 l Hv) as [c Hc].
  rewrite Hcell, Hc in Hrun.
  assert (Hfuel' : unvisited h0 ((l, length h) :: m) < n).
  { pose proof (unvisited_cons h0 m l (length h) Hl Hv). lia. }
  assert (Hchildren : Forall (in_heap h0) (cell_values c)).
  { apply Forall_forall. intros x Hx. apply list_elem_of_In in Hx.
    destruct x; simpl; auto. eapply h0_closed; eauto. }
  assert (Hgo : forall placeholder h1 m1 vs,
             clone_list (clone n) (cell_values c) ((l, length h) :: m)
                        (h ++ [placeholder])%list = (h1, m1, vs) ->
             copied m h m1 (<[length h := match c with
                                          | CObj ps => CObj (zip (map fst ps) vs)
                                          | CArr _ => CArr vs
                                          end]> h1)
             /\ VRef (length h) = img m1 (VRef l) /\ known m1 (VRef l)).
  { intros placeholder h1 m1 vs E.
    assert (Hext' : extends h0 (h ++ [placeholder])%list).
    { destruct Hext as [L S]. split; [rewrite length_app; lia|].
      intros k Hk. rewrite lookup_app_l by lia. auto. }
    assert (Hok' : memo_ok h0 ((l, length h) :: m) (h ++ [placeholder])%list).
    { intros a b Hb. simpl in Hb. rewrite length_app. simpl.
      destruct (Nat.eqb_spec l a) as [->|Hne].
      - inversion Hb; subst. destruct Hext. lia.
      - destruct (Hok a b Hb). lia. }
    destruct (clone_list_copies n IH _ _ _ _ _ _ Hext' Hchildren Hok' Hfuel' E)
      as ([Hok1 Hnew1] & Hvs & Hk).
    assert (Hgrow : forall k x, memo_find k ((l, length h) :: m) = Some x ->
                                memo_find k m1 = Some x).
    { eapply clone_list_memo; [|exact E]. intros; eapply clone_memo; eauto. }
    assert (Hext1 : extends (h ++ [placeholder])%list h1).
    { eapply clone_list_extends; [|exact E]. intros; eapply clone_extends; eauto. }
    assert (Hl1 : memo_find l m1 = Some (length h)).
    { apply Hgrow. simpl. now rewrite Nat.eqb_refl. }
    assert (Hlen1 : length h < length h1).
    { destruct Hext1 as [L _]. rewrite length_app in L. simpl in L. lia. }
    split; [split|].
    - intros a b Hb. rewrite length_insert. now apply Hok1.
    - intros a b Hb Hnone. destruct (Nat.eq_dec a l) as [->|Hne].
      + rewrite Hl1 in Hb. inversion Hb; subst b. split; [lia|].
        exists c. split; [exact Hc|]. split; [exact Hk|].
        rewrite list_lookup_insert_eq by exact Hlen1. subst vs.
        destruct c; reflexivity.
      + assert (Hnone' : memo_find a ((l, length h) :: m) = None).
        { simpl. destruct (Nat.eqb_spec l a); [congruence | exact Hnone]. }
        destruct (Hnew1 a b Hb Hnone') as [Hlen Hcopy].
        rewrite length_app in Hlen. simpl in Hlen. split; [lia|].
        eapply copy_of_later; [| |exact Hcopy]; [auto|].
        apply list_lookup_insert_ne. lia.
    - simpl. rewrite Hl1. split; [reflexivity | discriminate]. }
  destruct c as [ps|xs]; cbn [cell_values] in Hgo.
  - destruct (clone_list (clone n) (map snd ps) ((l, length h) :: m) (h ++ [CObj []]))
      as [[h1 m1] vs] eqn:E.
    inversion Hrun; subst h' m' v'. exact (Hgo _ _ _ _ E).
  - destruct (clone_list (clone n) xs ((l, length h) :: m) (h ++ [CArr []]))
      as [[h1 m1] vs] eqn:E.
    inversion Hrun; subst h' m' v'. exact (Hgo _ _ _ _ E).
Qed.

End Clone.

Lemma closed_whole h : closed_region h (seq 0 (length h)) = true -> closed h.
Proof.
  intros H l c l' Hc Hin. unfold closed_region in H. rewrite forallb_forall in H.
  assert (Hl : In l (seq 0 (length h))).
  { apply in_seq. apply lookup_lt_Some in Hc. lia. }
  specialize (H l Hl). rewrite Hc in H. rewrite forallb_forall in H.
  specialize (H _ Hin). simpl in H. apply existsb_eqb_In, in_seq in H. lia.
Qed.

(** [cloneDeep] on a heap without loose ends: every pair of its memo is
    a finished copy. *)
Lemma cloneDeep_copies h v :
  closed h -> in_heap h v ->
  exists h' v' m',
    cloneDeep v h = (h', Ok v')
    /\ extends h h' /\ v' = img m' v /\ known m' v
    /\ memo_ok h m' h'
    /\ forall a b, memo_find a m' = Some b -> copy_of h m' h' a b.
Proof.
  intros Hclosed Hv. unfold cloneDeep.
  destruct (clone (S (length h)) v [] h) as [[h' m'] v'] eqn:E.
  exists h', v', m'. split; [reflexivity|].
  split; [eapply clone_extends; eauto|].
  destruct (clone_copies h Hclosed (S (length h)) v [] h h' m' v') as ([Hok Hnew] & Hv' & Hk);
    auto using extends_refl.
  - intros a b Hb. discriminate.
  - pose proof (unvisited_bound h []). lia.
  - repeat (split; [assumption|]). intros a b Hb. now apply Hnew.
Qed.

Section Copies.
Variable h0 h' : heap.
Variable m' : memo.
Hypothesis m'_ok : memo_ok h0 m' h'.
Hypothesis m'_copies : forall a b, memo_find a m' = Some b -> copy_of h0 m' h' a b.

(** The copy stands for the tree that the original stands for. *)
Lemma reify_copy : forall k v, known m' v -> reify k h' (img m' v) = reify k h0 v.
Proof.
  induction k as [|k IH]; intros v Hv; destruct v as [| |b|n|s|a]; try reflexivity;
    simpl in Hv; simpl img; destruct (memo_find a m') as [b|] eqn:Ha; try contradiction.
  - reflexivity.
  - destruct (m'_copies a b Ha) as (c & Hc & Hknown & Hb).
    cbn [reify]. rewrite Hc, Hb. destruct c as [ps|xs]; simpl in *.
    + f_equal. clear Hc Hb. induction ps as [|[key x] ps IHps]; [reflexivity|].
      inversion Hknown; subst. cbn. rewrite IH by assumption.
      destruct (reify k h0 x); [|reflexivity]. cbn. now rewrite IHps by assumption.
    + f_equal. clear Hc Hb. induction xs as [|x xs IHxs]; [reflexivity|].
      inversion Hknown; subst. cbn. rewrite IH by assumption.
      destruct (reify k h0 x); [|reflexivity]. cbn. now rewrite IHxs by assumption.
Qed.

Lemma In_map_img l vs :
  Forall (known m') vs -> In (VRef l) (map (img m') vs) -> exists a, memo_find a m' = Some l.
Proof.
  induction 1 as [|v vs Hv Hvs IH]; simpl; [intros []|].
  intros [Hl|Hl]; [|auto]. destruct v as [| |b|n|s|a]; try discriminate.
  simpl in Hv, Hl. destruct (memo_find a m') as [b|] eqn:Ha; [|contradiction].
  inversion Hl; subst. eauto.
Qed.

(** The copy consists of copies only. *)
Lemma reach_copy x l :
  reach h' x l -> (exists a b, x = VRef b /\ memo_find a m' = Some b) ->
  exists a, memo_find a m' = Some l.
Proof.
  induction 1 as [l|b c' l1 l2 Hc' Hin Hreach IH]; intros (a & b0 & Hx & Ha).
  - inversion Hx; subst. eauto.
  - inversion Hx; subst b0. apply IH.
    destruct (m'_copies a b Ha) as (c & Hc & Hknown & Hb).
    rewrite Hb in Hc'. inversion Hc'; subst c'.
    assert (Hl1 : exists a1, memo_find a1 m' = Some l1).
    { destruct c as [ps|xs]; simpl in Hin, Hknown.
      - apply (In_map_img l1 (map snd ps) Hknown).
        rewrite <- (snd_zip (map fst ps) (map (img m') (map snd ps)))
          by (rewrite !length_map; lia).
        exact Hin.
      - now apply (In_map_img l1 xs Hknown). }
    destruct Hl1 as [a1 Ha1]. eauto.
Qed.

End Copies.

(** X30.  With the empty template, [transform] returns a deep copy of a
    value that is neither null nor undefined: the copy stands for the
    same tree as the value, consists of new objects only, and the
    objects that were there before are left as they were. *)
Theorem transform_of_empty_template_copies (ext : externals) (n : nat) (t : loc)
        (value : val) (h : heap) :
  h !! t = Some (CObj []) ->
  closed h -> in_heap h value -> nullish value = false ->
  exists h' r,
    transform ext (S n) (VRef t) value h = (h', Ok r)
    /\ extends h h'
    /\ (forall k, reify k h' r = reify k h value)
    /\ (forall l, reach h' r l -> length h <= l).
Proof.
  intros Ht Hclosed Hv Hnull.
  destruct (cloneDeep_copies h value Hclosed Hv)
    as (h' & v' & m' & Hclone & Hext & Hv' & Hk & Hok & Hcopies).
  exists h', v'.
  assert (Ht' : h' !! t = Some (CObj [])).
  { destruct Hext as [_ Hsame]. rewrite Hsame; [exact Ht|].
    now apply lookup_lt_Some in Ht. }
  split; [|split; [exact Hext|split]].
  - cbn [transform]. rewrite Hnull. unfold mbind. rewrite Hclone.
    unfold object_keys. rewrite Ht'. reflexivity.
  - intros k. subst v'. now apply reify_copy.
  - intros l Hl. subst v'.
    destruct value as [| |b|z|s|a]; try (inversion Hl; fail).
    simpl in Hk, Hl. destruct (memo_find a m') as [b|] eqn:Ha; [|contradiction].
    destruct (reach_copy h h' m' Hcopies _ _ Hl) as [a' Ha']; [eauto|].
    destruct (Hok a' l Ha'). lia.
Qed.

Lemma transform_of_empty_template_copies_witness :
  exists h' r,
    transform Samples.libraries 1 (VRef 2) (VRef 0) copy_heap = (h', Ok r)
    /\ extends copy_heap h'
    /\ (forall k, reify k h' r = reify k copy_heap (VRef 0))
    /\ (forall l, reach h' r l -> length copy_heap <= l).
Proof.
  apply (transform_of_empty_template_copies Samples.libraries 0 2 (VRef 0) copy_heap).
  - reflexivity.
  - apply closed_whole. reflexivity.
  - simpl. lia.
  - reflexivity.
Defined.

End DeepCopyFacts.
